(** * modUploaderBot: the upload-session state machine

    A shallow embedding of the Telegram handlers of [main.go] (process-wide
    password flag, module [SharedAuth]) and of the second [main.go] variant
    kept in the repository (per-session [authenticated] field, module
    [PerChat]), followed by the properties of the session state machine.

    Modelling conventions.
    - Go's [int64] chat identifiers and [time.Time] clock readings are [Z];
      Go's [int] counter [uploadCount] is a [Z] kept in the 64-bit range by
      [wrap_int].
    - [uploadSessions] is a [map[int64]*UploadSession]: the map holds
      pointers, handlers write through them.  The model keeps a heap of
      session objects (a list, a pointer is an index, [&UploadSession{...}]
      allocates at the end) and a [gmap] from chat identifiers to pointers.
    - Every handler is a function from the state before to the state after
      together with the list of external calls it made, in order.  The
      results of calls to the outside world ([b.File], [uploadFile],
      [listFiles], [time.Now]) come with the event.
    - A handler returns [None] where the Go code would dereference a pointer
      that designates no object; [wf_step] shows this never happens from the
      initial state.
    - The bot is built without [Synchronous] in its [tele.Settings], so the
      framework starts every handler in a goroutine of its own and handlers
      may overlap.  [step] is one handler, run from its first statement to
      its return with no other handler in between.  [run] and [run_log]
      are the serial executions, those in which each handler returns before
      the next update is dispatched; the program does not enforce them.
      What is proved over [run] is either a property that each write of each
      handler preserves, or is stated for serial executions in so many
      words.
    - [SharedOverlap] and [PerChatOverlap] are the handlers in pieces, cut
      where a handler waits between two accesses to the shared variables,
      run under any schedule.  They show what overlapping handlers can do
      and what no schedule can break. *)

From Stdlib Require Import ZArith String List Lia.
From stdpp Require Import base option list gmap strings.

Local Open Scope Z_scope.

(** ** Go values *)

(** A Go [error]: [None] is [nil], [Some msg] an error whose [Error()] is
    [msg]. *)
Definition error : Type := option string.

(** Go's [int] on a 64-bit platform. *)
Definition int_min : Z := - 2 ^ 63.
Definition int_max : Z := 2 ^ 63 - 1.

Definition wrap_int (z : Z) : Z := (z + 2 ^ 63) mod 2 ^ 64 - 2 ^ 63.

(** [n++] on an [int]. *)
Definition int_incr (n : Z) : Z := wrap_int (n + 1).

(** [strings.HasSuffix]:
    [len(s) >= len(suffix) && s[len(s)-len(suffix):] == suffix]. *)
Definition HasSuffix (s suffix : string) : bool :=
  (String.length suffix <=? String.length s)%nat
  && String.eqb
       (substring (String.length s - String.length suffix)
                  (String.length suffix) s)
       suffix.

Definition jar : string := ".jar".

(** ** The messaging and storage gateways *)

(** The texts the handlers pass to [c.Send], one constructor per literal or
    format string of the source, with the values the format receives.  The
    two variants use the same texts. *)
Inductive Message : Type :=
| MsgWelcome                                   (* /start *)
| MsgPromptPassword                            (* "Please enter the upload password to continue:" *)
| MsgSessionStarted                            (* "Upload session started! ... Please send your .jar files now." *)
| MsgNoSessionUseUpload                        (* "No active upload session found. Use /upload to start uploading files." *)
| MsgNoSession                                 (* "No active upload session found." *)
| MsgCompleted (count : Z) (start now : Z)     (* "Upload session completed! ... Files uploaded: %d ... Duration: %v" *)
| MsgCancelled (count : Z)                     (* "Upload session cancelled. ... Files uploaded before cancellation: %d" *)
| MsgAuthenticateFirst                         (* "Please authenticate first with the password. ..." *)
| MsgOnlyJar                                   (* "Please send only .jar files." *)
| MsgProgress (fileName : string) (count : Z)  (* "Uploading %s... (%d files uploaded so far)" *)
| MsgFailedReader (err : string)               (* "Failed to get file reader: " + err.Error() *)
| MsgFailedUpload (err : string)               (* "Failed to upload to Google Drive: " + err.Error() *)
| MsgUploaded (fileName : string) (count : Z)  (* "Successfully uploaded %s to Google Drive! ... Total files uploaded: %d" *)
| MsgPasswordAccepted                          (* "UBERIIII... Upload session started!" *)
| MsgIncorrectPassword                         (* "Incorrect password. Upload session cancelled. ..." *)
| MsgFailedList (err : string)                 (* "Failed to get file list: " + err.Error() *)
| MsgNoMods                                    (* "No mods uploaded yet." *)
| MsgFileList (names : list string)            (* "Uploaded Mods:" and one numbered line per file *)
| MsgFailedCount (err : string)                (* "Failed to get file count: " + err.Error() *)
| MsgQuantity (n : Z).                         (* "Total number of uploaded mods: %d" *)

(** The calls a handler makes to the outside, with the result each one
    returned.  The error [c.Send] may return goes back to the bot framework
    as the handler's result and touches no variable of the program; it is
    left out. *)
Inductive Action : Type :=
| Send (chat : Z) (m : Message)                (* c.Send(...) *)
| BotFile (fileName : string) (err : error)    (* b.File(&doc.File) *)
| DriveUpload (fileName : string) (err : error)(* driveManager.uploadFile(doc.FileName, reader) *)
| DriveList (res : string + list string)       (* driveManager.listFiles() *)
| CreateFlagFile.                              (* os.Create("password_entered.flag") *)

(** The updates the bot dispatches to its handlers.  [now] is what
    [time.Now()] reads while the handler runs; [fileErr], [uploadErr] and
    [res] are what [b.File], [uploadFile] and [listFiles] answer if the
    handler calls them. *)
Inductive Event : Type :=
| CmdStart (chat : Z)
| CmdUpload (chat : Z) (now : Z)
| CmdDone (chat : Z) (now : Z)
| CmdCancel (chat : Z)
| OnDocument (chat : Z) (fileName : string) (fileErr uploadErr : error)
| OnText (chat : Z) (text : string)
| CmdList (chat : Z) (res : string + list string)
| CmdQuantity (chat : Z) (res : string + list string).

(** The conversation an update belongs to, [c.Chat().ID]. *)
Definition event_chat (e : Event) : Z :=
  match e with
  | CmdStart c | CmdUpload c _ | CmdDone c _ | CmdCancel c
  | OnDocument c _ _ _ | OnText c _ | CmdList c _ | CmdQuantity c _ => c
  end.


(** A call of [uploadFile] for the document [fileName] that returned
    [nil]. *)
Definition is_upload_ok (fileName : string) (a : Action) : bool :=
  match a with
  | DriveUpload fileName' None => String.eqb fileName' fileName
  | _ => false
  end.

(** [uploadPassword] of the text handler: the environment variable
    [upload_password], or ["password"] when it is empty or unset. *)
Definition uploadPassword (upload_password : string) : string :=
  if String.eqb upload_password EmptyString then "password"%string
  else upload_password.

(** The documents of the scenario of the specification: two mods and a
    text file in between. *)
Definition scenario_documents : list Event :=
  [ OnDocument 7 "mod1.jar" None None;
    OnDocument 7 "readme.txt" None None;
    OnDocument 7 "mod2.jar" None None ].

(** The same documents, then [/done] and one more mod, sent after the
    session has ended. *)
Definition scenario_late_document : list Event :=
  scenario_documents ++ [CmdDone 7 160; OnDocument 7 "late.jar" None None].

(** A pointer to a session object. *)
Definition ptr : Type := nat.

(** The handlers of [/list] and [/quantity], the same in both variants. *)
Definition listReply (chat : Z) (res : string + list string) : list Action :=
  match res with
  | inl err => [DriveList res; Send chat (MsgFailedList err)]
  | inr files =>
      if (List.length files =? 0)%nat then [DriveList res; Send chat MsgNoMods]
      else [DriveList res; Send chat (MsgFileList files)]
  end.

Definition quantityReply (chat : Z) (res : string + list string) : list Action :=
  match res with
  | inl err => [DriveList res; Send chat (MsgFailedCount err)]
  | inr files => [DriveList res; Send chat (MsgQuantity (Z.of_nat (List.length files)))]
  end.

(** ** The per-session variant: [authenticated] is a field of the session *)

Module PerChat.

Record UploadSession : Type := mkSession {
  chatID : Z;
  isActive : bool;
  uploadCount : Z;
  startTime : Z;
  authenticated : bool
}.

(** The package-level [uploadSessions] map and the session objects its
    pointers designate. *)
Record State : Type := mkState {
  heap : list UploadSession;
  uploadSessions : gmap Z ptr
}.

(** [session.isActive = false], [session.uploadCount++] and
    [session.authenticated = true]. *)
Definition set_inactive (s : UploadSession) : UploadSession :=
  mkSession (chatID s) false (uploadCount s) (startTime s) (authenticated s).

Definition incr_uploadCount (s : UploadSession) : UploadSession :=
  mkSession (chatID s) (isActive s) (int_incr (uploadCount s)) (startTime s)
            (authenticated s).

Definition set_authenticated (s : UploadSession) : UploadSession :=
  mkSession (chatID s) (isActive s) (uploadCount s) (startTime s) true.

(** [var uploadSessions = make(map[int64]*UploadSession)]. *)
Definition init : State := mkState [] ∅.

(** The session [/upload] allocates. *)
Definition newSession (chat now : Z) : UploadSession :=
  mkSession chat true 0 now false.

Definition handleStart (chat : Z) (st : State) : option (State * list Action) :=
  Some (st, [Send chat MsgWelcome]).

Definition handleUpload (chat now : Z) (st : State) : option (State * list Action) :=
  let p := List.length (heap st) in
  Some (mkState (heap st ++ [newSession chat now])
                (<[chat := p]> (uploadSessions st)),
        [Send chat MsgPromptPassword]).

Definition handleDone (chat now : Z) (st : State) : option (State * list Action) :=
  match uploadSessions st !! chat with
  | None => Some (st, [Send chat MsgNoSessionUseUpload])
  | Some p =>
    match heap st !! p with
    | None => None
    | Some session =>
      if negb (isActive session) then
        Some (st, [Send chat MsgNoSessionUseUpload])
      else
        let session' := set_inactive session in
        Some (mkState (<[p := session']> (heap st))
                      (delete chat (uploadSessions st)),
              [Send chat (MsgCompleted (uploadCount session')
                                       (startTime session') now)])
    end
  end.

Definition handleCancel (chat : Z) (st : State) : option (State * list Action) :=
  match uploadSessions st !! chat with
  | None => Some (st, [Send chat MsgNoSession])
  | Some p =>
    match heap st !! p with
    | None => None
    | Some session =>
      if negb (isActive session) then
        Some (st, [Send chat MsgNoSession])
      else
        let session' := set_inactive session in
        Some (mkState (<[p := session']> (heap st))
                      (delete chat (uploadSessions st)),
              [Send chat (MsgCancelled (uploadCount session'))])
    end
  end.

Definition handleDocument (chat : Z) (fileName : string)
    (fileErr uploadErr : error) (st : State) : option (State * list Action) :=
  match uploadSessions st !! chat with
  | None => Some (st, [Send chat MsgNoSessionUseUpload])
  | Some p =>
    match heap st !! p with
    | None => None
    | Some session =>
      if negb (isActive session) then
        Some (st, [Send chat MsgNoSessionUseUpload])
      else if negb (authenticated session) then
        Some (st, [Send chat MsgAuthenticateFirst])
      else if negb (HasSuffix fileName jar) then
        Some (st, [Send chat MsgOnlyJar])
      else
        let progress := Send chat (MsgProgress fileName (uploadCount session)) in
        match fileErr with
        | Some err =>
          Some (st, [progress; BotFile fileName fileErr;
                     Send chat (MsgFailedReader err)])
        | None =>
          match uploadErr with
          | Some err =>
            Some (st, [progress; BotFile fileName fileErr;
                       DriveUpload fileName uploadErr;
                       Send chat (MsgFailedUpload err)])
          | None =>
            let session' := incr_uploadCount session in
            Some (mkState (<[p := session']> (heap st)) (uploadSessions st),
                  [progress; BotFile fileName fileErr;
                   DriveUpload fileName uploadErr;
                   Send chat (MsgUploaded fileName (uploadCount session'))])
          end
        end
    end
  end.

Definition handleText (upload_password : string) (chat : Z) (text : string)
    (st : State) : option (State * list Action) :=
  match uploadSessions st !! chat with
  | None => Some (st, [])
  | Some p =>
    match heap st !! p with
    | None => None
    | Some session =>
      if negb (isActive session) || authenticated session then
        Some (st, [])
      else if String.eqb text (uploadPassword upload_password) then
        Some (mkState (<[p := set_authenticated session]> (heap st))
                      (uploadSessions st),
              [Send chat MsgPasswordAccepted])
      else
        Some (mkState (<[p := set_inactive session]> (heap st))
                      (delete chat (uploadSessions st)),
              [Send chat MsgIncorrectPassword])
    end
  end.

Definition handleList (chat : Z) (res : string + list string) (st : State)
    : option (State * list Action) :=
  Some (st, listReply chat res).

Definition handleQuantity (chat : Z) (res : string + list string) (st : State)
    : option (State * list Action) :=
  Some (st, quantityReply chat res).

(** The dispatch of [b.Handle]: one update, one handler. *)
Definition step (upload_password : string) (st : State) (e : Event)
    : option (State * list Action) :=
  match e with
  | CmdStart chat => handleStart chat st
  | CmdUpload chat now => handleUpload chat now st
  | CmdDone chat now => handleDone chat now st
  | CmdCancel chat => handleCancel chat st
  | OnDocument chat fileName fileErr uploadErr =>
      handleDocument chat fileName fileErr uploadErr st
  | OnText chat text => handleText upload_password chat text st
  | CmdList chat res => handleList chat res st
  | CmdQuantity chat res => handleQuantity chat res st
  end.

(** A serial execution of [b.Start()]: the updates of a trace, each handled
    to its return before the next is dispatched.  Nothing in the program
    makes its executions serial. *)
Fixpoint run (upload_password : string) (st : State) (tr : list Event)
    : option (State * list Action) :=
  match tr with
  | [] => Some (st, [])
  | e :: tr' =>
    match step upload_password st e with
    | None => None
    | Some (st1, acts1) =>
      match run upload_password st1 tr' with
      | None => None
      | Some (st2, acts2) => Some (st2, acts1 ++ acts2)
      end
    end
  end.

(** The same serial execution, with the calls kept apart: one entry per
    update, holding the calls its handler made. *)
Fixpoint run_log (upload_password : string) (st : State) (tr : list Event)
    : option (State * list (Event * list Action)) :=
  match tr with
  | [] => Some (st, [])
  | e :: tr' =>
    match step upload_password st e with
    | None => None
    | Some (st1, acts1) =>
      match run_log upload_password st1 tr' with
      | None => None
      | Some (st2, log) => Some (st2, (e, acts1) :: log)
      end
    end
  end.

(** Every pointer of the map designates an object, and that object carries
    the key it is stored under. *)
Definition wf (st : State) : Prop :=
  map_Forall (λ c p, chatID <$> heap st !! p = Some c) (uploadSessions st).

(** The map holds active sessions only. *)
Definition all_active (st : State) : Prop :=
  map_Forall (λ _ p, isActive <$> heap st !! p = Some true) (uploadSessions st).

(** The object [p] is in the map. *)
Definition stored (st : State) (p : ptr) : Prop :=
  ∃ c, uploadSessions st !! c = Some p.

(** Conversation [c] has the session object [p], whose fields are [s]. *)
Definition session_of (st : State) (c : Z) (p : ptr) (s : UploadSession) : Prop :=
  uploadSessions st !! c = Some p ∧ heap st !! p = Some s.

(** How the handler of [e], run in [st], may change the session object [p]
    from [s] to [s']: the object keeps its key and start time, is never
    reactivated or de-authenticated, and its counter either stays or is
    incremented by the document handler that reads the object, active and
    authenticated, through the map. *)
Definition object_step (st : State) (e : Event) (p : ptr)
    (s s' : UploadSession) : Prop :=
  chatID s' = chatID s ∧ startTime s' = startTime s
  ∧ (isActive s = false → isActive s' = false)
  ∧ (authenticated s = true → authenticated s' = true)
  ∧ (uploadCount s' = uploadCount s
     ∨ (uploadCount s' = int_incr (uploadCount s)
        ∧ isActive s = true ∧ authenticated s = true
        ∧ ∃ name, e = OnDocument (event_chat e) name None None
                  ∧ HasSuffix name jar = true
                  ∧ uploadSessions st !! event_chat e = Some p)).

(** The updates that end the session [s] of conversation [c]: [/done],
    [/cancel], and a text other than the password while the session awaits
    it. *)
Definition ends_session (upload_password : string) (c : Z)
    (s : UploadSession) (e : Event) : Prop :=
  match e with
  | CmdDone c' _ | CmdCancel c' => c' = c
  | OnText c' text =>
      c' = c ∧ authenticated s = false ∧ text ≠ uploadPassword upload_password
  | _ => False
  end.

(** Two states to try the handlers on: conversation 7 holds the only
    session, started at time 100, either with [n] files uploaded or still
    waiting for the password. *)
Definition uploading_state (n : Z) : State :=
  mkState [mkSession 7 true n 100 true] {[ 7 := 0%nat ]}.

Definition awaiting_state : State :=
  mkState [mkSession 7 true 0 100 false] {[ 7 := 0%nat ]}.

(** Every counter of the heap is between 0 and [k]. *)
Definition counts_within (k : Z) (st : State) : Prop :=
  ∀ (p : ptr) s, heap st !! p = Some s → 0 ≤ uploadCount s ≤ k.

End PerChat.

(** ** The process-wide variant: [isFirstTimeSetup] is a package variable *)

Module SharedAuth.

Record UploadSession : Type := mkSession {
  chatID : Z;
  isActive : bool;
  uploadCount : Z;
  startTime : Z
}.

(** The package-level variables [uploadSessions] and [isFirstTimeSetup],
    and the session objects the pointers of the map designate. *)
Record State : Type := mkState {
  heap : list UploadSession;
  uploadSessions : gmap Z ptr;
  isFirstTimeSetup : bool
}.

Definition set_inactive (s : UploadSession) : UploadSession :=
  mkSession (chatID s) false (uploadCount s) (startTime s).

Definition incr_uploadCount (s : UploadSession) : UploadSession :=
  mkSession (chatID s) (isActive s) (int_incr (uploadCount s)) (startTime s).

(** The package initialisers and [init()]: [flagFileFound] tells whether
    [os.Stat("password_entered.flag")] returned without error. *)
Definition init (flagFileFound : bool) : State :=
  mkState [] ∅ (if flagFileFound then false else true).

Definition newSession (chat now : Z) : UploadSession :=
  mkSession chat true 0 now.

Definition handleStart (chat : Z) (st : State) : option (State * list Action) :=
  Some (st, [Send chat MsgWelcome]).

Definition handleUpload (chat now : Z) (st : State) : option (State * list Action) :=
  let p := List.length (heap st) in
  let st' := mkState (heap st ++ [newSession chat now])
                     (<[chat := p]> (uploadSessions st))
                     (isFirstTimeSetup st) in
  if isFirstTimeSetup st' then Some (st', [Send chat MsgPromptPassword])
  else Some (st', [Send chat MsgSessionStarted]).

Definition handleDone (chat now : Z) (st : State) : option (State * list Action) :=
  match uploadSessions st !! chat with
  | None => Some (st, [Send chat MsgNoSessionUseUpload])
  | Some p =>
    match heap st !! p with
    | None => None
    | Some session =>
      if negb (isActive session) then
        Some (st, [Send chat MsgNoSessionUseUpload])
      else
        let session' := set_inactive session in
        Some (mkState (<[p := session']> (heap st))
                      (delete chat (uploadSessions st))
                      (isFirstTimeSetup st),
              [Send chat (MsgCompleted (uploadCount session')
                                       (startTime session') now)])
    end
  end.

Definition handleCancel (chat : Z) (st : State) : option (State * list Action) :=
  match uploadSessions st !! chat with
  | None => Some (st, [Send chat MsgNoSession])
  | Some p =>
    match heap st !! p with
    | None => None
    | Some session =>
      if negb (isActive session) then
        Some (st, [Send chat MsgNoSession])
      else
        let session' := set_inactive session in
        Some (mkState (<[p := session']> (heap st))
                      (delete chat (uploadSessions st))
                      (isFirstTimeSetup st),
              [Send chat (MsgCancelled (uploadCount session'))])
    end
  end.

Definition handleDocument (chat : Z) (fileName : string)
    (fileErr uploadErr : error) (st : State) : option (State * list Action) :=
  match uploadSessions st !! chat with
  | None => Some (st, [Send chat MsgNoSessionUseUpload])
  | Some p =>
    match heap st !! p with
    | None => None
    | Some session =>
      if negb (isActive session) then
        Some (st, [Send chat MsgNoSessionUseUpload])
      else if isFirstTimeSetup st then
        Some (st, [Send chat MsgAuthenticateFirst])
      else if negb (HasSuffix fileName jar) then
        Some (st, [Send chat MsgOnlyJar])
      else
        let progress := Send chat (MsgProgress fileName (uploadCount session)) in
        match fileErr with
        | Some err =>
          Some (st, [progress; BotFile fileName fileErr;
                     Send chat (MsgFailedReader err)])
        | None =>
          match uploadErr with
          | Some err =>
            Some (st, [progress; BotFile fileName fileErr;
                       DriveUpload fileName uploadErr;
                       Send chat (MsgFailedUpload err)])
          | None =>
            let session' := incr_uploadCount session in
            Some (mkState (<[p := session']> (heap st)) (uploadSessions st)
                          (isFirstTimeSetup st),
                  [progress; BotFile fileName fileErr;
                   DriveUpload fileName uploadErr;
                   Send chat (MsgUploaded fileName (uploadCount session'))])
          end
        end
    end
  end.

Definition handleText (upload_password : string) (chat : Z) (text : string)
    (st : State) : option (State * list Action) :=
  match uploadSessions st !! chat with
  | None => Some (st, [])
  | Some p =>
    match heap st !! p with
    | None => None
    | Some session =>
      if negb (isActive session) || negb (isFirstTimeSetup st) then
        Some (st, [])
      else if String.eqb text (uploadPassword upload_password) then
        Some (mkState (heap st) (uploadSessions st) false,
              [CreateFlagFile; Send chat MsgPasswordAccepted])
      else
        Some (mkState (<[p := set_inactive session]> (heap st))
                      (delete chat (uploadSessions st))
                      (isFirstTimeSetup st),
              [Send chat MsgIncorrectPassword])
    end
  end.

Definition handleList (chat : Z) (res : string + list string) (st : State)
    : option (State * list Action) :=
  Some (st, listReply chat res).

Definition handleQuantity (chat : Z) (res : string + list string) (st : State)
    : option (State * list Action) :=
  Some (st, quantityReply chat res).

Definition step (upload_password : string) (st : State) (e : Event)
    : option (State * list Action) :=
  match e with
  | CmdStart chat => handleStart chat st
  | CmdUpload chat now => handleUpload chat now st
  | CmdDone chat now => handleDone chat now st
  | CmdCancel chat => handleCancel chat st
  | OnDocument chat fileName fileErr uploadErr =>
      handleDocument chat fileName fileErr uploadErr st
  | OnText chat text => handleText upload_password chat text st
  | CmdList chat res => handleList chat res st
  | CmdQuantity chat res => handleQuantity chat res st
  end.

(** A serial execution, as in the other variant. *)
Fixpoint run (upload_password : string) (st : State) (tr : list Event)
    : option (State * list Action) :=
  match tr with
  | [] => Some (st, [])
  | e :: tr' =>
    match step upload_password st e with
    | None => None
    | Some (st1, acts1) =>
      match run upload_password st1 tr' with
      | None => None
      | Some (st2, acts2) => Some (st2, acts1 ++ acts2)
      end
    end
  end.

Fixpoint run_log (upload_password : string) (st : State) (tr : list Event)
    : option (State * list (Event * list Action)) :=
  match tr with
  | [] => Some (st, [])
  | e :: tr' =>
    match step upload_password st e with
    | None => None
    | Some (st1, acts1) =>
      match run_log upload_password st1 tr' with
      | None => None
      | Some (st2, log) => Some (st2, (e, acts1) :: log)
      end
    end
  end.

Definition wf (st : State) : Prop :=
  map_Forall (λ c p, chatID <$> heap st !! p = Some c) (uploadSessions st).

Definition all_active (st : State) : Prop :=
  map_Forall (λ _ p, isActive <$> heap st !! p = Some true) (uploadSessions st).

Definition stored (st : State) (p : ptr) : Prop :=
  ∃ c, uploadSessions st !! c = Some p.

Definition session_of (st : State) (c : Z) (p : ptr) (s : UploadSession) : Prop :=
  uploadSessions st !! c = Some p ∧ heap st !! p = Some s.

(** How the handler of [e], run in [st], may change the session object [p]
    from [s] to [s']: the object keeps its key and start time, is never
    reactivated, and its counter either stays or is incremented by the
    document handler that reads the object, active, through the map once
    the password has been entered. *)
Definition object_step (st : State) (e : Event) (p : ptr)
    (s s' : UploadSession) : Prop :=
  chatID s' = chatID s ∧ startTime s' = startTime s
  ∧ (isActive s = false → isActive s' = false)
  ∧ (uploadCount s' = uploadCount s
     ∨ (uploadCount s' = int_incr (uploadCount s)
        ∧ isActive s = true ∧ isFirstTimeSetup st = false
        ∧ ∃ name, e = OnDocument (event_chat e) name None None
                  ∧ HasSuffix name jar = true
                  ∧ uploadSessions st !! event_chat e = Some p)).

(** The updates that end the session of conversation [c]: [/done],
    [/cancel], and a text other than the password while the password has
    not been entered yet. *)
Definition ends_session (upload_password : string) (st : State) (c : Z)
    (e : Event) : Prop :=
  match e with
  | CmdDone c' _ | CmdCancel c' => c' = c
  | OnText c' text =>
      c' = c ∧ isFirstTimeSetup st = true
      ∧ text ≠ uploadPassword upload_password
  | _ => False
  end.

(** Two states to try the handlers on: conversation 7 holds the only
    session, started at time 100, either with [n] files uploaded or still
    waiting for the password. *)
Definition uploading_state (n : Z) : State :=
  mkState [mkSession 7 true n 100] {[ 7 := 0%nat ]} false.

Definition awaiting_state : State :=
  mkState [mkSession 7 true 0 100] {[ 7 := 0%nat ]} true.

(** Every counter of the heap is between 0 and [k]. *)
Definition counts_within (k : Z) (st : State) : Prop :=
  ∀ (p : ptr) s, heap st !! p = Some s → 0 ≤ uploadCount s ≤ k.

End SharedAuth.

(** ** Handlers that overlap

    The bot is built without [Synchronous], so every handler runs in a
    goroutine of its own, and a handler that waits lets the others run.
    Here a handler in flight is a value: where it waits, and what it holds
    in its local variables.  The places modelled are those where a handler
    waits between two accesses to the shared variables: the document
    handler in [b.File] and [uploadFile], and between the load and the
    store of [session.uploadCount++], which nothing makes atomic; the text
    handler of [main.go] in [os.Create].  [resume] runs a handler from
    where it waits to its next wait or its return; a schedule tells which
    handler goes next.  Every schedule is an execution the program can
    show; the schedules that resume each handler until it returns before
    they start the next are the serial executions of [run]. *)

(** The serial schedule of [n] handlers, the first at place [k] of the
    pool: each is resumed three times, which takes it to its return, before
    the next is started. *)
Fixpoint serial (k n : nat) : list nat :=
  match n with
  | O => []
  | S n' => [k; k; k] ++ serial (S k) n'
  end.

Module SharedOverlap.
Import SharedAuth.

Inductive Pending : Type :=
| Dispatched (e : Event)
    (* the goroutine is started, the handler has not run yet *)
| InTransfer (chat : Z) (fileName : string) (fileErr uploadErr : error)
             (session : ptr)
    (* in [b.File] or [uploadFile]; [session] is the local variable *)
| InIncrement (chat : Z) (fileName : string) (session : ptr) (count : Z)
    (* [session.uploadCount] is loaded, [count + 1] is not yet stored *)
| InCreate (chat : Z)
    (* in [os.Create("password_entered.flag")] *)
| Returned.

(** The document handler up to [c.Send(progressMsg)]. *)
Definition beginDocument (chat : Z) (fileName : string)
    (fileErr uploadErr : error) (st : State)
    : option (State * list Action * Pending) :=
  match uploadSessions st !! chat with
  | None => Some (st, [Send chat MsgNoSessionUseUpload], Returned)
  | Some p =>
    match heap st !! p with
    | None => None
    | Some session =>
      if negb (isActive session) then
        Some (st, [Send chat MsgNoSessionUseUpload], Returned)
      else if isFirstTimeSetup st then
        Some (st, [Send chat MsgAuthenticateFirst], Returned)
      else if negb (HasSuffix fileName jar) then
        Some (st, [Send chat MsgOnlyJar], Returned)
      else
        Some (st, [Send chat (MsgProgress fileName (uploadCount session))],
              InTransfer chat fileName fileErr uploadErr p)
    end
  end.

(** From [b.File] to the load of [session.uploadCount++]. *)
Definition endTransfer (chat : Z) (fileName : string)
    (fileErr uploadErr : error) (p : ptr) (st : State)
    : option (State * list Action * Pending) :=
  match fileErr with
  | Some err =>
    Some (st, [BotFile fileName fileErr; Send chat (MsgFailedReader err)],
          Returned)
  | None =>
    match uploadErr with
    | Some err =>
      Some (st, [BotFile fileName fileErr; DriveUpload fileName uploadErr;
                 Send chat (MsgFailedUpload err)],
            Returned)
    | None =>
      match heap st !! p with
      | None => None
      | Some session =>
        Some (st, [BotFile fileName fileErr; DriveUpload fileName uploadErr],
              InIncrement chat fileName p (uploadCount session))
      end
    end
  end.

(** The store of [session.uploadCount++] and the last [c.Send], which
    reads the counter again. *)
Definition endIncrement (chat : Z) (fileName : string) (p : ptr) (count : Z)
    (st : State) : option (State * list Action * Pending) :=
  match heap st !! p with
  | None => None
  | Some session =>
    let session' :=
      mkSession (chatID session) (isActive session) (int_incr count)
                (startTime session) in
    Some (mkState (<[p := session']> (heap st)) (uploadSessions st)
                  (isFirstTimeSetup st),
          [Send chat (MsgUploaded fileName (uploadCount session'))],
          Returned)
  end.

(** The text handler up to the call of [os.Create], or to its return when
    the text is ignored or is not the password. *)
Definition beginText (upload_password : string) (chat : Z) (text : string)
    (st : State) : option (State * list Action * Pending) :=
  match uploadSessions st !! chat with
  | None => Some (st, [], Returned)
  | Some p =>
    match heap st !! p with
    | None => None
    | Some session =>
      if negb (isActive session) || negb (isFirstTimeSetup st) then
        Some (st, [], Returned)
      else if String.eqb text (uploadPassword upload_password) then
        Some (st, [CreateFlagFile], InCreate chat)
      else
        Some (mkState (<[p := set_inactive session]> (heap st))
                      (delete chat (uploadSessions st))
                      (isFirstTimeSetup st),
              [Send chat MsgIncorrectPassword], Returned)
    end
  end.

(** [isFirstTimeSetup = false] and the reply. *)
Definition endCreate (chat : Z) (st : State)
    : option (State * list Action * Pending) :=
  Some (mkState (heap st) (uploadSessions st) false,
        [Send chat MsgPasswordAccepted], Returned).

Definition resume (upload_password : string) (st : State) (h : Pending)
    : option (State * list Action * Pending) :=
  match h with
  | Dispatched (OnDocument chat fileName fileErr uploadErr) =>
      beginDocument chat fileName fileErr uploadErr st
  | Dispatched (OnText chat text) => beginText upload_password chat text st
  | Dispatched e =>
      match step upload_password st e with
      | None => None
      | Some (st', acts) => Some (st', acts, Returned)
      end
  | InTransfer chat fileName fileErr uploadErr p =>
      endTransfer chat fileName fileErr uploadErr p st
  | InIncrement chat fileName p count => endIncrement chat fileName p count st
  | InCreate chat => endCreate chat st
  | Returned => Some (st, [], Returned)
  end.

(** The handlers [pool] under a schedule: each number resumes the handler
    at that place of the pool (a number that names no handler is skipped).
    A call is logged when the handler that made it is resumed after it. *)
Fixpoint exec (upload_password : string) (st : State) (pool : list Pending)
    (schedule : list nat) : option (State * list Action * list Pending) :=
  match schedule with
  | [] => Some (st, [], pool)
  | i :: schedule' =>
    match pool !! i with
    | None => exec upload_password st pool schedule'
    | Some h =>
      match resume upload_password st h with
      | None => None
      | Some (st1, acts1, h1) =>
        match exec upload_password st1 (<[i := h1]> pool) schedule' with
        | None => None
        | Some (st2, acts2, pool2) => Some (st2, acts1 ++ acts2, pool2)
        end
      end
    end
  end.

(** The same execution with the calls kept apart: one entry per
    resumption, the handler as it was when it was resumed and the calls it
    made from there. *)
Fixpoint exec_log (upload_password : string) (st : State)
    (pool : list Pending) (schedule : list nat)
    : option (State * list (Pending * list Action) * list Pending) :=
  match schedule with
  | [] => Some (st, [], pool)
  | i :: schedule' =>
    match pool !! i with
    | None => exec_log upload_password st pool schedule'
    | Some h =>
      match resume upload_password st h with
      | None => None
      | Some (st1, acts1, h1) =>
        match exec_log upload_password st1 (<[i := h1]> pool) schedule' with
        | None => None
        | Some (st2, log, pool2) => Some (st2, (h, acts1) :: log, pool2)
        end
      end
    end
  end.

(** An entry of such a log: a document handler of conversation [c] came
    back from an [uploadFile] that returned [nil]. *)
Definition transfer_ok (c : Z) (entry : Pending * list Action) : bool :=
  match fst entry with
  | InTransfer c' fileName _ _ _ =>
      bool_decide (c' = c) && existsb (is_upload_ok fileName) (snd entry)
  | _ => false
  end.

Definition transfers_ok (c : Z) (log : list (Pending * list Action)) : nat :=
  List.length (List.filter (transfer_ok c) log).

(** The pointer [p] designates a session object of conversation [c]. *)
Definition designates (st : State) (c : Z) (p : ptr) : Prop :=
  ∃ s, heap st !! p = Some s ∧ chatID s = c.

(** The [session] of a handler in flight designates a session object of
    its conversation. *)
Definition holds_session (st : State) (h : Pending) : Prop :=
  match h with
  | InTransfer c _ _ _ p | InIncrement c _ p _ => designates st c p
  | _ => True
  end.

(** The counter a handler in flight has loaded is at least 0 and below the
    number of documents of its conversation stored so far. *)
Definition loaded_ok (log : list (Pending * list Action)) (h : Pending)
    : Prop :=
  match h with
  | InIncrement c _ _ count => 0 ≤ count < Z.of_nat (transfers_ok c log)
  | _ => True
  end.

(** No counter is below 0 or above the number of documents of its
    conversation stored so far. *)
Definition counted (st : State) (log : list (Pending * list Action)) : Prop :=
  ∀ (p : ptr) s,
    heap st !! p = Some s →
    0 ≤ uploadCount s ≤ Z.of_nat (transfers_ok (chatID s) log).

End SharedOverlap.

(** The same for the per-session variant, whose text handler makes no call
    between its test and its write. *)
Module PerChatOverlap.
Import PerChat.

Inductive Pending : Type :=
| Dispatched (e : Event)
| InTransfer (chat : Z) (fileName : string) (fileErr uploadErr : error)
             (session : ptr)
| InIncrement (chat : Z) (fileName : string) (session : ptr) (count : Z)
| Returned.

Definition beginDocument (chat : Z) (fileName : string)
    (fileErr uploadErr : error) (st : State)
    : option (State * list Action * Pending) :=
  match uploadSessions st !! chat with
  | None => Some (st, [Send chat MsgNoSessionUseUpload], Returned)
  | Some p =>
    match heap st !! p with
    | None => None
    | Some session =>
      if negb (isActive session) then
        Some (st, [Send chat MsgNoSessionUseUpload], Returned)
      else if negb (authenticated session) then
        Some (st, [Send chat MsgAuthenticateFirst], Returned)
      else if negb (HasSuffix fileName jar) then
        Some (st, [Send chat MsgOnlyJar], Returned)
      else
        Some (st, [Send chat (MsgProgress fileName (uploadCount session))],
              InTransfer chat fileName fileErr uploadErr p)
    end
  end.

Definition endTransfer (chat : Z) (fileName : string)
    (fileErr uploadErr : error) (p : ptr) (st : State)
    : option (State * list Action * Pending) :=
  match fileErr with
  | Some err =>
    Some (st, [BotFile fileName fileErr; Send chat (MsgFailedReader err)],
          Returned)
  | None =>
    match uploadErr with
    | Some err =>
      Some (st, [BotFile fileName fileErr; DriveUpload fileName uploadErr;
                 Send chat (MsgFailedUpload err)],
            Returned)
    | None =>
      match heap st !! p with
      | None => None
      | Some session =>
        Some (st, [BotFile fileName fileErr; DriveUpload fileName uploadErr],
              InIncrement chat fileName p (uploadCount session))
      end
    end
  end.

Definition endIncrement (chat : Z) (fileName : string) (p : ptr) (count : Z)
    (st : State) : option (State * list Action * Pending) :=
  match heap st !! p with
  | None => None
  | Some session =>
    let session' :=
      mkSession (chatID session) (isActive session) (int_incr count)
                (startTime session) (authenticated session) in
    Some (mkState (<[p := session']> (heap st)) (uploadSessions st),
          [Send chat (MsgUploaded fileName (uploadCount session'))],
          Returned)
  end.

Definition resume (upload_password : string) (st : State) (h : Pending)
    : option (State * list Action * Pending) :=
  match h with
  | Dispatched (OnDocument chat fileName fileErr uploadErr) =>
      beginDocument chat fileName fileErr uploadErr st
  | Dispatched e =>
      match step upload_password st e with
      | None => None
      | Some (st', acts) => Some (st', acts, Returned)
      end
  | InTransfer chat fileName fileErr uploadErr p =>
      endTransfer chat fileName fileErr uploadErr p st
  | InIncrement chat fileName p count => endIncrement chat fileName p count st
  | Returned => Some (st, [], Returned)
  end.

Fixpoint exec (upload_password : string) (st : State) (pool : list Pending)
    (schedule : list nat) : option (State * list Action * list Pending) :=
  match schedule with
  | [] => Some (st, [], pool)
  | i :: schedule' =>
    match pool !! i with
    | None => exec upload_password st pool schedule'
    | Some h =>
      match resume upload_password st h with
      | None => None
      | Some (st1, acts1, h1) =>
        match exec upload_password st1 (<[i := h1]> pool) schedule' with
        | None => None
        | Some (st2, acts2, pool2) => Some (st2, acts1 ++ acts2, pool2)
        end
      end
    end
  end.

(** The same execution with the calls kept apart: one entry per
    resumption, the handler as it was when it was resumed and the calls it
    made from there. *)
Fixpoint exec_log (upload_password : string) (st : State)
    (pool : list Pending) (schedule : list nat)
    : option (State * list (Pending * list Action) * list Pending) :=
  match schedule with
  | [] => Some (st, [], pool)
  | i :: schedule' =>
    match pool !! i with
    | None => exec_log upload_password st pool schedule'
    | Some h =>
      match resume upload_password st h with
      | None => None
      | Some (st1, acts1, h1) =>
        match exec_log upload_password st1 (<[i := h1]> pool) schedule' with
        | None => None
        | Some (st2, log, pool2) => Some (st2, (h, acts1) :: log, pool2)
        end
      end
    end
  end.

(** An entry of such a log: a document handler of conversation [c] came
    back from an [uploadFile] that returned [nil]. *)
Definition transfer_ok (c : Z) (entry : Pending * list Action) : bool :=
  match fst entry with
  | InTransfer c' fileName _ _ _ =>
      bool_decide (c' = c) && existsb (is_upload_ok fileName) (snd entry)
  | _ => false
  end.

Definition transfers_ok (c : Z) (log : list (Pending * list Action)) : nat :=
  List.length (List.filter (transfer_ok c) log).

(** The pointer [p] designates a session object of conversation [c]. *)
Definition designates (st : State) (c : Z) (p : ptr) : Prop :=
  ∃ s, heap st !! p = Some s ∧ chatID s = c.

(** The [session] of a handler in flight designates a session object of
    its conversation. *)
Definition holds_session (st : State) (h : Pending) : Prop :=
  match h with
  | InTransfer c _ _ _ p | InIncrement c _ p _ => designates st c p
  | _ => True
  end.

(** The counter a handler in flight has loaded is at least 0 and below the
    number of documents of its conversation stored so far. *)
Definition loaded_ok (log : list (Pending * list Action)) (h : Pending)
    : Prop :=
  match h with
  | InIncrement c _ _ count => 0 ≤ count < Z.of_nat (transfers_ok c log)
  | _ => True
  end.

(** No counter is below 0 or above the number of documents of its
    conversation stored so far. *)
Definition counted (st : State) (log : list (Pending * list Action)) : Prop :=
  ∀ (p : ptr) s,
    heap st !! p = Some s →
    0 ≤ uploadCount s ≤ Z.of_nat (transfers_ok (chatID s) log).

End PerChatOverlap.

(** ** Observations on traces and call logs *)

(** A text that is the password. *)
Definition is_password (upload_password : string) (e : Event) : bool :=
  match e with
  | OnText _ text => String.eqb text (uploadPassword upload_password)
  | _ => false
  end.

(** The calls that fetch a document from Telegram or hand it to Drive. *)
Definition is_file_call (a : Action) : bool :=
  match a with
  | BotFile _ _ | DriveUpload _ _ => true
  | _ => false
  end.

(** [/start], [/list] and [/quantity]. *)
Definition is_query (e : Event) : bool :=
  match e with
  | CmdStart _ | CmdList _ _ | CmdQuantity _ _ => true
  | _ => false
  end.

(** What conversation [c] can observe of the state: the fields of its
    session, if it has one. *)
Definition chat_view (st : PerChat.State) (c : Z) : option PerChat.UploadSession :=
  match PerChat.uploadSessions st !! c with
  | Some p => PerChat.heap st !! p
  | None => None
  end.

(** No session object is authenticated. *)
Definition none_authenticated (st : PerChat.State) : Prop :=
  ∀ (p : ptr) s,
    PerChat.heap st !! p = Some s → PerChat.authenticated s = false.

(** The per-session handlers as one conversation sees them: its session is
    a value (or absent), there is no heap and no other conversation.
    [chat_machine] maps the session before an update of the conversation to
    the session after and the calls made. *)
Definition chat_machine (upload_password : string) (c : Z)
    (v : option PerChat.UploadSession) (e : Event)
    : option PerChat.UploadSession * list Action :=
  match e with
  | CmdStart _ => (v, [Send c MsgWelcome])
  | CmdUpload _ now =>
      (Some (PerChat.newSession c now), [Send c MsgPromptPassword])
  | CmdDone _ now =>
      match v with
      | Some s =>
          if PerChat.isActive s then
            (None, [Send c (MsgCompleted (PerChat.uploadCount s)
                                         (PerChat.startTime s) now)])
          else (v, [Send c MsgNoSessionUseUpload])
      | None => (v, [Send c MsgNoSessionUseUpload])
      end
  | CmdCancel _ =>
      match v with
      | Some s =>
          if PerChat.isActive s then
            (None, [Send c (MsgCancelled (PerChat.uploadCount s))])
          else (v, [Send c MsgNoSession])
      | None => (v, [Send c MsgNoSession])
      end
  | OnDocument _ fileName fileErr uploadErr =>
      match v with
      | Some s =>
          if negb (PerChat.isActive s) then (v, [Send c MsgNoSessionUseUpload])
          else if negb (PerChat.authenticated s) then
            (v, [Send c MsgAuthenticateFirst])
          else if negb (HasSuffix fileName jar) then (v, [Send c MsgOnlyJar])
          else
            let progress :=
              Send c (MsgProgress fileName (PerChat.uploadCount s)) in
            match fileErr, uploadErr with
            | Some err, _ =>
                (v, [progress; BotFile fileName fileErr;
                     Send c (MsgFailedReader err)])
            | None, Some err =>
                (v, [progress; BotFile fileName fileErr;
                     DriveUpload fileName uploadErr;
                     Send c (MsgFailedUpload err)])
            | None, None =>
                (Some (PerChat.incr_uploadCount s),
                 [progress; BotFile fileName fileErr;
                  DriveUpload fileName uploadErr;
                  Send c (MsgUploaded fileName
                            (int_incr (PerChat.uploadCount s)))])
            end
      | None => (v, [Send c MsgNoSessionUseUpload])
      end
  | OnText _ text =>
      match v with
      | Some s =>
          if negb (PerChat.isActive s) || PerChat.authenticated s then (v, [])
          else if String.eqb text (uploadPassword upload_password) then
            (Some (PerChat.set_authenticated s), [Send c MsgPasswordAccepted])
          else (None, [Send c MsgIncorrectPassword])
      | None => (v, [])
      end
  | CmdList _ res => (v, listReply c res)
  | CmdQuantity _ res => (v, quantityReply c res)
  end.

(** The messages sent to conversation [c], in order. *)
Definition replies_to (c : Z) (acts : list Action) : list Message :=
  omap (λ a, match a with
             | Send c' m => if bool_decide (c' = c) then Some m else None
             | _ => None
             end) acts.

(** [/upload] of conversation [c]. *)
Definition is_upload_of (c : Z) (e : Event) : bool :=
  match e with
  | CmdUpload c' _ => bool_decide (c' = c)
  | _ => false
  end.

(** An entry of a log of [run_log]: the update is a document of
    conversation [c], and among the calls its handler made there is an
    [uploadFile] of that document that returned [nil].  This reads the
    calls made, not the answers the update carries. *)
Definition stored_call (c : Z) (entry : Event * list Action) : bool :=
  match fst entry with
  | OnDocument c' fileName _ _ =>
      bool_decide (c' = c) && existsb (is_upload_ok fileName) (snd entry)
  | _ => false
  end.

Definition stored_calls (c : Z) (log : list (Event * list Action)) : nat :=
  List.length (List.filter (stored_call c) log).

(** ** Start-up: the Drive gateway

    [initGoogleDrive] and the functions it calls, and the start of [main].
    The outside world (environment, files, the OAuth and Drive libraries,
    the terminal) answers through the fields of a [World]; the types of the
    libraries' values are left open.  A function returns the calls it made
    that act on the outside, in order, and its result or, after
    [log.Fatal], the message the process died with.  A Go pair [(v, err)]
    whose [err] is checked before [v] is used is a [result]. *)

Module Gateway.

Inductive result (A : Type) : Type :=
| Ok (a : A)
| Err (msg : string).
Arguments Ok {A} a.
Arguments Err {A} msg.

(** A [drive.File] of a listing, as far as the program reads it. *)
Record DriveFile : Type := mkDriveFile {
  Id : string;
  Name : string
}.

(** A line feed. *)
Definition nl : string := String (Ascii.ascii_of_nat 10) EmptyString.

(** [v], or [d] when [v] is empty: [if v == "" { v = d }]. *)
Definition orDefault (v d : string) : string :=
  if String.eqb v EmptyString then d else v.

(** The [query] of [createOrGetFolder]:
    [fmt.Sprintf("name='%s' and mimeType='...folder' and trashed=false", folderName)]. *)
Definition folderQuery (folderName : string) : string :=
  ("name='" ++ folderName
   ++ "' and mimeType='application/vnd.google-apps.folder' and trashed=false")%string.

Section World.
Context {Config JWTConfig Token Client Service : Type}.

Record World : Type := mkWorld {
  Getenv : string → string;                     (* os.Getenv, after godotenv.Load *)
  ReadFile : string → result string;            (* os.ReadFile *)
  Stat : string → error;                        (* os.Stat *)
  ConfigFromJSON : string → result Config;      (* google.ConfigFromJSON(b, drive.DriveFileScope) *)
  JWTConfigFromJSON : string → result JWTConfig;(* google.JWTConfigFromJSON(b, drive.DriveReadonlyScope) *)
  JWTClient : JWTConfig → Client;               (* serviceConfig.Client(ctx) *)
  ConfigClient : Config → option Token → Client;(* config.Client(ctx, tok) *)
  NewService : Client → result Service;         (* drive.NewService(ctx, option.WithHTTPClient(client)) *)
  Open : string → error;                        (* os.Open *)
  DecodeToken : string → Token * error;         (* json.NewDecoder(f).Decode(tok) *)
  AuthCodeURL : Config → string;                (* config.AuthCodeURL("state-token", oauth2.AccessTypeOffline) *)
  Scan : result string;                         (* fmt.Scan(&authCode) *)
  Exchange : Config → string → result Token;    (* config.Exchange(ctx, authCode) *)
  OpenFile : string → error;                    (* os.OpenFile(path, O_RDWR|O_CREATE|O_TRUNC, 0600) *)
  FilesList : Service → string → bool → result (list DriveFile);
                                                (* srv.Files.List().Q(query)...Do() *)
  FilesCreate : Service → string → bool → result DriveFile;
                                                (* srv.Files.Create(folder)...Do() *)
  NewBot : error                                (* tele.NewBot(pref) *)
}.

(** The calls that act on the outside. *)
Inductive Sys : Type :=
| Printf (text : string)                        (* fmt.Printf, fmt.Println *)
| ScanCode                                      (* fmt.Scan *)
| ExchangeCode (code : string)                  (* config.Exchange *)
| TruncateFile (path : string)                  (* os.OpenFile with O_CREATE|O_TRUNC *)
| EncodeToken (path : string) (tok : Token)     (* json.NewEncoder(f).Encode(token) *)
| ListFolders (srv : Service) (query : string) (allDrives : bool)
| CreateFolder (srv : Service) (name : string) (allDrives : bool).

(** A computation: the calls made, and the value returned or the message
    of [log.Fatal]. *)
Inductive Outcome (A : Type) : Type :=
| Returns (a : A)
| Fatal (msg : string).
Arguments Returns {A} a.
Arguments Fatal {A} msg.

Definition Run (A : Type) : Type := list Sys * Outcome A.

Definition ret {A : Type} (a : A) : Run A := ([], Returns a).

Definition bind {A B : Type} (m : Run A) (f : A → Run B) : Run B :=
  match m with
  | (calls, Returns a) => let '(calls', o) := f a in (calls ++ calls', o)
  | (calls, Fatal msg) => (calls, Fatal msg)
  end.

Definition sys (call : Sys) : Run unit := ([call], Returns tt).

Definition fatal {A : Type} (msg : string) : Run A := ([], Fatal msg).

Notation "x <- m ;; k" := (bind m (λ x, k))
  (at level 100, m at next level, right associativity).
Notation "m ;; k" := (bind m (λ _, k))
  (at level 100, right associativity).

Variable w : World.

(** [tokenFromFile]: the token pointer ([None] is [nil]) and the error. *)
Definition tokenFromFile (file : string) : option Token * error :=
  match Open w file with
  | Some err => (None, Some err)
  | None => let '(tok, err) := DecodeToken w file in (Some tok, err)
  end.

Definition getTokenFromWeb (config : Config) : Run Token :=
  sys (Printf ("Go to the following link in your browser then type the "
               ++ "authorization code: " ++ nl ++ AuthCodeURL w config ++ nl)) ;;
  sys ScanCode ;;
  match Scan w with
  | Err err => fatal ("Unable to read authorization code: " ++ err)
  | Ok authCode =>
    sys (ExchangeCode authCode) ;;
    match Exchange w config authCode with
    | Err err => fatal ("Unable to retrieve token from web: " ++ err)
    | Ok tok => ret tok
    end
  end.

Definition saveToken (path : string) (token : Token) : Run unit :=
  sys (Printf ("Saving credential file to: " ++ path ++ nl)) ;;
  match OpenFile w path with
  | Some err => fatal ("Unable to cache oauth token: " ++ err)
  | None =>
    sys (TruncateFile path) ;;
    sys (EncodeToken path token)
  end.

Definition getClient (config : Config) : Run Client :=
  let tokFile := "token.json"%string in
  match tokenFromFile tokFile with
  | (_, Some _) =>
    tok <- getTokenFromWeb config ;;
    saveToken tokFile tok ;;
    ret (ConfigClient w config (Some tok))
  | (tok, None) => ret (ConfigClient w config tok)
  end.

(** [createOrGetFolder]; [allDrives] tells whether the requests carry
    [SupportsAllDrives(true)] (and, for the listing,
    [IncludeItemsFromAllDrives(true).Corpora("allDrives")]), as they do in
    [main.go] and do not in the other variant. *)
Definition createOrGetFolder (allDrives : bool) (srv : Service)
    (folderName : string) : Run (result string) :=
  let query := folderQuery folderName in
  sys (ListFolders srv query allDrives) ;;
  match FilesList w srv query allDrives with
  | Err err => ret (Err err)
  | Ok files =>
    match files with
    | first :: _ =>
      sys (Printf ("Found existing folder: " ++ Name first
                   ++ " (ID: " ++ Id first ++ ")" ++ nl)) ;;
      ret (Ok (Id first))
    | [] =>
      sys (Printf ("Creating new folder: " ++ folderName ++ nl)) ;;
      sys (CreateFolder srv folderName allDrives) ;;
      match FilesCreate w srv folderName allDrives with
      | Err err => ret (Err err)
      | Ok file =>
        sys (Printf ("Created new folder: " ++ Name file
                     ++ " (ID: " ++ Id file ++ ")" ++ nl)) ;;
        ret (Ok (Id file))
      end
    end
  end.

(** [DriveManager] of [main.go]. *)
Record DriveManager : Type := mkDriveManager {
  readService : Service;
  uploadService : Service;
  folderID : string
}.

(** The last block of [initGoogleDrive], the same in both variants: the
    folder to upload to is [folder_id] when set, else the folder named
    [folder_name] (default [MinecraftMods]), looked up or created. *)
Definition resolveFolder (allDrives : bool) (srv : Service)
    : Run (result string) :=
  let folderID := Getenv w "folder_id" in
  if negb (String.eqb folderID EmptyString) then
    sys (Printf ("Using specified folder ID: " ++ folderID ++ nl)) ;;
    ret (Ok folderID)
  else
    let folderName := orDefault (Getenv w "folder_name") "MinecraftMods" in
    r <- createOrGetFolder allDrives srv folderName ;;
    match r with
    | Err err => ret (Err ("unable to create/get folder: " ++ err))
    | Ok id => ret (Ok id)
    end.

(** The middle block of [initGoogleDrive] in [main.go]: the service to
    read with is the service account's when its credentials are there and
    usable, else the upload service. *)
Definition chooseReadService (uploadSrv : Service) : Run Service :=
  let serviceCredentialsPath :=
    orDefault (Getenv w "SERVICE_CREDENTIALS_PATH") "service_credentials.json" in
  match Stat w serviceCredentialsPath with
  | None =>
    match ReadFile w serviceCredentialsPath with
    | Err err =>
      sys (Printf ("Warning: Failed to read Service Account credentials, using OAuth2 for reading: "
                   ++ err ++ nl)) ;;
      ret uploadSrv
    | Ok serviceCredBytes =>
      match JWTConfigFromJSON w serviceCredBytes with
      | Err err =>
        sys (Printf ("Warning: Failed to parse Service Account credentials, using OAuth2 for reading: "
                     ++ err ++ nl)) ;;
        ret uploadSrv
      | Ok serviceConfig =>
        match NewService w (JWTClient w serviceConfig) with
        | Err err =>
          sys (Printf ("Warning: Failed to create Service Account service, using OAuth2 for reading: "
                       ++ err ++ nl)) ;;
          ret uploadSrv
        | Ok readSrv =>
          sys (Printf ("Using Service Account for reading files" ++ nl)) ;;
          ret readSrv
        end
      end
    end
  | Some _ =>
    sys (Printf ("Service Account not configured, using OAuth2 for all operations"
                 ++ nl)) ;;
    ret uploadSrv
  end.

(** [initGoogleDrive] of [main.go]. *)
Definition initGoogleDrive : Run (result DriveManager) :=
  let oauthCredentialsPath :=
    orDefault (Getenv w "OAUTH_CREDENTIALS_PATH") "credentials.json" in
  match ReadFile w oauthCredentialsPath with
  | Err err => ret (Err ("unable to read oauth credentials: " ++ err))
  | Ok b =>
    match ConfigFromJSON w b with
    | Err err => ret (Err ("unable to parse oauth credentials: " ++ err))
    | Ok config =>
      client <- getClient config ;;
      match NewService w client with
      | Err err => ret (Err ("unable to create upload service: " ++ err))
      | Ok uploadSrv =>
        readSrv <- chooseReadService uploadSrv ;;
        r <- resolveFolder true uploadSrv ;;
        match r with
        | Err err => ret (Err err)
        | Ok id => ret (Ok (mkDriveManager readSrv uploadSrv id))
        end
      end
    end
  end.

(** [DriveManager] and [initGoogleDrive] of the other variant: one
    service. *)
Record SingleDriveManager : Type := mkSingleDriveManager {
  service : Service;
  singleFolderID : string
}.

Definition initGoogleDriveSingle : Run (result SingleDriveManager) :=
  let credentialsPath :=
    orDefault (Getenv w "GOOGLE_CREDENTIALS_PATH") "credentials.json" in
  match ReadFile w credentialsPath with
  | Err err => ret (Err ("unable to read client secret file: " ++ err))
  | Ok b =>
    match ConfigFromJSON w b with
    | Err err =>
      ret (Err ("unable to parse client secret file to config: " ++ err))
    | Ok config =>
      client <- getClient config ;;
      match NewService w client with
      | Err err => ret (Err ("unable to retrieve Drive client: " ++ err))
      | Ok srv =>
        r <- resolveFolder false srv ;;
        match r with
        | Err err => ret (Err err)
        | Ok id => ret (Ok (mkSingleDriveManager srv id))
        end
      end
    end
  end.

(** The start of [main] in [main.go], up to [b.Start()]: the Drive
    manager the handlers will use. *)
Definition mainStart : Run DriveManager :=
  r <- initGoogleDrive ;;
  match r with
  | Err err => fatal ("Failed to initialize Google Drive:" ++ err)
  | Ok driveManager =>
    match NewBot w with
    | Some err => fatal err
    | None =>
      sys (Printf ("Bot has started!" ++ nl)) ;;
      ret driveManager
    end
  end.

End World.

Arguments World : clear implicits.
Arguments Sys : clear implicits.
Arguments Returns {A} a.
Arguments Fatal {A} msg.

(** The calls to Drive. *)
Definition is_drive_call {Token Service : Type} (call : Sys Token Service)
    : bool :=
  match call with
  | ListFolders _ _ _ | CreateFolder _ _ _ => true
  | _ => false
  end.

Definition is_create_folder {Token Service : Type} (call : Sys Token Service)
    : bool :=
  match call with
  | CreateFolder _ _ _ => true
  | _ => false
  end.

(** The calls of the interactive OAuth flow and the write of the token
    file. *)
Definition is_token_flow {Token Service : Type} (call : Sys Token Service)
    : bool :=
  match call with
  | ScanCode | ExchangeCode _ | TruncateFile _ | EncodeToken _ _ => true
  | _ => false
  end.

(** A world to try start-up in: every file reads, no service account file,
    Drive has no folder yet and creates any; [folderIdEnv] is the value of
    [folder_id], [tokenFile] tells whether [token.json] opens. *)
Definition example_world (folderIdEnv : string) (tokenFile : bool)
    : World string string string string string :=
  mkWorld
    (λ key, if String.eqb key "folder_id" then folderIdEnv else EmptyString)
    (λ path, Ok ("contents of " ++ path)%string)
    (λ _, Some "no such file"%string)
    (λ b, Ok b)
    (λ b, Ok b)
    (λ cfg, cfg)
    (λ cfg tok, match tok with
                | Some t => ("client of " ++ t)%string
                | None => "client"%string
                end)
    (λ client, Ok ("service of " ++ client)%string)
    (λ _, if tokenFile then None else Some "no such file"%string)
    (λ _, ("saved token"%string, None))
    (λ _, "https://accounts.example/auth"%string)
    (Ok "code"%string)
    (λ _ code, Ok ("token for " ++ code)%string)
    (λ _, None)
    (λ _ _ _, Ok [])
    (λ _ name _, Ok (mkDriveFile "id1" name))
    None.

(** The same world with a service-account file in place: [os.Stat] finds
    every file. *)
Definition service_account_world
    : World string string string string string :=
  mkWorld
    (Getenv (example_world "folder-1" true))
    (ReadFile (example_world "folder-1" true))
    (λ _, None)
    (ConfigFromJSON (example_world "folder-1" true))
    (JWTConfigFromJSON (example_world "folder-1" true))
    (JWTClient (example_world "folder-1" true))
    (ConfigClient (example_world "folder-1" true))
    (NewService (example_world "folder-1" true))
    (Open (example_world "folder-1" true))
    (DecodeToken (example_world "folder-1" true))
    (AuthCodeURL (example_world "folder-1" true))
    (Scan (example_world "folder-1" true))
    (Exchange (example_world "folder-1" true))
    (OpenFile (example_world "folder-1" true))
    (FilesList (example_world "folder-1" true))
    (FilesCreate (example_world "folder-1" true))
    (NewBot (example_world "folder-1" true)).

End Gateway.

(** ** Arithmetic of [int] and facts on heaps *)

Lemma wrap_int_small z : int_min ≤ z ≤ int_max → wrap_int z = z.
Proof.
  unfold wrap_int, int_min, int_max. intros Hz.
  rewrite Z.mod_small by lia. lia.
Qed.

Lemma wrap_int_incr z : wrap_int (wrap_int z + 1) = wrap_int (z + 1).
Proof.
  unfold wrap_int.
  replace ((z + 2 ^ 63) mod 2 ^ 64 - 2 ^ 63 + 1 + 2 ^ 63)
    with ((z + 2 ^ 63) mod 2 ^ 64 + 1) by lia.
  rewrite Zplus_mod_idemp_l. f_equal. f_equal. lia.
Qed.

Lemma int_incr_below z : int_min ≤ z < int_max → int_incr z = z + 1.
Proof.
  unfold int_incr, int_min, int_max. intros Hz.
  apply wrap_int_small. unfold int_min, int_max. lia.
Qed.


Lemma int_incr_top : int_incr int_max = int_min.
Proof. reflexivity. Qed.

(** The password the text handler compares with: the value of
    [upload_password] itself when it is set. *)
Lemma uploadPassword_set (pw : string) :
  pw ≠ EmptyString → uploadPassword pw = pw.
Proof.
  intros Hset. unfold uploadPassword.
  by destruct (String.eqb_spec pw EmptyString).
Qed.

Section HeapFacts.
Context {A B : Type} (f : A → B).

(** Writing a field other than [f] through a pointer leaves [f] as it was
    in every object. *)
Lemma lookup_insert_field (h : list A) (p q : nat) (s s' : A) :
  h !! p = Some s → f s' = f s → f <$> <[p := s']> h !! q = f <$> h !! q.
Proof.
  intros Hp Hf. destruct (decide (q = p)) as [->|Hne].
  - rewrite list_lookup_insert_eq by (by eapply lookup_lt_Some).
    rewrite Hp. simpl. by rewrite Hf.
  - by rewrite list_lookup_insert_ne.
Qed.

(** Allocation leaves the existing objects alone. *)
Lemma lookup_alloc_field (h : list A) (q : nat) (s : A) (b : B) :
  f <$> h !! q = Some b → f <$> (h ++ [s]) !! q = Some b.
Proof.
  intros Hq. destruct (h !! q) as [x|] eqn:Hx; [|done].
  by rewrite (lookup_app_l_Some _ _ _ _ Hx).
Qed.
End HeapFacts.

Lemma lookup_alloc_new {A : Type} (h : list A) (s : A) :
  (h ++ [s]) !! List.length h = Some s ∧ h !! List.length h = None.
Proof.
  split.
  - rewrite lookup_app_r by done. by rewrite Nat.sub_diag.
  - by apply lookup_ge_None.
Qed.

Lemma is_upload_of_other c e : event_chat e ≠ c → is_upload_of c e = false.
Proof.
  intros Hne. destruct e; simpl in *; try done.
  by rewrite bool_decide_eq_false_2.
Qed.

(** An entry of another conversation is no storage call of [c]. *)
Lemma stored_call_other c e acts :
  event_chat e ≠ c → stored_call c (e, acts) = false.
Proof.
  intros Hne. destruct e; simpl in Hne; try done.
  unfold stored_call. simpl. by rewrite bool_decide_eq_false_2.
Qed.

Lemma stored_calls_cons c entry log :
  stored_calls c (entry :: log)
  = ((if stored_call c entry then 1 else 0) + stored_calls c log)%nat.
Proof. unfold stored_calls. simpl. by destruct (stored_call c entry). Qed.



(** ** Facts on the per-session variant *)

Module PerChatFacts.
Import PerChat.

Lemma wf_lookup st c p :
  wf st → uploadSessions st !! c = Some p →
  ∃ s, heap st !! p = Some s ∧ chatID s = c.
Proof.
  intros Hwf Hc. specialize (Hwf c p Hc). simpl in Hwf.
  destruct (heap st !! p) as [s|]; simplify_eq/=. eauto.
Qed.

(** Two conversations never share a session object. *)
Lemma wf_no_alias st c c' p :
  wf st → uploadSessions st !! c = Some p → uploadSessions st !! c' = Some p →
  c = c'.
Proof.
  intros Hwf Hc Hc'.
  destruct (wf_lookup _ _ _ Hwf Hc) as (s & Hs & <-).
  destruct (wf_lookup _ _ _ Hwf Hc') as (s' & Hs' & <-).
  congruence.
Qed.

Lemma wf_init : wf init.
Proof. apply map_Forall_empty. Qed.

(** A write through [p] that keeps [chatID], with keys possibly deleted. *)
Lemma wf_write st p s s' m :
  wf st → heap st !! p = Some s → chatID s' = chatID s →
  m ⊆ uploadSessions st →
  wf (mkState (<[p := s']> (heap st)) m).
Proof.
  intros Hwf Hp Hid Hsub c q Hq. simpl.
  rewrite (lookup_insert_field chatID _ _ _ _ _ Hp Hid).
  apply (Hwf c q). by eapply lookup_weaken.
Qed.

Lemma wf_alloc st c now :
  wf st →
  wf (mkState (heap st ++ [newSession c now])
              (<[c := List.length (heap st)]> (uploadSessions st))).
Proof.
  intros Hwf. apply map_Forall_insert_2; simpl.
  - by rewrite (proj1 (lookup_alloc_new _ _)).
  - intros c' q Hq. apply lookup_alloc_field. by apply (Hwf c' q).
Qed.

(** Read the session of the handler's conversation in a well-formed
    state: either there is none, or the pointer designates an object. *)
Ltac read_session Hwf c :=
  let p := fresh "p" in let Hc := fresh "Hc" in
  let s := fresh "s" in let Hs := fresh "Hs" in let Hid := fresh "Hid" in
  match goal with
  | |- context [uploadSessions ?st !! c] =>
    destruct (uploadSessions st !! c) as [p|] eqn:Hc;
    [ destruct (wf_lookup _ _ _ Hwf Hc) as (s & Hs & Hid); rewrite Hs | ]
  end.

(** From a well-formed state every handler returns, in a well-formed
    state. *)
Lemma wf_step pw st e :
  wf st → ∃ st' acts, step pw st e = Some (st', acts) ∧ wf st'.
Proof.
  intros Hwf.
  destruct e as [c|c now|c now|c|c name fe ue|c text|c res|c res]; simpl;
    try (by eauto).
  - unfold handleUpload. eauto using wf_alloc.
  - unfold handleDone. read_session Hwf c; [|by eauto].
    destruct (isActive s); simpl; [|by eauto].
    do 2 eexists; split; [done|].
    eapply wf_write; [done..|apply delete_subseteq].
  - unfold handleCancel. read_session Hwf c; [|by eauto].
    destruct (isActive s); simpl; [|by eauto].
    do 2 eexists; split; [done|].
    eapply wf_write; [done..|apply delete_subseteq].
  - unfold handleDocument. read_session Hwf c; [|by eauto].
    destruct (isActive s), (authenticated s), (HasSuffix name jar),
      fe, ue; simpl; try (by eauto).
    do 2 eexists; split; [done|]. by eapply wf_write.
  - unfold handleText. read_session Hwf c; [|by eauto].
    destruct (isActive s), (authenticated s); simpl; try (by eauto).
    destruct (String.eqb text (uploadPassword pw));
      (do 2 eexists; split; [done|]);
      eapply wf_write; [done..|apply delete_subseteq].
Qed.

Lemma wf_run pw st tr :
  wf st → ∃ st' acts, run pw st tr = Some (st', acts) ∧ wf st'.
Proof.
  revert st. induction tr as [|e tr IH]; intros st Hwf; simpl; [by eauto|].
  destruct (wf_step pw st e Hwf) as (st1 & acts1 & -> & Hwf1).
  destruct (IH st1 Hwf1) as (st2 & acts2 & -> & Hwf2). eauto.
Qed.

Lemma object_step_refl st e p s : object_step st e p s s.
Proof. unfold object_step. naive_solver. Qed.

(** A write through [q] that is an [object_step] for the object written is
    one for every object. *)
Lemma object_step_write st e p s q t t' m :
  heap st !! p = Some s → heap st !! q = Some t →
  object_step st e q t t' →
  ∃ s', heap (mkState (<[q := t']> (heap st)) m) !! p = Some s'
        ∧ object_step st e p s s'.
Proof.
  intros Hp Hq Ht. simpl. destruct (decide (p = q)) as [->|Hne].
  - rewrite list_lookup_insert_eq by (by eapply lookup_lt_Some).
    exists t'. by simplify_eq.
  - rewrite list_lookup_insert_ne by done.
    exists s. auto using object_step_refl.
Qed.

(** What one handler does to one session object. *)
Lemma step_object pw st e st' acts p s :
  step pw st e = Some (st', acts) → heap st !! p = Some s →
  ∃ s', heap st' !! p = Some s' ∧ object_step st e p s s'.
Proof.
  intros Hstep Hp.
  destruct e as [c|c now|c now|c|c name fe ue|c text|c res|c res];
    simpl in Hstep.
  - injection Hstep as <- <-. eauto using object_step_refl.
  - injection Hstep as <- <-. simpl.
    rewrite (lookup_app_l_Some _ _ _ _ Hp). eauto using object_step_refl.
  - unfold handleDone in Hstep.
    repeat case_match; try discriminate; injection Hstep as <- <-;
      eauto using object_step_refl.
    eapply object_step_write; [done..|]. unfold object_step; naive_solver.
  - unfold handleCancel in Hstep.
    repeat case_match; try discriminate; injection Hstep as <- <-;
      eauto using object_step_refl.
    eapply object_step_write; [done..|]. unfold object_step; naive_solver.
  - unfold handleDocument in Hstep.
    repeat case_match; try discriminate; injection Hstep as <- <-;
      eauto using object_step_refl.
    eapply object_step_write; [done..|]. unfold object_step; simpl.
    repeat match goal with H : negb _ = false |- _ =>
      apply negb_false_iff in H end.
    naive_solver.
  - unfold handleText in Hstep.
    repeat case_match; try discriminate; injection Hstep as <- <-;
      eauto using object_step_refl.
    + eapply object_step_write; [done..|]. unfold object_step; naive_solver.
    + eapply object_step_write; [done..|]. unfold object_step; naive_solver.
  - injection Hstep as <- <-. eauto using object_step_refl.
  - injection Hstep as <- <-. eauto using object_step_refl.
Qed.

(** [all_active] under the three ways a handler changes the state:
    allocation by [/upload], the end of a session, a write that keeps
    [isActive]. *)
Lemma all_active_init : all_active init.
Proof. apply map_Forall_empty. Qed.

Lemma all_active_alloc st c now :
  all_active st →
  all_active (mkState (heap st ++ [newSession c now])
                      (<[c := List.length (heap st)]> (uploadSessions st))).
Proof.
  intros Hact. apply map_Forall_insert_2; simpl.
  - by rewrite (proj1 (lookup_alloc_new _ _)).
  - intros c' q Hq. apply lookup_alloc_field. by apply (Hact c' q).
Qed.

Lemma all_active_end st c p s :
  wf st → all_active st →
  uploadSessions st !! c = Some p → heap st !! p = Some s →
  all_active (mkState (<[p := set_inactive s]> (heap st))
                      (delete c (uploadSessions st))).
Proof.
  intros Hwf Hact Hc Hp c' q Hq. simpl in *.
  apply lookup_delete_Some in Hq as [Hne Hq].
  assert (q ≠ p) by (intros ->; by destruct Hne; eapply wf_no_alias).
  rewrite list_lookup_insert_ne by done. by apply (Hact c' q).
Qed.

Lemma all_active_write st p s s' :
  all_active st → heap st !! p = Some s → isActive s' = isActive s →
  all_active (mkState (<[p := s']> (heap st)) (uploadSessions st)).
Proof.
  intros Hact Hp Hs c q Hq. simpl in *.
  rewrite (lookup_insert_field isActive _ _ _ _ _ Hp Hs). by apply (Hact c q).
Qed.

(** Handlers keep the map free of inactive sessions. *)
Lemma all_active_step pw st e st' acts :
  wf st → all_active st → step pw st e = Some (st', acts) → all_active st'.
Proof.
  intros Hwf Hact Hstep.
  destruct e as [c|c now|c now|c|c name fe ue|c text|c res|c res];
    simpl in Hstep.
  - by injection Hstep as <- <-.
  - injection Hstep as <- <-. by apply all_active_alloc.
  - unfold handleDone in Hstep.
    repeat case_match; try discriminate; injection Hstep as <- <-;
      eauto using all_active_end.
  - unfold handleCancel in Hstep.
    repeat case_match; try discriminate; injection Hstep as <- <-;
      eauto using all_active_end.
  - unfold handleDocument in Hstep.
    repeat case_match; try discriminate; injection Hstep as <- <-;
      eauto using all_active_write.
  - unfold handleText in Hstep.
    repeat case_match; try discriminate; injection Hstep as <- <-;
      eauto using all_active_end, all_active_write.
  - by injection Hstep as <- <-.
  - by injection Hstep as <- <-.
Qed.

(** Every state the bot reaches is well formed and holds active sessions
    only. *)
Lemma reachable_inv pw tr st :
  wf st → all_active st →
  ∃ st' acts, run pw st tr = Some (st', acts) ∧ wf st' ∧ all_active st'.
Proof.
  revert st. induction tr as [|e tr IH]; intros st Hwf Hact; simpl;
    [by eauto|].
  destruct (wf_step pw st e Hwf) as (st1 & acts1 & Hstep & Hwf1).
  rewrite Hstep.
  destruct (IH st1 Hwf1 (all_active_step _ _ _ _ _ Hwf Hact Hstep))
    as (st2 & acts2 & -> & ?). eauto.
Qed.

(** An update of another conversation leaves the session of [c] alone. *)
Lemma step_other pw st e c p s :
  wf st → session_of st c p s → event_chat e ≠ c →
  ∃ st' acts, step pw st e = Some (st', acts) ∧ wf st' ∧ session_of st' c p s.
Proof.
  intros Hwf [Hc Hp] Hne.
  destruct (wf_step pw st e Hwf) as (st' & acts & Hstep & Hwf').
  exists st', acts. split; [done|]. split; [done|].
  assert (Hq : ∀ q, uploadSessions st !! event_chat e = Some q → q ≠ p).
  { intros q Hq ->. apply Hne. exact (wf_no_alias _ _ _ _ Hwf Hq Hc). }
  unfold session_of.
  destruct e as [c'|c' now|c' now|c'|c' name fe ue|c' text|c' res|c' res];
    simpl in Hstep, Hne, Hq.
  - by injection Hstep as <- <-.
  - injection Hstep as <- <-. simpl.
    rewrite lookup_insert_ne by done. by rewrite (lookup_app_l_Some _ _ _ _ Hp).
  - unfold handleDone in Hstep.
    repeat case_match; try discriminate; injection Hstep as <- <-; try done.
    simpl. rewrite lookup_delete_ne by done.
    rewrite list_lookup_insert_ne by (by apply Hq). done.
  - unfold handleCancel in Hstep.
    repeat case_match; try discriminate; injection Hstep as <- <-; try done.
    simpl. rewrite lookup_delete_ne by done.
    rewrite list_lookup_insert_ne by (by apply Hq). done.
  - unfold handleDocument in Hstep.
    repeat case_match; try discriminate; injection Hstep as <- <-; try done.
    simpl. rewrite list_lookup_insert_ne by (by apply Hq). done.
  - unfold handleText in Hstep.
    repeat case_match; try discriminate; injection Hstep as <- <-; try done.
    + simpl. rewrite list_lookup_insert_ne by (by apply Hq). done.
    + simpl. rewrite lookup_delete_ne by done.
      rewrite list_lookup_insert_ne by (by apply Hq). done.
  - by injection Hstep as <- <-.
  - by injection Hstep as <- <-.
Qed.

(** What the document handler does for an active, authenticated session. *)
Lemma handleDocument_uploading st c p s name fe ue :
  session_of st c p s → isActive s = true → authenticated s = true →
  handleDocument c name fe ue st =
    if negb (HasSuffix name jar) then Some (st, [Send c MsgOnlyJar])
    else
      let progress := Send c (MsgProgress name (uploadCount s)) in
      match fe, ue with
      | Some err, _ =>
          Some (st, [progress; BotFile name fe; Send c (MsgFailedReader err)])
      | None, Some err =>
          Some (st, [progress; BotFile name fe; DriveUpload name ue;
                     Send c (MsgFailedUpload err)])
      | None, None =>
          Some (mkState (<[p := incr_uploadCount s]> (heap st))
                        (uploadSessions st),
                [progress; BotFile name fe; DriveUpload name ue;
                 Send c (MsgUploaded name (int_incr (uploadCount s)))])
      end.
Proof.
  intros [Hc Hp] Hact Hauth. unfold handleDocument.
  rewrite Hc, Hp, Hact, Hauth. simpl. by destruct fe, ue.
Qed.

(** Once its key is deleted or overwritten, a session object is in the map
    no more. *)
Lemma not_stored_delete st c p h :
  wf st → uploadSessions st !! c = Some p →
  ¬ stored (mkState h (delete c (uploadSessions st))) p.
Proof.
  intros Hwf Hc [c' Hc']. simpl in Hc'.
  apply lookup_delete_Some in Hc' as [Hne Hc'].
  apply Hne. exact (wf_no_alias _ _ _ _ Hwf Hc Hc').
Qed.

Lemma not_stored_replace st c p s h :
  wf st → session_of st c p s →
  ¬ stored (mkState h (<[c := List.length (heap st)]> (uploadSessions st))) p.
Proof.
  intros Hwf [Hc Hp] [c' Hc']. simpl in Hc'.
  apply lookup_insert_Some in Hc' as [[_ Hlen]|[Hne Hc']].
  - apply lookup_lt_Some in Hp. lia.
  - apply Hne. exact (wf_no_alias _ _ _ _ Hwf Hc Hc').
Qed.

(** The three things that can happen to an active session of the map in one
    update: it is ended, it is replaced by [/upload], or it stays. *)
Lemma leave_step pw st e st' acts c p s :
  wf st → session_of st c p s → isActive s = true →
  step pw st e = Some (st', acts) →
  (ends_session pw c s e ∧ ¬ stored st' p
   ∧ isActive <$> heap st' !! p = Some false)
  ∨ ((∃ now, e = CmdUpload c now) ∧ ¬ stored st' p
     ∧ isActive <$> heap st' !! p = Some true)
  ∨ (¬ ends_session pw c s e ∧ (∀ now, e ≠ CmdUpload c now)
     ∧ uploadSessions st' !! c = Some p
     ∧ isActive <$> heap st' !! p = Some true).
Proof.
  intros Hwf Hs Hact Hstep.
  destruct (decide (event_chat e = c)) as [Heq|Hne].
  - pose proof Hs as [Hc Hp]. pose proof (lookup_lt_Some _ _ _ Hp) as Hlt.
    destruct e as [c'|c' now|c' now|c'|c' name fe ue|c' text|c' res|c' res];
      simpl in Heq, Hstep; subst c'.
    + injection Hstep as <- <-. right; right. rewrite Hc, Hp. simpl.
      rewrite Hact. split; [by intros []|done].
    + injection Hstep as <- <-. right; left.
      split; [by eauto|]. split; [by eapply not_stored_replace|].
      simpl. rewrite (lookup_app_l_Some _ _ _ _ Hp). simpl. by f_equal.
    + unfold handleDone in Hstep. rewrite Hc, Hp, Hact in Hstep.
      injection Hstep as <- <-. left.
      split; [done|]. split; [by eapply not_stored_delete|].
      simpl. by rewrite list_lookup_insert_eq.
    + unfold handleCancel in Hstep. rewrite Hc, Hp, Hact in Hstep.
      injection Hstep as <- <-. left.
      split; [done|]. split; [by eapply not_stored_delete|].
      simpl. by rewrite list_lookup_insert_eq.
    + right; right. unfold handleDocument in Hstep.
      rewrite Hc, Hp, Hact in Hstep. simpl in Hstep.
      split; [by intros []|]. split; [done|].
      repeat case_match; injection Hstep as <- <-; simpl;
        try (rewrite list_lookup_insert_eq by done);
        try rewrite Hp; simpl; by rewrite ?Hact.
    + unfold handleText in Hstep. rewrite Hc, Hp, Hact in Hstep.
      simpl in Hstep. destruct (authenticated s) eqn:Hauth.
      * injection Hstep as <- <-. right; right. rewrite Hc, Hp. simpl.
        rewrite Hact. split; [intros (_ & ? & _); congruence|done].
      * destruct (String.eqb_spec text (uploadPassword pw)) as [->|Hpw];
          injection Hstep as <- <-.
        -- right; right. simpl. rewrite list_lookup_insert_eq by done.
           simpl. rewrite Hact. split; [by intros (_ & _ & ?)|done].
        -- left. split; [done|]. split; [by eapply not_stored_delete|].
           simpl. by rewrite list_lookup_insert_eq.
    + injection Hstep as <- <-. right; right. rewrite Hc, Hp. simpl.
      rewrite Hact. split; [by intros []|done].
    + injection Hstep as <- <-. right; right. rewrite Hc, Hp. simpl.
      rewrite Hact. split; [by intros []|done].
  - destruct (step_other pw st e c p s Hwf Hs Hne)
      as (st1 & acts1 & Hstep1 & _ & [Hc1 Hp1]).
    rewrite Hstep in Hstep1. injection Hstep1 as <- <-.
    right; right. rewrite Hc1, Hp1. simpl. rewrite Hact.
    split; [|split; [|done]].
    + destruct e; simpl in *; tauto.
    + intros now ->. by apply Hne.
Qed.

(** Over a whole trace an authenticated session object stays authenticated. *)
Lemma authenticated_run pw st tr st' acts p s :
  run pw st tr = Some (st', acts) → heap st !! p = Some s →
  authenticated s = true →
  ∃ s', heap st' !! p = Some s' ∧ authenticated s' = true.
Proof.
  revert st acts s. induction tr as [|e tr IH]; intros st acts s Hrun Hp Hauth;
    simpl in Hrun.
  - injection Hrun as <- <-. eauto.
  - destruct (step pw st e) as [[st1 acts1]|] eqn:Hstep; [|done].
    destruct (run pw st1 tr) as [[st2 acts2]|] eqn:Hrun1; [|done].
    injection Hrun as <- <-.
    destruct (step_object _ _ _ _ _ _ _ Hstep Hp) as (s1 & Hp1 & Hobj).
    eapply IH; [done..|]. unfold object_step in Hobj. tauto.
Qed.

Lemma wf_uploading_state n : wf (uploading_state n).
Proof. by apply map_Forall_singleton. Qed.

Lemma wf_awaiting_state : wf awaiting_state.
Proof. by apply map_Forall_singleton. Qed.

(** The heap after one update: the same objects, or one more, the session
    [/upload] allocated. *)
Lemma step_heap pw st e st' acts :
  step pw st e = Some (st', acts) →
  List.length (heap st') = List.length (heap st)
  ∨ ∃ c now, heap st' = heap st ++ [newSession c now].
Proof.
  intros Hstep.
  destruct e as [c|c now|c now|c|c name fe ue|c text|c res|c res];
    simpl in Hstep.
  - injection Hstep as <- <-. by left.
  - injection Hstep as <- <-. right. by exists c, now.
  - unfold handleDone in Hstep.
    repeat case_match; try discriminate; injection Hstep as <- <-;
      left; simpl; by rewrite ?length_insert.
  - unfold handleCancel in Hstep.
    repeat case_match; try discriminate; injection Hstep as <- <-;
      left; simpl; by rewrite ?length_insert.
  - unfold handleDocument in Hstep.
    repeat case_match; try discriminate; injection Hstep as <- <-;
      left; simpl; by rewrite ?length_insert.
  - unfold handleText in Hstep.
    repeat case_match; try discriminate; injection Hstep as <- <-;
      left; simpl; by rewrite ?length_insert.
  - injection Hstep as <- <-. by left.
  - injection Hstep as <- <-. by left.
Qed.

(** One update raises the bound on the counters by one at most. *)
Lemma counts_within_step pw st e st' acts k :
  counts_within k st → 0 ≤ k < int_max → step pw st e = Some (st', acts) →
  counts_within (k + 1) st'.
Proof.
  intros Hk Hmax Hstep p s' Hp'.
  assert (Hold : ∀ s, heap st !! p = Some s → 0 ≤ uploadCount s' ≤ k + 1).
  { intros s Hp. specialize (Hk p s Hp).
    destruct (step_object _ _ _ _ _ _ _ Hstep Hp)
      as (s'' & Hp'' & Hobj).
    rewrite Hp' in Hp''. injection Hp'' as <-.
    assert (uploadCount s' = uploadCount s
            ∨ uploadCount s' = int_incr (uploadCount s)) as [Hsame|Hincr]
      by (unfold object_step in Hobj; tauto).
    - rewrite Hsame. lia.
    - rewrite Hincr, int_incr_below by (unfold int_min; lia). lia. }
  destruct (step_heap _ _ _ _ _ Hstep) as [Hlen|(c & now & Hheap)].
  - destruct (lookup_lt_is_Some_2 (heap st) p) as [s Hp]; [|by eauto].
    rewrite <- Hlen. by eapply lookup_lt_Some.
  - destruct (decide (p < List.length (heap st))%nat) as [Hlt|Hge].
    + destruct (lookup_lt_is_Some_2 (heap st) p Hlt) as [s Hp]. by eauto.
    + rewrite Hheap in Hp'. rewrite lookup_app_r in Hp' by lia.
      apply list_lookup_singleton_Some in Hp' as [_ <-]. simpl. lia.
Qed.

(** A trace of [n] updates raises the bound by [n] at most: from the
    initial state no counter wraps around in a run of fewer than [int_max]
    updates. *)
Lemma counts_within_run pw st tr st' acts k :
  counts_within k st → 0 ≤ k → k + Z.of_nat (List.length tr) ≤ int_max →
  run pw st tr = Some (st', acts) →
  counts_within (k + Z.of_nat (List.length tr)) st'.
Proof.
  revert st acts k.
  induction tr as [|e tr IH]; intros st acts k Hk Hpos Hmax Hrun;
    simpl in Hrun.
  - injection Hrun as <- <-. simpl. by rewrite Z.add_0_r.
  - destruct (step pw st e) as [[st1 acts1]|] eqn:Hstep; [|done].
    destruct (run pw st1 tr) as [[st2 acts2]|] eqn:Hrun1; [|done].
    injection Hrun as <- <-. simpl length in *.
    replace (k + Z.of_nat (S (List.length tr)))
      with (k + 1 + Z.of_nat (List.length tr)) in * by lia.
    eapply IH; [|lia|done..].
    eapply counts_within_step; [done| |done]. lia.
Qed.

Lemma counts_within_init : counts_within 0 init.
Proof. intros p s Hp. simpl in Hp. by rewrite lookup_nil in Hp. Qed.

End PerChatFacts.

(** ** Facts on the process-wide variant *)

Module SharedAuthFacts.
Import SharedAuth.

(** [/upload] in one equation: the reply alone depends on the flag. *)
Lemma handleUpload_eq c now st :
  handleUpload c now st =
    Some (mkState (heap st ++ [newSession c now])
                  (<[c := List.length (heap st)]> (uploadSessions st))
                  (isFirstTimeSetup st),
          [Send c (if isFirstTimeSetup st then MsgPromptPassword
                   else MsgSessionStarted)]).
Proof. unfold handleUpload. simpl. by destruct (isFirstTimeSetup st). Qed.

Lemma shared_wf_lookup st c p :
  wf st → uploadSessions st !! c = Some p →
  ∃ s, heap st !! p = Some s ∧ chatID s = c.
Proof.
  intros Hwf Hc. specialize (Hwf c p Hc). simpl in Hwf.
  destruct (heap st !! p) as [s|]; simplify_eq/=. eauto.
Qed.

(** Two conversations never share a session object. *)
Lemma shared_wf_no_alias st c c' p :
  wf st → uploadSessions st !! c = Some p → uploadSessions st !! c' = Some p →
  c = c'.
Proof.
  intros Hwf Hc Hc'.
  destruct (shared_wf_lookup _ _ _ Hwf Hc) as (s & Hs & <-).
  destruct (shared_wf_lookup _ _ _ Hwf Hc') as (s' & Hs' & <-).
  congruence.
Qed.

Lemma shared_wf_init b : wf (init b).
Proof. apply map_Forall_empty. Qed.

(** A write through [p] that keeps [chatID], with keys possibly deleted. *)
Lemma shared_wf_write st p s s' m b :
  wf st → heap st !! p = Some s → chatID s' = chatID s →
  m ⊆ uploadSessions st →
  wf (mkState (<[p := s']> (heap st)) m b).
Proof.
  intros Hwf Hp Hid Hsub c q Hq. simpl.
  rewrite (lookup_insert_field chatID _ _ _ _ _ Hp Hid).
  apply (Hwf c q). by eapply lookup_weaken.
Qed.

Lemma shared_wf_alloc st c now b :
  wf st →
  wf (mkState (heap st ++ [newSession c now])
              (<[c := List.length (heap st)]> (uploadSessions st)) b).
Proof.
  intros Hwf. apply map_Forall_insert_2; simpl.
  - by rewrite (proj1 (lookup_alloc_new _ _)).
  - intros c' q Hq. apply lookup_alloc_field. by apply (Hwf c' q).
Qed.

(** Read the session of the handler's conversation in a well-formed
    state: either there is none, or the pointer designates an object. *)
Ltac read_session Hwf c :=
  let p := fresh "p" in let Hc := fresh "Hc" in
  let s := fresh "s" in let Hs := fresh "Hs" in let Hid := fresh "Hid" in
  match goal with
  | |- context [uploadSessions ?st !! c] =>
    destruct (uploadSessions st !! c) as [p|] eqn:Hc;
    [ destruct (shared_wf_lookup _ _ _ Hwf Hc) as (s & Hs & Hid); rewrite Hs | ]
  end.

(** From a well-formed state every handler returns, in a well-formed
    state. *)
Lemma shared_wf_step pw st e :
  wf st → ∃ st' acts, step pw st e = Some (st', acts) ∧ wf st'.
Proof.
  intros Hwf.
  destruct e as [c|c now|c now|c|c name fe ue|c text|c res|c res]; simpl;
    try (by eauto).
  - rewrite handleUpload_eq. eauto using shared_wf_alloc.
  - unfold handleDone. read_session Hwf c; [|by eauto].
    destruct (isActive s); simpl; [|by eauto].
    do 2 eexists; split; [done|].
    eapply shared_wf_write; [done..|apply delete_subseteq].
  - unfold handleCancel. read_session Hwf c; [|by eauto].
    destruct (isActive s); simpl; [|by eauto].
    do 2 eexists; split; [done|].
    eapply shared_wf_write; [done..|apply delete_subseteq].
  - unfold handleDocument. read_session Hwf c; [|by eauto].
    destruct (isActive s), (isFirstTimeSetup st), (HasSuffix name jar),
      fe, ue; simpl; try (by eauto).
    do 2 eexists; split; [done|]. by eapply shared_wf_write.
  - unfold handleText. read_session Hwf c; [|by eauto].
    destruct (isActive s), (isFirstTimeSetup st); simpl; try (by eauto).
    destruct (String.eqb text (uploadPassword pw));
      (do 2 eexists; split; [done|]); [exact Hwf|].
    eapply shared_wf_write; [done..|apply delete_subseteq].
Qed.

Lemma shared_wf_run pw st tr :
  wf st → ∃ st' acts, run pw st tr = Some (st', acts) ∧ wf st'.
Proof.
  revert st. induction tr as [|e tr IH]; intros st Hwf; simpl; [by eauto|].
  destruct (shared_wf_step pw st e Hwf) as (st1 & acts1 & -> & Hwf1).
  destruct (IH st1 Hwf1) as (st2 & acts2 & -> & Hwf2). eauto.
Qed.

Lemma shared_object_step_refl st e p s : object_step st e p s s.
Proof. unfold object_step. naive_solver. Qed.

(** A write through [q] that is an [object_step] for the object written is
    one for every object. *)
Lemma shared_object_step_write st e p s q t t' m b :
  heap st !! p = Some s → heap st !! q = Some t →
  object_step st e q t t' →
  ∃ s', heap (mkState (<[q := t']> (heap st)) m b) !! p = Some s'
        ∧ object_step st e p s s'.
Proof.
  intros Hp Hq Ht. simpl. destruct (decide (p = q)) as [->|Hne].
  - rewrite list_lookup_insert_eq by (by eapply lookup_lt_Some).
    exists t'. by simplify_eq.
  - rewrite list_lookup_insert_ne by done.
    exists s. auto using shared_object_step_refl.
Qed.

(** What one handler does to one session object. *)
Lemma shared_step_object pw st e st' acts p s :
  step pw st e = Some (st', acts) → heap st !! p = Some s →
  ∃ s', heap st' !! p = Some s' ∧ object_step st e p s s'.
Proof.
  intros Hstep Hp.
  destruct e as [c|c now|c now|c|c name fe ue|c text|c res|c res];
    simpl in Hstep.
  - injection Hstep as <- <-. eauto using shared_object_step_refl.
  - rewrite handleUpload_eq in Hstep. injection Hstep as <- <-. simpl.
    rewrite (lookup_app_l_Some _ _ _ _ Hp). eauto using shared_object_step_refl.
  - unfold handleDone in Hstep.
    repeat case_match; try discriminate; injection Hstep as <- <-;
      eauto using shared_object_step_refl.
    eapply shared_object_step_write; [done..|]. unfold object_step; naive_solver.
  - unfold handleCancel in Hstep.
    repeat case_match; try discriminate; injection Hstep as <- <-;
      eauto using shared_object_step_refl.
    eapply shared_object_step_write; [done..|]. unfold object_step; naive_solver.
  - unfold handleDocument in Hstep.
    repeat case_match; try discriminate; injection Hstep as <- <-;
      eauto using shared_object_step_refl.
    eapply shared_object_step_write; [done..|]. unfold object_step; simpl.
    repeat match goal with H : negb _ = false |- _ =>
      apply negb_false_iff in H end.
    naive_solver.
  - unfold handleText in Hstep.
    repeat case_match; try discriminate; injection Hstep as <- <-;
      eauto using shared_object_step_refl.
    eapply shared_object_step_write; [done..|]. unfold object_step; naive_solver.
  - injection Hstep as <- <-. eauto using shared_object_step_refl.
  - injection Hstep as <- <-. eauto using shared_object_step_refl.
Qed.

(** [all_active] under the three ways a handler changes the state:
    allocation by [/upload], the end of a session, a write that keeps
    [isActive]. *)
Lemma shared_all_active_init b : all_active (init b).
Proof. apply map_Forall_empty. Qed.

Lemma shared_all_active_alloc st c now b :
  all_active st →
  all_active (mkState (heap st ++ [newSession c now])
                      (<[c := List.length (heap st)]> (uploadSessions st)) b).
Proof.
  intros Hact. apply map_Forall_insert_2; simpl.
  - by rewrite (proj1 (lookup_alloc_new _ _)).
  - intros c' q Hq. apply lookup_alloc_field. by apply (Hact c' q).
Qed.

Lemma shared_all_active_end st c p s b :
  wf st → all_active st →
  uploadSessions st !! c = Some p → heap st !! p = Some s →
  all_active (mkState (<[p := set_inactive s]> (heap st))
                      (delete c (uploadSessions st)) b).
Proof.
  intros Hwf Hact Hc Hp c' q Hq. simpl in *.
  apply lookup_delete_Some in Hq as [Hne Hq].
  assert (q ≠ p) by (intros ->; by destruct Hne; eapply shared_wf_no_alias).
  rewrite list_lookup_insert_ne by done. by apply (Hact c' q).
Qed.

Lemma shared_all_active_write st p s s' b :
  all_active st → heap st !! p = Some s → isActive s' = isActive s →
  all_active (mkState (<[p := s']> (heap st)) (uploadSessions st) b).
Proof.
  intros Hact Hp Hs c q Hq. simpl in *.
  rewrite (lookup_insert_field isActive _ _ _ _ _ Hp Hs). by apply (Hact c q).
Qed.

(** Handlers keep the map free of inactive sessions. *)
Lemma shared_all_active_step pw st e st' acts :
  wf st → all_active st → step pw st e = Some (st', acts) → all_active st'.
Proof.
  intros Hwf Hact Hstep.
  destruct e as [c|c now|c now|c|c name fe ue|c text|c res|c res];
    simpl in Hstep.
  - by injection Hstep as <- <-.
  - rewrite handleUpload_eq in Hstep. injection Hstep as <- <-.
    by apply shared_all_active_alloc.
  - unfold handleDone in Hstep.
    repeat case_match; try discriminate; injection Hstep as <- <-;
      eauto using shared_all_active_end.
  - unfold handleCancel in Hstep.
    repeat case_match; try discriminate; injection Hstep as <- <-;
      eauto using shared_all_active_end.
  - unfold handleDocument in Hstep.
    repeat case_match; try discriminate; injection Hstep as <- <-;
      eauto using shared_all_active_write.
  - unfold handleText in Hstep.
    repeat case_match; try discriminate; injection Hstep as <- <-;
      eauto using shared_all_active_end, shared_all_active_write.
  - by injection Hstep as <- <-.
  - by injection Hstep as <- <-.
Qed.

(** Every state the bot reaches is well formed and holds active sessions
    only. *)
Lemma shared_reachable_inv pw tr st :
  wf st → all_active st →
  ∃ st' acts, run pw st tr = Some (st', acts) ∧ wf st' ∧ all_active st'.
Proof.
  revert st. induction tr as [|e tr IH]; intros st Hwf Hact; simpl;
    [by eauto|].
  destruct (shared_wf_step pw st e Hwf) as (st1 & acts1 & Hstep & Hwf1).
  rewrite Hstep.
  destruct (IH st1 Hwf1 (shared_all_active_step _ _ _ _ _ Hwf Hact Hstep))
    as (st2 & acts2 & -> & ?). eauto.
Qed.

(** An update of another conversation leaves the session of [c] alone. *)
Lemma shared_step_other pw st e c p s :
  wf st → session_of st c p s → event_chat e ≠ c →
  ∃ st' acts, step pw st e = Some (st', acts) ∧ wf st' ∧ session_of st' c p s.
Proof.
  intros Hwf [Hc Hp] Hne.
  destruct (shared_wf_step pw st e Hwf) as (st' & acts & Hstep & Hwf').
  exists st', acts. split; [done|]. split; [done|].
  assert (Hq : ∀ q, uploadSessions st !! event_chat e = Some q → q ≠ p).
  { intros q Hq ->. apply Hne. exact (shared_wf_no_alias _ _ _ _ Hwf Hq Hc). }
  unfold session_of.
  destruct e as [c'|c' now|c' now|c'|c' name fe ue|c' text|c' res|c' res];
    simpl in Hstep, Hne, Hq.
  - by injection Hstep as <- <-.
  - rewrite handleUpload_eq in Hstep. injection Hstep as <- <-. simpl.
    rewrite lookup_insert_ne by done. by rewrite (lookup_app_l_Some _ _ _ _ Hp).
  - unfold handleDone in Hstep.
    repeat case_match; try discriminate; injection Hstep as <- <-; try done.
    simpl. rewrite lookup_delete_ne by done.
    rewrite list_lookup_insert_ne by (by apply Hq). done.
  - unfold handleCancel in Hstep.
    repeat case_match; try discriminate; injection Hstep as <- <-; try done.
    simpl. rewrite lookup_delete_ne by done.
    rewrite list_lookup_insert_ne by (by apply Hq). done.
  - unfold handleDocument in Hstep.
    repeat case_match; try discriminate; injection Hstep as <- <-; try done.
    simpl. rewrite list_lookup_insert_ne by (by apply Hq). done.
  - unfold handleText in Hstep.
    repeat case_match; try discriminate; injection Hstep as <- <-; try done.
    simpl. rewrite lookup_delete_ne by done.
    rewrite list_lookup_insert_ne by (by apply Hq). done.
  - by injection Hstep as <- <-.
  - by injection Hstep as <- <-.
Qed.

(** No handler sets [isFirstTimeSetup] back to [true]. *)
Lemma flag_step pw st e st' acts :
  isFirstTimeSetup st = false → step pw st e = Some (st', acts) →
  isFirstTimeSetup st' = false.
Proof.
  intros Hflag Hstep.
  destruct e as [c|c now|c now|c|c name fe ue|c text|c res|c res];
    simpl in Hstep.
  - by injection Hstep as <- <-.
  - rewrite handleUpload_eq in Hstep. by injection Hstep as <- <-.
  - unfold handleDone in Hstep.
    repeat case_match; try discriminate; by injection Hstep as <- <-.
  - unfold handleCancel in Hstep.
    repeat case_match; try discriminate; by injection Hstep as <- <-.
  - unfold handleDocument in Hstep.
    repeat case_match; try discriminate; by injection Hstep as <- <-.
  - unfold handleText in Hstep.
    repeat case_match; try discriminate; by injection Hstep as <- <-.
  - by injection Hstep as <- <-.
  - by injection Hstep as <- <-.
Qed.

Lemma flag_run pw st tr st' acts :
  isFirstTimeSetup st = false → run pw st tr = Some (st', acts) →
  isFirstTimeSetup st' = false.
Proof.
  revert st acts. induction tr as [|e tr IH]; intros st acts Hflag Hrun;
    simpl in Hrun.
  - by injection Hrun as <- <-.
  - destruct (step pw st e) as [[st1 acts1]|] eqn:Hstep; [|done].
    destruct (run pw st1 tr) as [[st2 acts2]|] eqn:Hrun1; [|done].
    injection Hrun as <- <-. eauto using flag_step.
Qed.

(** What the document handler does for an active session once the password
    has been entered. *)
Lemma shared_handleDocument_uploading st c p s name fe ue :
  session_of st c p s → isActive s = true → isFirstTimeSetup st = false →
  handleDocument c name fe ue st =
    if negb (HasSuffix name jar) then Some (st, [Send c MsgOnlyJar])
    else
      let progress := Send c (MsgProgress name (uploadCount s)) in
      match fe, ue with
      | Some err, _ =>
          Some (st, [progress; BotFile name fe; Send c (MsgFailedReader err)])
      | None, Some err =>
          Some (st, [progress; BotFile name fe; DriveUpload name ue;
                     Send c (MsgFailedUpload err)])
      | None, None =>
          Some (mkState (<[p := incr_uploadCount s]> (heap st))
                        (uploadSessions st) (isFirstTimeSetup st),
                [progress; BotFile name fe; DriveUpload name ue;
                 Send c (MsgUploaded name (int_incr (uploadCount s)))])
      end.
Proof.
  intros [Hc Hp] Hact Hauth. unfold handleDocument.
  rewrite Hc, Hp, Hact. simpl.
  destruct (isFirstTimeSetup st); [done|]. by destruct fe, ue.
Qed.

(** Once its key is deleted or overwritten, a session object is in the map
    no more. *)
Lemma shared_not_stored_delete st c p h b :
  wf st → uploadSessions st !! c = Some p →
  ¬ stored (mkState h (delete c (uploadSessions st)) b) p.
Proof.
  intros Hwf Hc [c' Hc']. simpl in Hc'.
  apply lookup_delete_Some in Hc' as [Hne Hc'].
  apply Hne. exact (shared_wf_no_alias _ _ _ _ Hwf Hc Hc').
Qed.

Lemma shared_not_stored_replace st c p s h b :
  wf st → session_of st c p s →
  ¬ stored (mkState h (<[c := List.length (heap st)]> (uploadSessions st)) b) p.
Proof.
  intros Hwf [Hc Hp] [c' Hc']. simpl in Hc'.
  apply lookup_insert_Some in Hc' as [[_ Hlen]|[Hne Hc']].
  - apply lookup_lt_Some in Hp. lia.
  - apply Hne. exact (shared_wf_no_alias _ _ _ _ Hwf Hc Hc').
Qed.

(** The three things that can happen to an active session of the map in one
    update: it is ended, it is replaced by [/upload], or it stays. *)
Lemma shared_leave_step pw st e st' acts c p s :
  wf st → session_of st c p s → isActive s = true →
  step pw st e = Some (st', acts) →
  (ends_session pw st c e ∧ ¬ stored st' p
   ∧ isActive <$> heap st' !! p = Some false)
  ∨ ((∃ now, e = CmdUpload c now) ∧ ¬ stored st' p
     ∧ isActive <$> heap st' !! p = Some true)
  ∨ (¬ ends_session pw st c e ∧ (∀ now, e ≠ CmdUpload c now)
     ∧ uploadSessions st' !! c = Some p
     ∧ isActive <$> heap st' !! p = Some true).
Proof.
  intros Hwf Hs Hact Hstep.
  destruct (decide (event_chat e = c)) as [Heq|Hne].
  - pose proof Hs as [Hc Hp]. pose proof (lookup_lt_Some _ _ _ Hp) as Hlt.
    destruct e as [c'|c' now|c' now|c'|c' name fe ue|c' text|c' res|c' res];
      simpl in Heq, Hstep; subst c'.
    + injection Hstep as <- <-. right; right. rewrite Hc, Hp. simpl.
      rewrite Hact. split; [by intros []|done].
    + rewrite handleUpload_eq in Hstep. injection Hstep as <- <-.
      right; left.
      split; [by eauto|]. split; [by eapply shared_not_stored_replace|].
      simpl. rewrite (lookup_app_l_Some _ _ _ _ Hp). simpl. by f_equal.
    + unfold handleDone in Hstep. rewrite Hc, Hp, Hact in Hstep.
      injection Hstep as <- <-. left.
      split; [done|]. split; [by eapply shared_not_stored_delete|].
      simpl. by rewrite list_lookup_insert_eq.
    + unfold handleCancel in Hstep. rewrite Hc, Hp, Hact in Hstep.
      injection Hstep as <- <-. left.
      split; [done|]. split; [by eapply shared_not_stored_delete|].
      simpl. by rewrite list_lookup_insert_eq.
    + right; right. unfold handleDocument in Hstep.
      rewrite Hc, Hp, Hact in Hstep. simpl in Hstep.
      split; [by intros []|]. split; [done|].
      repeat case_match; injection Hstep as <- <-; simpl;
        try (rewrite list_lookup_insert_eq by done);
        try rewrite Hp; simpl; by rewrite ?Hact.
    + unfold handleText in Hstep. rewrite Hc, Hp, Hact in Hstep.
      simpl in Hstep. destruct (isFirstTimeSetup st) eqn:Hflag;
        simpl in Hstep.
      * destruct (String.eqb_spec text (uploadPassword pw)) as [->|Hpw];
          injection Hstep as <- <-.
        -- right; right. simpl. rewrite Hc, Hp. simpl.
           rewrite Hact. split; [by intros (_ & _ & ?)|done].
        -- left. split; [done|]. split; [by eapply shared_not_stored_delete|].
           simpl. by rewrite list_lookup_insert_eq.
      * injection Hstep as <- <-. right; right. rewrite Hc, Hp. simpl.
        rewrite Hact. split; [intros (_ & ? & _); congruence|done].
    + injection Hstep as <- <-. right; right. rewrite Hc, Hp. simpl.
      rewrite Hact. split; [by intros []|done].
    + injection Hstep as <- <-. right; right. rewrite Hc, Hp. simpl.
      rewrite Hact. split; [by intros []|done].
  - destruct (shared_step_other pw st e c p s Hwf Hs Hne)
      as (st1 & acts1 & Hstep1 & _ & [Hc1 Hp1]).
    rewrite Hstep in Hstep1. injection Hstep1 as <- <-.
    right; right. rewrite Hc1, Hp1. simpl. rewrite Hact.
    split; [|split; [|done]].
    + destruct e; simpl in *; tauto.
    + intros now ->. by apply Hne.
Qed.

Lemma shared_wf_uploading_state n : wf (uploading_state n).
Proof. by apply map_Forall_singleton. Qed.

Lemma shared_wf_awaiting_state : wf awaiting_state.
Proof. by apply map_Forall_singleton. Qed.

(** The heap after one update: the same objects, or one more, the session
    [/upload] allocated. *)
Lemma shared_step_heap pw st e st' acts :
  step pw st e = Some (st', acts) →
  List.length (heap st') = List.length (heap st)
  ∨ ∃ c now, heap st' = heap st ++ [newSession c now].
Proof.
  intros Hstep.
  destruct e as [c|c now|c now|c|c name fe ue|c text|c res|c res];
    simpl in Hstep.
  - injection Hstep as <- <-. by left.
  - rewrite handleUpload_eq in Hstep. injection Hstep as <- <-. right. by exists c, now.
  - unfold handleDone in Hstep.
    repeat case_match; try discriminate; injection Hstep as <- <-;
      left; simpl; by rewrite ?length_insert.
  - unfold handleCancel in Hstep.
    repeat case_match; try discriminate; injection Hstep as <- <-;
      left; simpl; by rewrite ?length_insert.
  - unfold handleDocument in Hstep.
    repeat case_match; try discriminate; injection Hstep as <- <-;
      left; simpl; by rewrite ?length_insert.
  - unfold handleText in Hstep.
    repeat case_match; try discriminate; injection Hstep as <- <-;
      left; simpl; by rewrite ?length_insert.
  - injection Hstep as <- <-. by left.
  - injection Hstep as <- <-. by left.
Qed.

(** One update raises the bound on the counters by one at most. *)
Lemma shared_counts_within_step pw st e st' acts k :
  counts_within k st → 0 ≤ k < int_max → step pw st e = Some (st', acts) →
  counts_within (k + 1) st'.
Proof.
  intros Hk Hmax Hstep p s' Hp'.
  assert (Hold : ∀ s, heap st !! p = Some s → 0 ≤ uploadCount s' ≤ k + 1).
  { intros s Hp. specialize (Hk p s Hp).
    destruct (shared_step_object _ _ _ _ _ _ _ Hstep Hp)
      as (s'' & Hp'' & Hobj).
    rewrite Hp' in Hp''. injection Hp'' as <-.
    assert (uploadCount s' = uploadCount s
            ∨ uploadCount s' = int_incr (uploadCount s)) as [Hsame|Hincr]
      by (unfold object_step in Hobj; tauto).
    - rewrite Hsame. lia.
    - rewrite Hincr, int_incr_below by (unfold int_min; lia). lia. }
  destruct (shared_step_heap _ _ _ _ _ Hstep) as [Hlen|(c & now & Hheap)].
  - destruct (lookup_lt_is_Some_2 (heap st) p) as [s Hp]; [|by eauto].
    rewrite <- Hlen. by eapply lookup_lt_Some.
  - destruct (decide (p < List.length (heap st))%nat) as [Hlt|Hge].
    + destruct (lookup_lt_is_Some_2 (heap st) p Hlt) as [s Hp]. by eauto.
    + rewrite Hheap in Hp'. rewrite lookup_app_r in Hp' by lia.
      apply list_lookup_singleton_Some in Hp' as [_ <-]. simpl. lia.
Qed.

(** A trace of [n] updates raises the bound by [n] at most: from the
    initial state no counter wraps around in a run of fewer than [int_max]
    updates. *)
Lemma shared_counts_within_run pw st tr st' acts k :
  counts_within k st → 0 ≤ k → k + Z.of_nat (List.length tr) ≤ int_max →
  run pw st tr = Some (st', acts) →
  counts_within (k + Z.of_nat (List.length tr)) st'.
Proof.
  revert st acts k.
  induction tr as [|e tr IH]; intros st acts k Hk Hpos Hmax Hrun;
    simpl in Hrun.
  - injection Hrun as <- <-. simpl. by rewrite Z.add_0_r.
  - destruct (step pw st e) as [[st1 acts1]|] eqn:Hstep; [|done].
    destruct (run pw st1 tr) as [[st2 acts2]|] eqn:Hrun1; [|done].
    injection Hrun as <- <-. simpl length in *.
    replace (k + Z.of_nat (S (List.length tr)))
      with (k + 1 + Z.of_nat (List.length tr)) in * by lia.
    eapply IH; [|lia|done..].
    eapply shared_counts_within_step; [done| |done]. lia.
Qed.

Lemma shared_counts_within_init b : counts_within 0 (init b).
Proof. intros p s Hp. simpl in Hp. by rewrite lookup_nil in Hp. Qed.

End SharedAuthFacts.

(** ** The model at work *)

(** The scenario of the specification, handled serially: start, password,
    [mod1.jar], [readme.txt] (refused), [mod2.jar], finish; the summary
    reports two files. *)
Example scenario_per_session :
  PerChat.run "secret" PerChat.init
    ([CmdUpload 7 100; OnText 7 "secret"] ++ scenario_documents
     ++ [CmdDone 7 160])
  = Some (PerChat.mkState [PerChat.mkSession 7 false 2 100 true] ∅,
          [ Send 7 MsgPromptPassword; Send 7 MsgPasswordAccepted;
            Send 7 (MsgProgress "mod1.jar" 0); BotFile "mod1.jar" None;
            DriveUpload "mod1.jar" None; Send 7 (MsgUploaded "mod1.jar" 1);
            Send 7 MsgOnlyJar;
            Send 7 (MsgProgress "mod2.jar" 1); BotFile "mod2.jar" None;
            DriveUpload "mod2.jar" None; Send 7 (MsgUploaded "mod2.jar" 2);
            Send 7 (MsgCompleted 2 100 160) ]).
Proof. vm_compute. reflexivity. Qed.

Example scenario_process_wide :
  SharedAuth.run "secret" (SharedAuth.init false)
    ([CmdUpload 7 100; OnText 7 "secret"] ++ scenario_documents
     ++ [CmdDone 7 160])
  = Some (SharedAuth.mkState [SharedAuth.mkSession 7 false 2 100] ∅ false,
          [ Send 7 MsgPromptPassword;
            CreateFlagFile; Send 7 MsgPasswordAccepted;
            Send 7 (MsgProgress "mod1.jar" 0); BotFile "mod1.jar" None;
            DriveUpload "mod1.jar" None; Send 7 (MsgUploaded "mod1.jar" 1);
            Send 7 MsgOnlyJar;
            Send 7 (MsgProgress "mod2.jar" 1); BotFile "mod2.jar" None;
            DriveUpload "mod2.jar" None; Send 7 (MsgUploaded "mod2.jar" 2);
            Send 7 (MsgCompleted 2 100 160) ]).
Proof. vm_compute. reflexivity. Qed.

(** With the flag file found at start no password is asked for. *)
Example scenario_flag_file_found :
  SharedAuth.run "secret" (SharedAuth.init true)
    [CmdUpload 7 100; OnDocument 7 "mod1.jar" None None]
  = Some (SharedAuth.mkState [SharedAuth.mkSession 7 true 1 100]
                             {[ 7 := 0%nat ]} false,
          [ Send 7 MsgSessionStarted;
            Send 7 (MsgProgress "mod1.jar" 0); BotFile "mod1.jar" None;
            DriveUpload "mod1.jar" None; Send 7 (MsgUploaded "mod1.jar" 1) ]).
Proof. vm_compute. reflexivity. Qed.

(** The password is compared byte for byte: another case, or a space more,
    is a wrong password; with [upload_password] unset the password is
    ["password"]. *)
Example password_is_matched_exactly :
  PerChat.step "secret" PerChat.awaiting_state (OnText 7 "Secret")
  = Some (PerChat.mkState [PerChat.mkSession 7 false 0 100 false]
                          (delete 7 {[ 7 := 0%nat ]}),
          [Send 7 MsgIncorrectPassword])
  ∧ PerChat.step "secret" PerChat.awaiting_state (OnText 7 "secret ")
    = Some (PerChat.mkState [PerChat.mkSession 7 false 0 100 false]
                            (delete 7 {[ 7 := 0%nat ]}),
            [Send 7 MsgIncorrectPassword])
  ∧ PerChat.step EmptyString PerChat.awaiting_state (OnText 7 "password")
    = Some (PerChat.mkState [PerChat.mkSession 7 true 0 100 true]
                            {[ 7 := 0%nat ]},
            [Send 7 MsgPasswordAccepted]).
Proof. repeat split; vm_compute; reflexivity. Qed.

(** X17. In a run of fewer than [int_max] updates from the initial state
    every counter is at least 0 and stays below [int_max]: [uploadCount++]
    does not wrap. *)
Lemma counters_do_not_wrap (pw : string) (tr : list Event) :
  Z.of_nat (List.length tr) < int_max →
  (∀ st acts (p : ptr) s,
     PerChat.run pw PerChat.init tr = Some (st, acts) →
     PerChat.heap st !! p = Some s →
     0 ≤ PerChat.uploadCount s < int_max)
  ∧ (∀ flagFileFound st acts (p : ptr) s,
       SharedAuth.run pw (SharedAuth.init flagFileFound) tr = Some (st, acts) →
       SharedAuth.heap st !! p = Some s →
       0 ≤ SharedAuth.uploadCount s < int_max).
Proof.
  intros Hlen. split.
  - intros st acts p s Hrun Hp.
    pose proof (PerChatFacts.counts_within_run pw _ tr st acts 0
                  PerChatFacts.counts_within_init) as Hk.
    specialize (Hk ltac:(lia) ltac:(lia) Hrun p s Hp). lia.
  - intros b st acts p s Hrun Hp.
    pose proof (SharedAuthFacts.shared_counts_within_run pw _ tr st acts 0
                  (SharedAuthFacts.shared_counts_within_init b)) as Hk.
    specialize (Hk ltac:(lia) ltac:(lia) Hrun p s Hp). lia.
Qed.

(** ** The properties of the session state machine *)



(** C3. When the session of a conversation is active and authenticated and
    the download or the storage of a [*.jar] document returns an error, the
    handler leaves the state as it was (same counter, session still in the
    map and active) and its last call sends the error to the conversation;
    the same document sent again, with both calls succeeding, is counted. *)
Theorem failed_upload_keeps_session
    (pw : string) (c : Z) (name err : string) (fe ue : error) :
  HasSuffix name jar = true →
  fe = Some err ∨ (fe = None ∧ ue = Some err) →
  (∀ st p s,
     PerChat.session_of st c p s →
     PerChat.isActive s = true → PerChat.authenticated s = true →
     (∃ acts,
        PerChat.step pw st (OnDocument c name fe ue) = Some (st, acts)
        ∧ last acts
          = Some (Send c (match fe with
                          | Some _ => MsgFailedReader err
                          | None => MsgFailedUpload err
                          end)))
     ∧ (∃ st' acts',
          PerChat.step pw st (OnDocument c name None None) = Some (st', acts')
          ∧ PerChat.session_of st' c p (PerChat.incr_uploadCount s)
          ∧ last acts'
            = Some (Send c (MsgUploaded name
                              (int_incr (PerChat.uploadCount s))))))
  ∧ (∀ st p s,
       SharedAuth.session_of st c p s →
       SharedAuth.isActive s = true → SharedAuth.isFirstTimeSetup st = false →
       (∃ acts,
          SharedAuth.step pw st (OnDocument c name fe ue) = Some (st, acts)
          ∧ last acts
            = Some (Send c (match fe with
                            | Some _ => MsgFailedReader err
                            | None => MsgFailedUpload err
                            end)))
       ∧ (∃ st' acts',
            SharedAuth.step pw st (OnDocument c name None None)
            = Some (st', acts')
            ∧ SharedAuth.session_of st' c p (SharedAuth.incr_uploadCount s)
            ∧ last acts'
              = Some (Send c (MsgUploaded name
                                (int_incr (SharedAuth.uploadCount s)))))).
Proof.
  intros Hjar Herr. split.
  - intros st p s Hs Hact Hauth. simpl.
    rewrite !(PerChatFacts.handleDocument_uploading _ _ _ _ _ _ _
                Hs Hact Hauth), Hjar. simpl.
    destruct Hs as [Hc Hp]. split.
    + destruct Herr as [->|[-> ->]]; eauto.
    + do 2 eexists. split; [done|]. split; [|done].
      split; [done|]. simpl.
      by rewrite list_lookup_insert_eq by (by eapply lookup_lt_Some).
  - intros st p s Hs Hact Hauth. simpl.
    rewrite !(SharedAuthFacts.shared_handleDocument_uploading _ _ _ _ _ _ _
                Hs Hact Hauth), Hjar. simpl.
    destruct Hs as [Hc Hp]. split.
    + destruct Herr as [->|[-> ->]]; eauto.
    + do 2 eexists. split; [done|]. split; [|done].
      split; [done|]. simpl.
      by rewrite list_lookup_insert_eq by (by eapply lookup_lt_Some).
Qed.

Lemma failed_upload_keeps_session_witness :
  (∃ acts,
     PerChat.step "pw" (PerChat.uploading_state 3)
       (OnDocument 7 "mod1.jar" None (Some "quota exceeded"%string))
     = Some (PerChat.uploading_state 3, acts)
     ∧ last acts = Some (Send 7 (MsgFailedUpload "quota exceeded")))
  ∧ (∃ acts,
       SharedAuth.step "pw" (SharedAuth.uploading_state 3)
         (OnDocument 7 "mod1.jar" None (Some "quota exceeded"%string))
       = Some (SharedAuth.uploading_state 3, acts)
       ∧ last acts = Some (Send 7 (MsgFailedUpload "quota exceeded"))).
Proof.
  destruct (failed_upload_keeps_session "pw" 7 "mod1.jar" "quota exceeded"
              None (Some "quota exceeded"%string)) as [HP HS];
    [reflexivity|right; split; reflexivity|].
  split.
  - apply (HP (PerChat.uploading_state 3) 0%nat
              (PerChat.mkSession 7 true 3 100 true));
      [split; reflexivity|reflexivity..].
  - apply (HS (SharedAuth.uploading_state 3) 0%nat
              (SharedAuth.mkSession 7 true 3 100));
      [split; reflexivity|reflexivity..].
Defined.

(** C4. While the session of a conversation awaits the password, a text
    other than the password removes the session from the map, with the
    rejection as the only reply; the [/upload] that follows allocates a new
    session object for the conversation, with [uploadCount] 0. *)
Theorem wrong_password_ends_session
    (pw : string) (c : Z) (text : string) (now : Z) :
  text ≠ uploadPassword pw →
  (∀ st p s,
     PerChat.session_of st c p s →
     PerChat.isActive s = true → PerChat.authenticated s = false →
     ∃ st1 st2 acts p',
       PerChat.step pw st (OnText c text)
       = Some (st1, [Send c MsgIncorrectPassword])
       ∧ PerChat.uploadSessions st1 !! c = None
       ∧ PerChat.step pw st1 (CmdUpload c now) = Some (st2, acts)
       ∧ PerChat.heap st1 !! p' = None
       ∧ PerChat.session_of st2 c p' (PerChat.newSession c now)
       ∧ PerChat.uploadCount (PerChat.newSession c now) = 0)
  ∧ (∀ st p s,
       SharedAuth.session_of st c p s →
       SharedAuth.isActive s = true → SharedAuth.isFirstTimeSetup st = true →
       ∃ st1 st2 acts p',
         SharedAuth.step pw st (OnText c text)
         = Some (st1, [Send c MsgIncorrectPassword])
         ∧ SharedAuth.uploadSessions st1 !! c = None
         ∧ SharedAuth.step pw st1 (CmdUpload c now) = Some (st2, acts)
         ∧ SharedAuth.heap st1 !! p' = None
         ∧ SharedAuth.session_of st2 c p' (SharedAuth.newSession c now)
         ∧ SharedAuth.uploadCount (SharedAuth.newSession c now) = 0).
Proof.
  intros Hpw. apply String.eqb_neq in Hpw. split.
  - intros st p s [Hc Hp] Hact Hauth. simpl.
    unfold PerChat.handleText, PerChat.handleUpload.
    rewrite Hc, Hp, Hact, Hauth, Hpw. simpl.
    eexists (PerChat.mkState _ _), _, _, (List.length _). simpl.
    split; [done|]. split; [by rewrite lookup_delete_eq|].
    split; [done|]. split; [by apply lookup_ge_None|].
    split; [|done]. split; simpl.
    + by rewrite lookup_insert_eq.
    + by rewrite lookup_app_r, Nat.sub_diag.
  - intros st p s [Hc Hp] Hact Hflag. simpl.
    unfold SharedAuth.handleText.
    rewrite Hc, Hp, Hact, Hflag, Hpw. simpl.
    eexists (SharedAuth.mkState _ _ _), _, _, (List.length _).
    rewrite SharedAuthFacts.handleUpload_eq. simpl.
    split; [done|]. split; [by rewrite lookup_delete_eq|].
    split; [done|]. split; [by apply lookup_ge_None|].
    split; [|done]. split; simpl.
    + by rewrite lookup_insert_eq.
    + by rewrite lookup_app_r, Nat.sub_diag.
Qed.

Lemma wrong_password_ends_session_witness :
  (∃ st1 st2 acts p',
     PerChat.step "pw" PerChat.awaiting_state (OnText 7 "guess")
     = Some (st1, [Send 7 MsgIncorrectPassword])
     ∧ PerChat.uploadSessions st1 !! 7 = None
     ∧ PerChat.step "pw" st1 (CmdUpload 7 200) = Some (st2, acts)
     ∧ PerChat.heap st1 !! p' = None
     ∧ PerChat.session_of st2 7 p' (PerChat.newSession 7 200)
     ∧ PerChat.uploadCount (PerChat.newSession 7 200) = 0)
  ∧ (∃ st1 st2 acts p',
       SharedAuth.step "pw" SharedAuth.awaiting_state (OnText 7 "guess")
       = Some (st1, [Send 7 MsgIncorrectPassword])
       ∧ SharedAuth.uploadSessions st1 !! 7 = None
       ∧ SharedAuth.step "pw" st1 (CmdUpload 7 200) = Some (st2, acts)
       ∧ SharedAuth.heap st1 !! p' = None
       ∧ SharedAuth.session_of st2 7 p' (SharedAuth.newSession 7 200)
       ∧ SharedAuth.uploadCount (SharedAuth.newSession 7 200) = 0).
Proof.
  destruct (wrong_password_ends_session "pw" 7 "guess" 200) as [HP HS];
    [vm_compute; discriminate|].
  split.
  - apply (HP PerChat.awaiting_state 0%nat
              (PerChat.mkSession 7 true 0 100 false));
      [split; reflexivity|reflexivity..].
  - apply (HS SharedAuth.awaiting_state 0%nat
              (SharedAuth.mkSession 7 true 0 100));
      [split; reflexivity|reflexivity..].
Defined.

(** C5, as stated, fails.  "A session leaves the map exactly when it becomes
    inactive" is false in both variants: in the state where conversation 7
    holds one active session with three files uploaded, [/upload] of
    conversation 7 overwrites the map entry, so the session object 0 is in
    the map no more, while its [isActive] is still [true]. *)
Lemma session_replaced_while_active :
  ¬ (∀ st e st' acts p,
       PerChat.wf st → PerChat.all_active st → PerChat.stored st p →
       PerChat.step "pw" st e = Some (st', acts) →
       (¬ PerChat.stored st' p
        ↔ PerChat.isActive <$> PerChat.heap st' !! p = Some false))
  ∧ ¬ (∀ st e st' acts p,
         SharedAuth.wf st → SharedAuth.all_active st → SharedAuth.stored st p →
         SharedAuth.step "pw" st e = Some (st', acts) →
         (¬ SharedAuth.stored st' p
          ↔ SharedAuth.isActive <$> SharedAuth.heap st' !! p = Some false)).
Proof.
  split.
  - intros Hclaim.
    destruct (Hclaim (PerChat.uploading_state 3) (CmdUpload 7 200)
                (PerChat.mkState
                   [PerChat.mkSession 7 true 3 100 true;
                    PerChat.newSession 7 200]
                   (<[7 := 1%nat]> {[ 7 := 0%nat ]}))
                [Send 7 MsgPromptPassword] 0%nat
                (PerChatFacts.wf_uploading_state 3)) as [Hgone _];
      [by apply map_Forall_singleton|by exists 7|reflexivity|].
    discriminate Hgone. intros [c Hc]. simpl in Hc.
    rewrite insert_singleton_eq in Hc.
    by apply lookup_singleton_Some in Hc as [_ ?].
  - intros Hclaim.
    destruct (Hclaim (SharedAuth.uploading_state 3) (CmdUpload 7 200)
                (SharedAuth.mkState
                   [SharedAuth.mkSession 7 true 3 100;
                    SharedAuth.newSession 7 200]
                   (<[7 := 1%nat]> {[ 7 := 0%nat ]}) false)
                [Send 7 MsgSessionStarted] 0%nat
                (SharedAuthFacts.shared_wf_uploading_state 3)) as [Hgone _];
      [by apply map_Forall_singleton|by exists 7|reflexivity|].
    discriminate Hgone. intros [c Hc]. simpl in Hc.
    rewrite insert_singleton_eq in Hc.
    by apply lookup_singleton_Some in Hc as [_ ?].
Qed.

(** C5, amended.  An active session of the map leaves the map in one update
    exactly when the update makes it inactive or is the [/upload] of its
    conversation, which replaces it and leaves it active; it becomes
    inactive exactly on [/done], [/cancel] and a text other than the
    password while the password is awaited.  From the initial state on, the
    map never holds a session whose [isActive] is [false]. *)
Theorem session_leaves_map_iff (pw : string) (e : Event) :
  (∀ st st' acts c p s,
     PerChat.wf st → PerChat.session_of st c p s → PerChat.isActive s = true →
     PerChat.step pw st e = Some (st', acts) →
     (¬ PerChat.stored st' p
      ↔ PerChat.isActive <$> PerChat.heap st' !! p = Some false
        ∨ ∃ now, e = CmdUpload c now)
     ∧ (PerChat.isActive <$> PerChat.heap st' !! p = Some false
        ↔ PerChat.ends_session pw c s e))
  ∧ (∀ tr, ∃ st acts,
       PerChat.run pw PerChat.init tr = Some (st, acts) ∧ PerChat.all_active st)
  ∧ (∀ st st' acts c p s,
       SharedAuth.wf st → SharedAuth.session_of st c p s →
       SharedAuth.isActive s = true →
       SharedAuth.step pw st e = Some (st', acts) →
       (¬ SharedAuth.stored st' p
        ↔ SharedAuth.isActive <$> SharedAuth.heap st' !! p = Some false
          ∨ ∃ now, e = CmdUpload c now)
       ∧ (SharedAuth.isActive <$> SharedAuth.heap st' !! p = Some false
          ↔ SharedAuth.ends_session pw st c e))
  ∧ (∀ flagFileFound tr, ∃ st acts,
       SharedAuth.run pw (SharedAuth.init flagFileFound) tr = Some (st, acts)
       ∧ SharedAuth.all_active st).
Proof.
  split; [|split; [|split]].
  - intros st st' acts c p s Hwf Hs Hact Hstep.
    destruct (PerChatFacts.leave_step _ _ _ _ _ _ _ _ Hwf Hs Hact Hstep)
      as [(Hend & Hgone & Hoff)|[(Hup & Hgone & Hon)|(Hend & Hup & Hc & Hon)]].
    + rewrite Hoff. split; split; auto.
    + rewrite Hon. split; split; auto; try done.
      intros Hend. destruct Hup as [now ->]. destruct Hend.
    + rewrite Hon. split; split; try done.
      * intros Hgone. destruct Hgone. by exists c.
      * intros [?|[now ->]]; [done|]. by destruct (Hup now).
  - intros tr.
    destruct (PerChatFacts.reachable_inv pw tr PerChat.init
                PerChatFacts.wf_init PerChatFacts.all_active_init)
      as (st & acts & ? & _ & ?). eauto.
  - intros st st' acts c p s Hwf Hs Hact Hstep.
    destruct (SharedAuthFacts.shared_leave_step _ _ _ _ _ _ _ _ Hwf Hs Hact Hstep)
      as [(Hend & Hgone & Hoff)|[(Hup & Hgone & Hon)|(Hend & Hup & Hc & Hon)]].
    + rewrite Hoff. split; split; auto.
    + rewrite Hon. split; split; auto; try done.
      intros Hend. destruct Hup as [now ->]. destruct Hend.
    + rewrite Hon. split; split; try done.
      * intros Hgone. destruct Hgone. by exists c.
      * intros [?|[now ->]]; [done|]. by destruct (Hup now).
  - intros b tr.
    destruct (SharedAuthFacts.shared_reachable_inv pw tr (SharedAuth.init b)
                (SharedAuthFacts.shared_wf_init b) (SharedAuthFacts.shared_all_active_init b))
      as (st & acts & ? & _ & ?). eauto.
Qed.

Lemma session_leaves_map_iff_witness :
  (¬ PerChat.stored
       (PerChat.mkState [PerChat.mkSession 7 false 3 100 true]
                        (delete 7 {[ 7 := 0%nat ]})) 0%nat
   ↔ PerChat.isActive
       <$> PerChat.heap
             (PerChat.mkState [PerChat.mkSession 7 false 3 100 true]
                              (delete 7 {[ 7 := 0%nat ]})) !! 0%nat
       = Some false
     ∨ ∃ now, CmdDone 7 200 = CmdUpload 7 now)
  ∧ (¬ SharedAuth.stored
         (SharedAuth.mkState [SharedAuth.mkSession 7 false 3 100]
                             (delete 7 {[ 7 := 0%nat ]}) false) 0%nat
     ↔ SharedAuth.isActive
         <$> SharedAuth.heap
               (SharedAuth.mkState [SharedAuth.mkSession 7 false 3 100]
                                   (delete 7 {[ 7 := 0%nat ]}) false) !! 0%nat
         = Some false
       ∨ ∃ now, CmdDone 7 200 = CmdUpload 7 now).
Proof.
  destruct (session_leaves_map_iff "pw" (CmdDone 7 200))
    as (HP & _ & HS & _).
  split.
  - apply (HP (PerChat.uploading_state 3)
              (PerChat.mkState [PerChat.mkSession 7 false 3 100 true]
                               (delete 7 {[ 7 := 0%nat ]}))
              [Send 7 (MsgCompleted 3 100 200)]
              7 0%nat (PerChat.mkSession 7 true 3 100 true));
      [apply PerChatFacts.wf_uploading_state|split; reflexivity
      |reflexivity..].
  - apply (HS (SharedAuth.uploading_state 3)
              (SharedAuth.mkState [SharedAuth.mkSession 7 false 3 100]
                                  (delete 7 {[ 7 := 0%nat ]}) false)
              [Send 7 (MsgCompleted 3 100 200)]
              7 0%nat (SharedAuth.mkSession 7 true 3 100));
      [apply SharedAuthFacts.shared_wf_uploading_state|split; reflexivity
      |reflexivity..].
Defined.

(** C6. While the session of a conversation awaits the password, the text
    that is the configured password, character for character, leaves the
    session in the map, active, and authenticates: the per-session variant
    sets the session's [authenticated], the process-wide one clears
    [isFirstTimeSetup] (and creates the flag file); the only reply is the
    success message, and no other text is answered with it.  The configured
    password is the value of [upload_password] when that is not empty, and
    the literal [password] when it is.  Whatever is handled next, one update
    after another, a later [/upload] of any conversation prompts for the
    password again in the per-session variant and starts uploading at once
    in the process-wide one. *)
Theorem correct_password_authenticates (pw text : string) (c : Z) :
  (pw ≠ EmptyString ∧ text = pw)
  ∨ (pw = EmptyString ∧ text = "password"%string) →
  (∀ st p s,
     PerChat.session_of st c p s →
     PerChat.isActive s = true → PerChat.authenticated s = false →
     ∃ st1,
       PerChat.step pw st (OnText c text)
       = Some (st1, [Send c MsgPasswordAccepted])
       ∧ PerChat.session_of st1 c p (PerChat.set_authenticated s)
       ∧ PerChat.isActive (PerChat.set_authenticated s) = true
       ∧ PerChat.authenticated (PerChat.set_authenticated s) = true
       ∧ (∀ text' st1',
            PerChat.step pw st (OnText c text')
            = Some (st1', [Send c MsgPasswordAccepted]) →
            text' = text)
       ∧ ∀ tr st2 acts c' now,
           PerChat.run pw st1 tr = Some (st2, acts) →
           ∃ st3 p',
             PerChat.step pw st2 (CmdUpload c' now)
             = Some (st3, [Send c' MsgPromptPassword])
             ∧ PerChat.session_of st3 c' p' (PerChat.newSession c' now)
             ∧ PerChat.authenticated (PerChat.newSession c' now) = false)
  ∧ (∀ st p s,
       SharedAuth.session_of st c p s →
       SharedAuth.isActive s = true → SharedAuth.isFirstTimeSetup st = true →
       ∃ st1,
         SharedAuth.step pw st (OnText c text)
         = Some (st1, [CreateFlagFile; Send c MsgPasswordAccepted])
         ∧ SharedAuth.session_of st1 c p s
         ∧ SharedAuth.isFirstTimeSetup st1 = false
         ∧ (∀ text' st1' acts',
              SharedAuth.step pw st (OnText c text') = Some (st1', acts') →
              In (Send c MsgPasswordAccepted) acts' →
              text' = text)
         ∧ ∀ tr st2 acts c' now,
             SharedAuth.run pw st1 tr = Some (st2, acts) →
             ∃ st3 p',
               SharedAuth.step pw st2 (CmdUpload c' now)
               = Some (st3, [Send c' MsgSessionStarted])
               ∧ SharedAuth.session_of st3 c' p' (SharedAuth.newSession c' now)
               ∧ SharedAuth.isFirstTimeSetup st3 = false).
Proof.
  intros Hconf.
  assert (Hpw : uploadPassword pw = text).
  { destruct Hconf as [[Hset ->]|[-> ->]]; [|done].
    by apply uploadPassword_set. }
  split.
  - intros st p s [Hc Hp] Hact Hauth. simpl. unfold PerChat.handleText.
    rewrite Hc, Hp, Hact, Hauth, Hpw, String.eqb_refl. simpl.
    eexists. split; [done|]. split.
    { split; [done|]. simpl.
      by rewrite list_lookup_insert_eq by (by eapply lookup_lt_Some). }
    do 2 (split; [done|]). split.
    { intros text' st1'.
      destruct (String.eqb_spec text' text) as [->|Hne]; [done|].
      intros Hstep'. discriminate Hstep'. }
    intros tr st2 acts c' now _. simpl. unfold PerChat.handleUpload.
    do 2 eexists. split; [done|]. split; [|done]. split; simpl.
    + by rewrite lookup_insert_eq.
    + by rewrite lookup_app_r, Nat.sub_diag.
  - intros st p s [Hc Hp] Hact Hflag. simpl. unfold SharedAuth.handleText.
    rewrite Hc, Hp, Hact, Hflag, Hpw, String.eqb_refl. simpl.
    eexists. split; [done|]. split; [done|]. split; [done|]. split.
    { intros text' st1' acts'.
      destruct (String.eqb_spec text' text) as [->|Hne]; [done|].
      intros [= _ <-] [?|[]]. discriminate. }
    intros tr st2 acts c' now Hrun.
    assert (Hflag2 : SharedAuth.isFirstTimeSetup st2 = false)
      by (by eapply SharedAuthFacts.flag_run; [|exact Hrun]).
    simpl. rewrite SharedAuthFacts.handleUpload_eq, Hflag2.
    do 2 eexists. split; [done|]. split; [|done]. split; simpl.
    + by rewrite lookup_insert_eq.
    + by rewrite lookup_app_r, Nat.sub_diag.
Qed.

Lemma correct_password_authenticates_witness :
  (∃ st1,
     PerChat.step "secret" PerChat.awaiting_state (OnText 7 "secret")
     = Some (st1, [Send 7 MsgPasswordAccepted])
     ∧ PerChat.session_of st1 7 0%nat (PerChat.mkSession 7 true 0 100 true))
  ∧ (∃ st1,
       SharedAuth.step "secret" SharedAuth.awaiting_state (OnText 7 "secret")
       = Some (st1, [CreateFlagFile; Send 7 MsgPasswordAccepted])
       ∧ SharedAuth.session_of st1 7 0%nat (SharedAuth.mkSession 7 true 0 100)
       ∧ SharedAuth.isFirstTimeSetup st1 = false)
  ∧ (∃ st1,
       PerChat.step EmptyString PerChat.awaiting_state (OnText 7 "password")
       = Some (st1, [Send 7 MsgPasswordAccepted])
       ∧ PerChat.session_of st1 7 0%nat (PerChat.mkSession 7 true 0 100 true)).
Proof.
  destruct (correct_password_authenticates "secret" "secret" 7) as [HP HS];
    [left; split; [discriminate|reflexivity]|].
  destruct (correct_password_authenticates EmptyString "password" 7)
    as [HP0 _]; [right; split; reflexivity|].
  split; [|split].
  - destruct (HP PerChat.awaiting_state 0%nat
                 (PerChat.mkSession 7 true 0 100 false))
      as (st1 & Hstep & Hs & _);
      [split; reflexivity|reflexivity..|].
    exists st1. exact (conj Hstep Hs).
  - destruct (HS SharedAuth.awaiting_state 0%nat
                 (SharedAuth.mkSession 7 true 0 100))
      as (st1 & Hstep & Hs & Hflag & _);
      [split; reflexivity|reflexivity..|].
    exists st1. exact (conj Hstep (conj Hs Hflag)).
  - destruct (HP0 PerChat.awaiting_state 0%nat
                  (PerChat.mkSession 7 true 0 100 false))
      as (st1 & Hstep & Hs & _);
      [split; reflexivity|reflexivity..|].
    exists st1. exact (conj Hstep Hs).
Defined.

(** C7. For an active, authenticated session a document whose name does not
    end in [.jar] changes nothing in the state (the session, its
    [isActive], [uploadCount] and [startTime], and the map are as before);
    the handler makes one call only, the reply that asks for [.jar] files:
    no download, no storage. *)
Theorem non_jar_document_changes_nothing
    (pw : string) (c : Z) (name : string) (fe ue : error) :
  HasSuffix name jar = false →
  (∀ st p s,
     PerChat.session_of st c p s →
     PerChat.isActive s = true → PerChat.authenticated s = true →
     PerChat.step pw st (OnDocument c name fe ue)
     = Some (st, [Send c MsgOnlyJar]))
  ∧ (∀ st p s,
       SharedAuth.session_of st c p s →
       SharedAuth.isActive s = true → SharedAuth.isFirstTimeSetup st = false →
       SharedAuth.step pw st (OnDocument c name fe ue)
       = Some (st, [Send c MsgOnlyJar])).
Proof.
  intros Hjar. split; intros st p s Hs Hact Hauth; simpl.
  - rewrite (PerChatFacts.handleDocument_uploading _ _ _ _ _ _ _
               Hs Hact Hauth). by rewrite Hjar.
  - rewrite (SharedAuthFacts.shared_handleDocument_uploading _ _ _ _ _ _ _
               Hs Hact Hauth). by rewrite Hjar.
Qed.

Lemma non_jar_document_changes_nothing_witness :
  PerChat.step "pw" (PerChat.uploading_state 3)
               (OnDocument 7 "readme.txt" None None)
  = Some (PerChat.uploading_state 3, [Send 7 MsgOnlyJar])
  ∧ SharedAuth.step "pw" (SharedAuth.uploading_state 3)
                    (OnDocument 7 "readme.txt" None None)
    = Some (SharedAuth.uploading_state 3, [Send 7 MsgOnlyJar]).
Proof.
  destruct (non_jar_document_changes_nothing "pw" 7 "readme.txt" None None)
    as [HP HS]; [reflexivity|].
  split.
  - apply (HP (PerChat.uploading_state 3) 0%nat
              (PerChat.mkSession 7 true 3 100 true));
      [split; reflexivity|reflexivity..].
  - apply (HS (SharedAuth.uploading_state 3) 0%nat
              (SharedAuth.mkSession 7 true 3 100));
      [split; reflexivity|reflexivity..].
Defined.

(** C8. A text received while the conversation has no session, or an
    inactive one, or one that is already authenticated (in the process-wide
    variant: once [isFirstTimeSetup] is cleared) is ignored: the handler
    makes no call at all and the state is as before. *)
Theorem stray_text_ignored (pw : string) (c : Z) (text : string) :
  (∀ st,
     PerChat.uploadSessions st !! c = None
     ∨ (∃ p s, PerChat.session_of st c p s
               ∧ (PerChat.isActive s = false
                  ∨ PerChat.authenticated s = true)) →
     PerChat.step pw st (OnText c text) = Some (st, []))
  ∧ (∀ st,
       SharedAuth.uploadSessions st !! c = None
       ∨ (∃ p s, SharedAuth.session_of st c p s
                 ∧ (SharedAuth.isActive s = false
                    ∨ SharedAuth.isFirstTimeSetup st = false)) →
       SharedAuth.step pw st (OnText c text) = Some (st, [])).
Proof.
  split; intros st [Hnone|(p & s & [Hc Hp] & Hskip)]; simpl.
  - unfold PerChat.handleText. by rewrite Hnone.
  - unfold PerChat.handleText. rewrite Hc, Hp.
    destruct Hskip as [->| ->]; [done|]. by rewrite orb_true_r.
  - unfold SharedAuth.handleText. by rewrite Hnone.
  - unfold SharedAuth.handleText. rewrite Hc, Hp.
    destruct Hskip as [->| ->]; [done|]. by rewrite orb_true_r.
Qed.

Lemma stray_text_ignored_witness :
  PerChat.step "pw" (PerChat.uploading_state 3) (OnText 7 "hello")
  = Some (PerChat.uploading_state 3, [])
  ∧ SharedAuth.step "pw" (SharedAuth.init false) (OnText 7 "hello")
    = Some (SharedAuth.init false, []).
Proof.
  destruct (stray_text_ignored "pw" 7 "hello") as [HP HS].
  split.
  - apply HP. right.
    exists 0%nat, (PerChat.mkSession 7 true 3 100 true).
    split; [split; reflexivity|right; reflexivity].
  - apply HS. left. reflexivity.
Defined.

(** C9. In every state [/upload] allocates a fresh session object for the
    conversation (active, [uploadCount] 0, started now) and stores it under
    the conversation's key, whatever was there; the other keys keep their
    sessions.  A session the conversation had before, be it active and
    authenticated with files uploaded, is left as it was but is no longer
    in the map, and the handler's only call is the usual reply: nothing
    reports the old session or its counter. *)
Theorem upload_replaces_session (pw : string) (c now : Z) :
  (∀ st, ∃ st',
     PerChat.step pw st (CmdUpload c now)
     = Some (st', [Send c MsgPromptPassword])
     ∧ PerChat.heap st !! List.length (PerChat.heap st) = None
     ∧ PerChat.session_of st' c (List.length (PerChat.heap st))
                          (PerChat.newSession c now)
     ∧ PerChat.uploadCount (PerChat.newSession c now) = 0
     ∧ (∀ c', c' ≠ c →
          PerChat.uploadSessions st' !! c' = PerChat.uploadSessions st !! c')
     ∧ (∀ p s, PerChat.session_of st c p s →
          PerChat.heap st' !! p = Some s
          ∧ PerChat.uploadSessions st' !! c ≠ Some p
          ∧ (PerChat.wf st → ¬ PerChat.stored st' p)))
  ∧ (∀ st, ∃ st',
       SharedAuth.step pw st (CmdUpload c now)
       = Some (st', [Send c (if SharedAuth.isFirstTimeSetup st
                             then MsgPromptPassword else MsgSessionStarted)])
       ∧ SharedAuth.heap st !! List.length (SharedAuth.heap st) = None
       ∧ SharedAuth.session_of st' c (List.length (SharedAuth.heap st))
                               (SharedAuth.newSession c now)
       ∧ SharedAuth.uploadCount (SharedAuth.newSession c now) = 0
       ∧ SharedAuth.isFirstTimeSetup st' = SharedAuth.isFirstTimeSetup st
       ∧ (∀ c', c' ≠ c →
            SharedAuth.uploadSessions st' !! c'
            = SharedAuth.uploadSessions st !! c')
       ∧ (∀ p s, SharedAuth.session_of st c p s →
            SharedAuth.heap st' !! p = Some s
            ∧ SharedAuth.uploadSessions st' !! c ≠ Some p
            ∧ (SharedAuth.wf st → ¬ SharedAuth.stored st' p))).
Proof.
  split; intros st; eexists; simpl;
    rewrite ?SharedAuthFacts.handleUpload_eq;
    (split; [reflexivity|]); simpl;
    (split; [by apply lookup_ge_None|]);
    (split; [split; simpl;
             [by rewrite lookup_insert_eq
             |by rewrite lookup_app_r, Nat.sub_diag]|]);
    (split; [done|]).
  - split; [by intros c' Hne; rewrite lookup_insert_ne|].
    intros p s [Hc Hp]. rewrite (lookup_app_l_Some _ _ _ _ Hp).
    split; [done|]. rewrite lookup_insert_eq. split.
    + intros [= <-]. apply lookup_lt_Some in Hp. lia.
    + intros Hwf. by eapply PerChatFacts.not_stored_replace.
  - split; [done|].
    split; [by intros c' Hne; rewrite lookup_insert_ne|].
    intros p s [Hc Hp]. rewrite (lookup_app_l_Some _ _ _ _ Hp).
    split; [done|]. rewrite lookup_insert_eq. split.
    + intros [= <-]. apply lookup_lt_Some in Hp. lia.
    + intros Hwf. by eapply SharedAuthFacts.shared_not_stored_replace.
Qed.

Lemma upload_replaces_session_witness :
  (∃ st',
     PerChat.step "pw" (PerChat.uploading_state 3) (CmdUpload 7 200)
     = Some (st', [Send 7 MsgPromptPassword])
     ∧ PerChat.session_of st' 7 1%nat (PerChat.mkSession 7 true 0 200 false)
     ∧ PerChat.heap st' !! 0%nat = Some (PerChat.mkSession 7 true 3 100 true)
     ∧ ¬ PerChat.stored st' 0%nat)
  ∧ (∃ st',
       SharedAuth.step "pw" (SharedAuth.uploading_state 3) (CmdUpload 7 200)
       = Some (st', [Send 7 MsgSessionStarted])
       ∧ SharedAuth.session_of st' 7 1%nat (SharedAuth.mkSession 7 true 0 200)
       ∧ SharedAuth.heap st' !! 0%nat = Some (SharedAuth.mkSession 7 true 3 100)
       ∧ ¬ SharedAuth.stored st' 0%nat).
Proof.
  destruct (upload_replaces_session "pw" 7 200) as [HP HS].
  split.
  - destruct (HP (PerChat.uploading_state 3))
      as (st' & Hstep & _ & Hnew & _ & _ & Hold).
    destruct (Hold 0%nat (PerChat.mkSession 7 true 3 100 true))
      as (Hkept & _ & Hgone); [split; reflexivity|].
    exists st'.
    exact (conj Hstep (conj Hnew (conj Hkept
             (Hgone (PerChatFacts.wf_uploading_state 3))))).
  - destruct (HS (SharedAuth.uploading_state 3))
      as (st' & Hstep & _ & Hnew & _ & _ & _ & Hold).
    destruct (Hold 0%nat (SharedAuth.mkSession 7 true 3 100))
      as (Hkept & _ & Hgone); [split; reflexivity|].
    exists st'.
    exact (conj Hstep (conj Hnew (conj Hkept
             (Hgone (SharedAuthFacts.shared_wf_uploading_state 3))))).
Defined.

(** C10. Authentication is never taken back.  In the per-session variant a
    session object whose [authenticated] is [true] keeps it [true] through
    every trace of updates; in the process-wide variant [isFirstTimeSetup],
    once [false], stays [false] through every trace: wrong passwords,
    [/cancel], [/done] and [/upload] included. *)
Theorem authentication_never_revoked (pw : string) (tr : list Event) :
  (∀ st p s,
     PerChat.wf st → PerChat.heap st !! p = Some s →
     PerChat.authenticated s = true →
     ∃ st' acts s',
       PerChat.run pw st tr = Some (st', acts)
       ∧ PerChat.heap st' !! p = Some s'
       ∧ PerChat.authenticated s' = true)
  ∧ (∀ st,
       SharedAuth.wf st → SharedAuth.isFirstTimeSetup st = false →
       ∃ st' acts,
         SharedAuth.run pw st tr = Some (st', acts)
         ∧ SharedAuth.isFirstTimeSetup st' = false).
Proof.
  split.
  - intros st p s Hwf Hp Hauth.
    destruct (PerChatFacts.wf_run pw st tr Hwf) as (st' & acts & Hrun & _).
    destruct (PerChatFacts.authenticated_run _ _ _ _ _ _ _ Hrun Hp Hauth)
      as (s' & Hp' & Hauth').
    by exists st', acts, s'.
  - intros st Hwf Hflag.
    destruct (SharedAuthFacts.shared_wf_run pw st tr Hwf) as (st' & acts & Hrun & _).
    exists st', acts. split; [done|].
    by eapply SharedAuthFacts.flag_run.
Qed.

Lemma authentication_never_revoked_witness :
  (∃ st' acts s',
     PerChat.run "pw" (PerChat.uploading_state 3)
                 [OnText 7 "guess"; CmdCancel 7; CmdUpload 7 300]
     = Some (st', acts)
     ∧ PerChat.heap st' !! 0%nat = Some s'
     ∧ PerChat.authenticated s' = true)
  ∧ (∃ st' acts,
       SharedAuth.run "pw" (SharedAuth.uploading_state 3)
                      [OnText 7 "guess"; CmdCancel 7; CmdUpload 7 300]
       = Some (st', acts)
       ∧ SharedAuth.isFirstTimeSetup st' = false).
Proof.
  destruct (authentication_never_revoked "pw"
              [OnText 7 "guess"; CmdCancel 7; CmdUpload 7 300]) as [HP HS].
  split.
  - apply (HP (PerChat.uploading_state 3) 0%nat
              (PerChat.mkSession 7 true 3 100 true));
      [apply PerChatFacts.wf_uploading_state|reflexivity..].
  - apply (HS (SharedAuth.uploading_state 3));
      [apply SharedAuthFacts.shared_wf_uploading_state|reflexivity].
Defined.

(** ** Further facts on traces: the per-session variant *)

Module PerChatTraces.
Import PerChat PerChatFacts.

(** Running a trace in two parts. *)
Lemma run_app pw st tr1 tr2 :
  run pw st (tr1 ++ tr2) =
    match run pw st tr1 with
    | None => None
    | Some (st1, acts1) =>
      match run pw st1 tr2 with
      | None => None
      | Some (st2, acts2) => Some (st2, acts1 ++ acts2)
      end
    end.
Proof.
  revert st. induction tr1 as [|e tr1 IH]; intros st; simpl.
  - by destruct (run pw st tr2) as [[st2 acts2]|].
  - destruct (step pw st e) as [[st1 acts1]|]; [|done].
    rewrite IH. destruct (run pw st1 tr1) as [[st2 acts2]|]; [|done].
    destruct (run pw st2 tr2) as [[st3 acts3]|]; [|done].
    by rewrite app_assoc.
Qed.

(** Over a whole trace a session object keeps its key and start time, and
    stays inactive once it is. *)
Lemma object_run pw st tr st' acts (p : ptr) s :
  run pw st tr = Some (st', acts) → heap st !! p = Some s →
  ∃ s', heap st' !! p = Some s'
        ∧ chatID s' = chatID s ∧ startTime s' = startTime s
        ∧ (isActive s = false → isActive s' = false).
Proof.
  revert st acts s. induction tr as [|e tr IH]; intros st acts s Hrun Hp;
    simpl in Hrun.
  - injection Hrun as <- <-. eauto.
  - destruct (step pw st e) as [[st1 acts1]|] eqn:Hstep; [|done].
    destruct (run pw st1 tr) as [[st2 acts2]|] eqn:Hrun1; [|done].
    injection Hrun as <- <-.
    destruct (step_object _ _ _ _ _ _ _ Hstep Hp)
      as (s1 & Hp1 & Hid1 & Hstart1 & Hoff1 & _).
    destruct (IH _ _ _ Hrun1 Hp1) as (s2 & Hp2 & Hid2 & Hstart2 & Hoff2).
    exists s2. rewrite Hid2, Hstart2. repeat split; auto.
Qed.

Lemma none_authenticated_write st (p : ptr) s s' m :
  none_authenticated st → heap st !! p = Some s →
  authenticated s' = authenticated s →
  none_authenticated (mkState (<[p := s']> (heap st)) m).
Proof.
  intros Hnone Hp Hs' q t Hq. simpl in Hq.
  destruct (decide (q = p)) as [->|Hne].
  - rewrite list_lookup_insert_eq in Hq by (by eapply lookup_lt_Some).
    injection Hq as <-. rewrite Hs'. by eapply Hnone.
  - rewrite list_lookup_insert_ne in Hq by done. by eapply Hnone.
Qed.

Lemma none_authenticated_alloc st c now m :
  none_authenticated st →
  none_authenticated (mkState (heap st ++ [newSession c now]) m).
Proof.
  intros Hnone q t Hq. simpl in Hq.
  apply lookup_app_Some in Hq as [Hq|[_ Hq]]; [by eapply Hnone|].
  by apply list_lookup_singleton_Some in Hq as [_ <-].
Qed.

(** While no session is authenticated, an update other than the password
    authenticates none, and makes no file call. *)
Lemma unauthenticated_step pw st e :
  wf st → none_authenticated st → is_password pw e = false →
  ∃ st' acts,
    step pw st e = Some (st', acts) ∧ wf st' ∧ none_authenticated st'
    ∧ forallb (λ a, negb (is_file_call a)) acts = true.
Proof.
  intros Hwf Hnone Hpw.
  destruct (wf_step pw st e Hwf) as (st' & acts & Hstep & Hwf').
  exists st', acts. do 2 (split; [done|]).
  destruct e as [c|c now|c now|c|c name fe ue|c text|c res|c res];
    simpl in Hstep, Hpw.
  - by injection Hstep as <- <-.
  - injection Hstep as <- <-. split; [|done].
    by apply none_authenticated_alloc.
  - unfold handleDone in Hstep.
    repeat case_match; try discriminate; injection Hstep as <- <-;
      (split; [|done]); eauto using none_authenticated_write.
  - unfold handleCancel in Hstep.
    repeat case_match; try discriminate; injection Hstep as <- <-;
      (split; [|done]); eauto using none_authenticated_write.
  - unfold handleDocument in Hstep.
    destruct (uploadSessions st !! c) as [p|] eqn:Hc;
      [|by injection Hstep as <- <-].
    destruct (heap st !! p) as [s|] eqn:Hp; [|done].
    rewrite (Hnone p s Hp) in Hstep.
    destruct (isActive s); simpl in Hstep; by injection Hstep as <- <-.
  - unfold handleText in Hstep. rewrite Hpw in Hstep.
    repeat case_match; try discriminate; injection Hstep as <- <-;
      (split; [|done]); eauto using none_authenticated_write.
  - injection Hstep as <- <-. split; [done|].
    unfold listReply. by repeat case_match.
  - injection Hstep as <- <-. split; [done|].
    unfold quantityReply. by repeat case_match.
Qed.

Lemma unauthenticated_run pw st tr :
  wf st → none_authenticated st →
  forallb (λ e, negb (is_password pw e)) tr = true →
  ∃ st' acts,
    run pw st tr = Some (st', acts) ∧ none_authenticated st'
    ∧ forallb (λ a, negb (is_file_call a)) acts = true.
Proof.
  revert st. induction tr as [|e tr IH]; intros st Hwf Hnone Htr;
    simpl in *; [by eauto|].
  apply andb_true_iff in Htr as [He Htr]. apply negb_true_iff in He.
  destruct (unauthenticated_step pw st e Hwf Hnone He)
    as (st1 & acts1 & -> & Hwf1 & Hnone1 & Hacts1).
  destruct (IH st1 Hwf1 Hnone1 Htr) as (st2 & acts2 & -> & Hnone2 & Hacts2).
  exists st2, (acts1 ++ acts2). repeat split; [done|].
  rewrite forallb_app. by rewrite Hacts1, Hacts2.
Qed.

(** The view of a conversation under the three ways a handler changes the
    state. *)
Lemma chat_view_session st c p s :
  session_of st c p s → chat_view st c = Some s.
Proof. intros [Hc Hp]. unfold chat_view. by rewrite Hc. Qed.

Lemma chat_view_cases st c :
  wf st →
  (uploadSessions st !! c = None ∧ chat_view st c = None)
  ∨ (∃ p s, session_of st c p s ∧ chat_view st c = Some s).
Proof.
  intros Hwf. unfold chat_view.
  destruct (uploadSessions st !! c) as [p|] eqn:Hc; [|by left].
  destruct (wf_lookup _ _ _ Hwf Hc) as (s & Hs & _).
  right. exists p, s. by rewrite Hs.
Qed.

Lemma chat_view_write st c p s s' :
  session_of st c p s →
  chat_view (mkState (<[p := s']> (heap st)) (uploadSessions st)) c = Some s'.
Proof.
  intros [Hc Hp]. unfold chat_view. simpl. rewrite Hc.
  by rewrite list_lookup_insert_eq by (by eapply lookup_lt_Some).
Qed.

Lemma chat_view_delete h (m : gmap Z ptr) c :
  chat_view (mkState h (delete c m)) c = None.
Proof. unfold chat_view. simpl. by rewrite lookup_delete_eq. Qed.

Lemma chat_view_alloc h (m : gmap Z ptr) c s :
  chat_view (mkState (h ++ [s]) (<[c := List.length h]> m)) c = Some s.
Proof.
  unfold chat_view. simpl. rewrite lookup_insert_eq.
  by rewrite lookup_app_r, Nat.sub_diag.
Qed.

(** One update of conversation [c]: the handler does to the view of [c]
    what the machine does. *)
Lemma step_chat_machine pw st e :
  wf st →
  ∃ st' acts,
    step pw st e = Some (st', acts) ∧ wf st'
    ∧ chat_machine pw (event_chat e) (chat_view st (event_chat e)) e
      = (chat_view st' (event_chat e), acts).
Proof.
  intros Hwf.
  destruct (wf_step pw st e Hwf) as (st' & acts & Hstep & Hwf').
  exists st', acts. do 2 (split; [done|]).
  destruct e as [c|c now|c now|c|c name fe ue|c text|c res|c res];
    simpl event_chat; simpl in Hstep.
  - by injection Hstep as <- <-.
  - injection Hstep as <- <-. simpl. by rewrite chat_view_alloc.
  - unfold handleDone in Hstep.
    destruct (chat_view_cases st c Hwf) as [[Hc ->]|(p & s & Hs & ->)]; simpl.
    + rewrite Hc in Hstep. injection Hstep as <- <-.
      unfold chat_view. by rewrite Hc.
    + pose proof Hs as [Hc Hp]. rewrite Hc, Hp in Hstep.
      destruct (isActive s); simpl in Hstep; injection Hstep as <- <-.
      * by rewrite chat_view_delete.
      * by rewrite (chat_view_session _ _ _ _ Hs).
  - unfold handleCancel in Hstep.
    destruct (chat_view_cases st c Hwf) as [[Hc ->]|(p & s & Hs & ->)]; simpl.
    + rewrite Hc in Hstep. injection Hstep as <- <-.
      unfold chat_view. by rewrite Hc.
    + pose proof Hs as [Hc Hp]. rewrite Hc, Hp in Hstep.
      destruct (isActive s); simpl in Hstep; injection Hstep as <- <-.
      * by rewrite chat_view_delete.
      * by rewrite (chat_view_session _ _ _ _ Hs).
  - unfold handleDocument in Hstep.
    destruct (chat_view_cases st c Hwf) as [[Hc ->]|(p & s & Hs & ->)]; simpl.
    + rewrite Hc in Hstep. injection Hstep as <- <-.
      unfold chat_view. by rewrite Hc.
    + pose proof Hs as [Hc Hp]. rewrite Hc, Hp in Hstep.
      destruct (isActive s), (authenticated s), (HasSuffix name jar), fe, ue;
        simpl in Hstep; injection Hstep as <- <-;
        rewrite ?(chat_view_write _ _ _ _ _ Hs),
                ?(chat_view_session _ _ _ _ Hs); done.
  - unfold handleText in Hstep.
    destruct (chat_view_cases st c Hwf) as [[Hc ->]|(p & s & Hs & ->)]; simpl.
    + rewrite Hc in Hstep. injection Hstep as <- <-.
      unfold chat_view. by rewrite Hc.
    + pose proof Hs as [Hc Hp]. rewrite Hc, Hp in Hstep.
      destruct (isActive s), (authenticated s),
        (String.eqb text (uploadPassword pw));
        simpl in Hstep; injection Hstep as <- <-;
        rewrite ?(chat_view_write _ _ _ _ _ Hs), ?chat_view_delete,
                ?(chat_view_session _ _ _ _ Hs); done.
  - by injection Hstep as <- <-.
  - by injection Hstep as <- <-.
Qed.

(** An update of another conversation leaves the view of [c] alone. *)
Lemma step_other_view pw st e c :
  wf st → event_chat e ≠ c →
  ∃ st' acts,
    step pw st e = Some (st', acts) ∧ wf st'
    ∧ chat_view st' c = chat_view st c.
Proof.
  intros Hwf Hne.
  destruct (chat_view_cases st c Hwf) as [[Hc Hv]|(p & s & Hs & Hv)].
  - destruct (wf_step pw st e Hwf) as (st' & acts & Hstep & Hwf').
    exists st', acts. do 2 (split; [done|]). rewrite Hv.
    assert (uploadSessions st' !! c = None) as Hc';
      [|unfold chat_view; by rewrite Hc'].
    destruct e as [c'|c' now|c' now|c'|c' name fe ue|c' text|c' res|c' res];
      simpl in Hstep, Hne;
      try (by injection Hstep as <- <-).
    + injection Hstep as <- <-. simpl. by rewrite lookup_insert_ne.
    + unfold handleDone in Hstep.
      repeat case_match; try discriminate; injection Hstep as <- <-;
        simpl; by rewrite ?lookup_delete_ne.
    + unfold handleCancel in Hstep.
      repeat case_match; try discriminate; injection Hstep as <- <-;
        simpl; by rewrite ?lookup_delete_ne.
    + unfold handleDocument in Hstep.
      repeat case_match; try discriminate; by injection Hstep as <- <-.
    + unfold handleText in Hstep.
      repeat case_match; try discriminate; injection Hstep as <- <-;
        simpl; by rewrite ?lookup_delete_ne.
  - destruct (step_other pw st e c p s Hwf Hs Hne)
      as (st' & acts & Hstep & Hwf' & Hs').
    exists st', acts. do 2 (split; [done|]).
    by rewrite Hv, (chat_view_session _ _ _ _ Hs').
Qed.

(** A handler sends to the conversation of its update only. *)
Lemma step_replies_other pw st e st' acts c :
  step pw st e = Some (st', acts) → event_chat e ≠ c → replies_to c acts = [].
Proof.
  intros Hstep Hne.
  destruct e as [c'|c' now|c' now|c'|c' name fe ue|c' text|c' res|c' res];
    simpl in Hstep, Hne.
  - injection Hstep as <- <-. unfold replies_to. simpl.
    by rewrite bool_decide_eq_false_2.
  - injection Hstep as <- <-. unfold replies_to. simpl.
    by rewrite bool_decide_eq_false_2.
  - unfold handleDone in Hstep.
    repeat case_match; try discriminate; injection Hstep as <- <-;
      unfold replies_to; simpl; by rewrite bool_decide_eq_false_2.
  - unfold handleCancel in Hstep.
    repeat case_match; try discriminate; injection Hstep as <- <-;
      unfold replies_to; simpl; by rewrite bool_decide_eq_false_2.
  - unfold handleDocument in Hstep.
    repeat case_match; try discriminate; injection Hstep as <- <-;
      unfold replies_to; simpl; by rewrite !bool_decide_eq_false_2.
  - unfold handleText in Hstep.
    repeat case_match; try discriminate; injection Hstep as <- <-;
      unfold replies_to; simpl; by rewrite ?bool_decide_eq_false_2.
  - injection Hstep as <- <-. unfold replies_to, listReply.
    repeat case_match; simpl; by rewrite bool_decide_eq_false_2.
  - injection Hstep as <- <-. unfold replies_to, quantityReply.
    repeat case_match; simpl; by rewrite bool_decide_eq_false_2.
Qed.

(** Only [/upload] of a conversation gives it a session. *)
Lemma no_session_step pw st e st' acts c :
  uploadSessions st !! c = None → is_upload_of c e = false →
  step pw st e = Some (st', acts) → uploadSessions st' !! c = None.
Proof.
  intros Hc Hup Hstep.
  destruct e as [c'|c' now|c' now|c'|c' name fe ue|c' text|c' res|c' res];
    simpl in Hstep, Hup.
  - by injection Hstep as <- <-.
  - injection Hstep as <- <-. simpl.
    apply bool_decide_eq_false in Hup. by rewrite lookup_insert_ne.
  - unfold handleDone in Hstep.
    repeat case_match; try discriminate; injection Hstep as <- <-;
      simpl; by rewrite ?lookup_delete_None; auto.
  - unfold handleCancel in Hstep.
    repeat case_match; try discriminate; injection Hstep as <- <-;
      simpl; by rewrite ?lookup_delete_None; auto.
  - unfold handleDocument in Hstep.
    repeat case_match; try discriminate; by injection Hstep as <- <-.
  - unfold handleText in Hstep.
    repeat case_match; try discriminate; injection Hstep as <- <-;
      simpl; by rewrite ?lookup_delete_None; auto.
  - by injection Hstep as <- <-.
  - by injection Hstep as <- <-.
Qed.

Lemma no_session_run pw st tr st' acts c :
  uploadSessions st !! c = None →
  forallb (λ e, negb (is_upload_of c e)) tr = true →
  run pw st tr = Some (st', acts) → uploadSessions st' !! c = None.
Proof.
  revert st acts. induction tr as [|e tr IH]; intros st acts Hc Htr Hrun;
    simpl in *.
  - by injection Hrun as <- <-.
  - apply andb_true_iff in Htr as [He Htr]. apply negb_true_iff in He.
    destruct (step pw st e) as [[st1 acts1]|] eqn:Hstep; [|done].
    destruct (run pw st1 tr) as [[st2 acts2]|] eqn:Hrun1; [|done].
    injection Hrun as <- <-.
    eapply IH; [|done..]. by eapply no_session_step.
Qed.

(** [/start], [/list] and [/quantity] leave the state as it is. *)
Lemma query_step pw st e :
  is_query e = true → ∃ acts, step pw st e = Some (st, acts).
Proof. destruct e; try done; intros _; simpl; by eauto. Qed.

(** [run_log] is [run] with the calls kept apart, one entry per update. *)
Lemma run_log_run pw st tr :
  run pw st tr
  = (λ r, (fst r, concat (snd <$> snd r))) <$> run_log pw st tr.
Proof.
  revert st. induction tr as [|e tr IH]; intros st; simpl; [done|].
  destruct (step pw st e) as [[st1 acts1]|]; [|done].
  rewrite IH. by destruct (run_log pw st1 tr) as [[st2 log]|].
Qed.

Lemma run_log_events pw st tr st' log :
  run_log pw st tr = Some (st', log) → fst <$> log = tr.
Proof.
  revert st st' log. induction tr as [|e tr IH]; intros st st' log; simpl.
  - by intros [= <- <-].
  - destruct (step pw st e) as [[st1 acts1]|]; [|done].
    destruct (run_log pw st1 tr) as [[st2 log2]|] eqn:Hlog; [|done].
    intros [= <- <-]. simpl. f_equal. by eapply IH.
Qed.

(** The handler of an update of another conversation writes neither the
    session objects of [c] nor the entry of [c] in the map. *)
Lemma step_frame pw st e c (p : ptr) s :
  wf st → heap st !! p = Some s → chatID s = c → event_chat e ≠ c →
  ∃ st' acts,
    step pw st e = Some (st', acts) ∧ wf st'
    ∧ heap st' !! p = Some s
    ∧ uploadSessions st' !! c = uploadSessions st !! c.
Proof.
  intros Hwf Hp Hid Hne.
  destruct (wf_step pw st e Hwf) as (st' & acts & Hstep & Hwf').
  exists st', acts. split; [done|]. split; [done|].
  assert (Hq : ∀ q, uploadSessions st !! event_chat e = Some q → q ≠ p).
  { intros q Hq ->. apply Hne.
    destruct (wf_lookup _ _ _ Hwf Hq) as (s0 & Hs0 & Hid0). congruence. }
  destruct e as [c'|c' now|c' now|c'|c' name fe ue|c' text|c' res|c' res];
    simpl in Hstep, Hne, Hq.
  - by injection Hstep as <- <-.
  - injection Hstep as <- <-. simpl.
    rewrite lookup_insert_ne by done. by rewrite (lookup_app_l_Some _ _ _ _ Hp).
  - unfold handleDone in Hstep.
    repeat case_match; try discriminate; injection Hstep as <- <-; try done.
    simpl. rewrite lookup_delete_ne by done.
    rewrite list_lookup_insert_ne by (by apply Hq). done.
  - unfold handleCancel in Hstep.
    repeat case_match; try discriminate; injection Hstep as <- <-; try done.
    simpl. rewrite lookup_delete_ne by done.
    rewrite list_lookup_insert_ne by (by apply Hq). done.
  - unfold handleDocument in Hstep.
    repeat case_match; try discriminate; injection Hstep as <- <-; try done.
    simpl. rewrite list_lookup_insert_ne by (by apply Hq). done.
  - unfold handleText in Hstep.
    repeat case_match; try discriminate; injection Hstep as <- <-; try done.
    + simpl. rewrite list_lookup_insert_ne by (by apply Hq). done.
    + simpl. rewrite lookup_delete_ne by done.
      rewrite list_lookup_insert_ne by (by apply Hq). done.
  - by injection Hstep as <- <-.
  - by injection Hstep as <- <-.
Qed.

(** One handler, seen from the session object [p] of conversation [c].  As
    long as no [/upload] of [c] is handled, [p] is the session of [c],
    active and authenticated, or [c] has no session; and the handler adds
    one to the counter of [p] exactly when it made a call to [uploadFile]
    for a document of [c] that returned [nil]. *)
Lemma counted_step pw st e c (p : ptr) s :
  wf st → heap st !! p = Some s → chatID s = c →
  (uploadSessions st !! c = Some p
   ∧ isActive s = true ∧ authenticated s = true)
  ∨ uploadSessions st !! c = None →
  is_upload_of c e = false →
  ∃ st' acts s',
    step pw st e = Some (st', acts) ∧ wf st'
    ∧ heap st' !! p = Some s' ∧ chatID s' = c
    ∧ ((uploadSessions st' !! c = Some p
        ∧ isActive s' = true ∧ authenticated s' = true)
       ∨ uploadSessions st' !! c = None)
    ∧ uploadCount s' =
        (if stored_call c (e, acts) then int_incr (uploadCount s)
         else uploadCount s)
    ∧ (stored_call c (e, acts) = true →
       ∃ name, e = OnDocument c name None None
               ∧ HasSuffix name jar = true
               ∧ In (BotFile name None) acts).
Proof.
  intros Hwf Hp Hid Hinv Hup.
  destruct (decide (event_chat e = c)) as [Heq|Hne].
  2:{ destruct (step_frame pw st e c p s Hwf Hp Hid Hne)
        as (st' & acts & Hstep & Hwf' & Hp' & Hmap).
      exists st', acts, s. rewrite Hmap, (stored_call_other _ _ _ Hne).
      by do 6 (split; [done|]). }
  destruct (wf_step pw st e Hwf) as (st' & acts & Hstep & Hwf').
  exists st', acts. rewrite Hstep.
  assert (Hlt : (p < List.length (heap st))%nat) by (by eapply lookup_lt_Some).
  destruct Hinv as [(Hc & Hact & Hauth)|Hnone].
  - destruct e as [c'|c' now|c' now|c'|c' name fe ue|c' text|c' res|c' res];
      simpl in Heq, Hup, Hstep; subst c'.
    + injection Hstep as <- <-. exists s. by do 5 (split; [auto|]).
    + by rewrite bool_decide_eq_true_2 in Hup.
    + unfold handleDone in Hstep. rewrite Hc, Hp, Hact in Hstep.
      simpl in Hstep. injection Hstep as <- <-. exists (set_inactive s).
      simpl. rewrite list_lookup_insert_eq by done.
      rewrite lookup_delete_eq. by do 5 (split; [auto|]).
    + unfold handleCancel in Hstep. rewrite Hc, Hp, Hact in Hstep.
      simpl in Hstep. injection Hstep as <- <-. exists (set_inactive s).
      simpl. rewrite list_lookup_insert_eq by done.
      rewrite lookup_delete_eq. by do 5 (split; [auto|]).
    + rewrite (handleDocument_uploading _ _ _ _ _ _ _ (conj Hc Hp) Hact Hauth)
        in Hstep.
      unfold stored_call. simpl. rewrite bool_decide_eq_true_2 by done.
      destruct (HasSuffix name jar) eqn:Hjar; simpl in Hstep.
      * destruct fe as [err|], ue as [err'|]; injection Hstep as <- <-;
          simpl; try (exists s; by do 5 (split; [auto|])).
        exists (incr_uploadCount s). simpl.
        rewrite list_lookup_insert_eq by done. rewrite String.eqb_refl.
        simpl. do 5 (split; [auto|]). split; [done|].
        intros _. exists name. auto.
      * injection Hstep as <- <-. simpl. exists s.
        by do 5 (split; [auto|]).
    + unfold handleText in Hstep. rewrite Hc, Hp, Hact, Hauth in Hstep.
      simpl in Hstep. injection Hstep as <- <-. exists s.
      by do 5 (split; [auto|]).
    + injection Hstep as <- <-. exists s. by do 5 (split; [auto|]).
    + injection Hstep as <- <-. exists s. by do 5 (split; [auto|]).
  - destruct e as [c'|c' now|c' now|c'|c' name fe ue|c' text|c' res|c' res];
      simpl in Heq, Hup, Hstep; subst c'.
    + injection Hstep as <- <-. exists s. by do 5 (split; [auto|]).
    + by rewrite bool_decide_eq_true_2 in Hup.
    + unfold handleDone in Hstep. rewrite Hnone in Hstep.
      injection Hstep as <- <-. exists s. by do 5 (split; [auto|]).
    + unfold handleCancel in Hstep. rewrite Hnone in Hstep.
      injection Hstep as <- <-. exists s. by do 5 (split; [auto|]).
    + unfold handleDocument in Hstep. rewrite Hnone in Hstep.
      injection Hstep as <- <-. exists s. unfold stored_call. simpl.
      rewrite andb_false_r. by do 5 (split; [auto|]).
    + unfold handleText in Hstep. rewrite Hnone in Hstep.
      injection Hstep as <- <-. exists s. by do 5 (split; [auto|]).
    + injection Hstep as <- <-. exists s. by do 5 (split; [auto|]).
    + injection Hstep as <- <-. exists s. by do 5 (split; [auto|]).
Qed.

(** A serial execution without [/upload] of [c]: the counter of [p] has
    advanced once per storage call of [c] that returned [nil]. *)
Lemma counted_run pw st tr c (p : ptr) s k :
  wf st → heap st !! p = Some s → chatID s = c →
  (uploadSessions st !! c = Some p
   ∧ isActive s = true ∧ authenticated s = true)
  ∨ uploadSessions st !! c = None →
  uploadCount s = wrap_int k →
  forallb (λ e, negb (is_upload_of c e)) tr = true →
  ∃ st' log s',
    run_log pw st tr = Some (st', log)
    ∧ heap st' !! p = Some s'
    ∧ (uploadSessions st' !! c = Some p ∨ uploadSessions st' !! c = None)
    ∧ uploadCount s' = wrap_int (k + Z.of_nat (stored_calls c log))
    ∧ Forall (λ entry,
                stored_call c entry = true →
                ∃ name, fst entry = OnDocument c name None None
                        ∧ HasSuffix name jar = true
                        ∧ In (BotFile name None) (snd entry)) log.
Proof.
  revert st s k. induction tr as [|e tr IH];
    intros st s k Hwf Hp Hid Hinv Hk Htr; simpl in *.
  - exists st, [], s. rewrite Z.add_0_r. do 2 (split; [done|]).
    split; [|done]. destruct Hinv as [(? & _)|?]; auto.
  - apply andb_true_iff in Htr as [He Htr]. apply negb_true_iff in He.
    destruct (counted_step pw st e c p s Hwf Hp Hid Hinv He)
      as (st1 & acts1 & s1 & -> & Hwf1 & Hp1 & Hid1 & Hinv1 & Hcount1 & Hcall1).
    destruct (IH st1 s1 (k + (if stored_call c (e, acts1) then 1 else 0))
                Hwf1 Hp1 Hid1 Hinv1)
      as (st2 & log & s2 & -> & Hp2 & Hmap2 & Hcount2 & Hlog2); [|done|].
    { rewrite Hcount1, Hk. destruct (stored_call c (e, acts1)).
      - unfold int_incr. apply wrap_int_incr.
      - by rewrite Z.add_0_r. }
    exists st2, ((e, acts1) :: log), s2. do 3 (split; [done|]). split.
    + rewrite Hcount2, stored_calls_cons. f_equal.
      destruct (stored_call c (e, acts1)); lia.
    + by constructor.
Qed.

End PerChatTraces.

(** ** Further facts on traces: the process-wide variant *)

Module SharedAuthTraces.
Import SharedAuth SharedAuthFacts.

Lemma shared_run_app pw st tr1 tr2 :
  run pw st (tr1 ++ tr2) =
    match run pw st tr1 with
    | None => None
    | Some (st1, acts1) =>
      match run pw st1 tr2 with
      | None => None
      | Some (st2, acts2) => Some (st2, acts1 ++ acts2)
      end
    end.
Proof.
  revert st. induction tr1 as [|e tr1 IH]; intros st; simpl.
  - by destruct (run pw st tr2) as [[st2 acts2]|].
  - destruct (step pw st e) as [[st1 acts1]|]; [|done].
    rewrite IH. destruct (run pw st1 tr1) as [[st2 acts2]|]; [|done].
    destruct (run pw st2 tr2) as [[st3 acts3]|]; [|done].
    by rewrite app_assoc.
Qed.

Lemma shared_object_run pw st tr st' acts (p : ptr) s :
  run pw st tr = Some (st', acts) → heap st !! p = Some s →
  ∃ s', heap st' !! p = Some s'
        ∧ chatID s' = chatID s ∧ startTime s' = startTime s
        ∧ (isActive s = false → isActive s' = false).
Proof.
  revert st acts s. induction tr as [|e tr IH]; intros st acts s Hrun Hp;
    simpl in Hrun.
  - injection Hrun as <- <-. eauto.
  - destruct (step pw st e) as [[st1 acts1]|] eqn:Hstep; [|done].
    destruct (run pw st1 tr) as [[st2 acts2]|] eqn:Hrun1; [|done].
    injection Hrun as <- <-.
    destruct (shared_step_object _ _ _ _ _ _ _ Hstep Hp)
      as (s1 & Hp1 & Hid1 & Hstart1 & Hoff1 & _).
    destruct (IH _ _ _ Hrun1 Hp1) as (s2 & Hp2 & Hid2 & Hstart2 & Hoff2).
    exists s2. rewrite Hid2, Hstart2. repeat split; auto.
Qed.

(** While the password has not been entered, an update other than the
    password leaves [isFirstTimeSetup] set and makes no file call. *)
Lemma locked_step pw st e :
  wf st → isFirstTimeSetup st = true → is_password pw e = false →
  ∃ st' acts,
    step pw st e = Some (st', acts) ∧ wf st' ∧ isFirstTimeSetup st' = true
    ∧ forallb (λ a, negb (is_file_call a)) acts = true.
Proof.
  intros Hwf Hflag Hpw.
  destruct (shared_wf_step pw st e Hwf) as (st' & acts & Hstep & Hwf').
  exists st', acts. do 2 (split; [done|]).
  destruct e as [c|c now|c now|c|c name fe ue|c text|c res|c res];
    simpl in Hstep, Hpw.
  - by injection Hstep as <- <-.
  - rewrite handleUpload_eq in Hstep. injection Hstep as <- <-.
    split; [done|]. by destruct (isFirstTimeSetup st).
  - unfold handleDone in Hstep.
    repeat case_match; try discriminate; by injection Hstep as <- <-.
  - unfold handleCancel in Hstep.
    repeat case_match; try discriminate; by injection Hstep as <- <-.
  - unfold handleDocument in Hstep. rewrite Hflag in Hstep.
    repeat case_match; try discriminate; by injection Hstep as <- <-.
  - unfold handleText in Hstep. rewrite Hpw in Hstep.
    repeat case_match; try discriminate; by injection Hstep as <- <-.
  - injection Hstep as <- <-. split; [done|].
    unfold listReply. by repeat case_match.
  - injection Hstep as <- <-. split; [done|].
    unfold quantityReply. by repeat case_match.
Qed.

Lemma locked_run pw st tr :
  wf st → isFirstTimeSetup st = true →
  forallb (λ e, negb (is_password pw e)) tr = true →
  ∃ st' acts,
    run pw st tr = Some (st', acts) ∧ isFirstTimeSetup st' = true
    ∧ forallb (λ a, negb (is_file_call a)) acts = true.
Proof.
  revert st. induction tr as [|e tr IH]; intros st Hwf Hflag Htr;
    simpl in *; [by eauto|].
  apply andb_true_iff in Htr as [He Htr]. apply negb_true_iff in He.
  destruct (locked_step pw st e Hwf Hflag He)
    as (st1 & acts1 & -> & Hwf1 & Hflag1 & Hacts1).
  destruct (IH st1 Hwf1 Hflag1 Htr) as (st2 & acts2 & -> & Hflag2 & Hacts2).
  exists st2, (acts1 ++ acts2). repeat split; [done|].
  rewrite forallb_app. by rewrite Hacts1, Hacts2.
Qed.

(** Only [/upload] of a conversation gives it a session. *)
Lemma shared_no_session_step pw st e st' acts c :
  uploadSessions st !! c = None → is_upload_of c e = false →
  step pw st e = Some (st', acts) → uploadSessions st' !! c = None.
Proof.
  intros Hc Hup Hstep.
  destruct e as [c'|c' now|c' now|c'|c' name fe ue|c' text|c' res|c' res];
    simpl in Hstep, Hup.
  - by injection Hstep as <- <-.
  - rewrite handleUpload_eq in Hstep. injection Hstep as <- <-. simpl.
    apply bool_decide_eq_false in Hup. by rewrite lookup_insert_ne.
  - unfold handleDone in Hstep.
    repeat case_match; try discriminate; injection Hstep as <- <-;
      simpl; by rewrite ?lookup_delete_None; auto.
  - unfold handleCancel in Hstep.
    repeat case_match; try discriminate; injection Hstep as <- <-;
      simpl; by rewrite ?lookup_delete_None; auto.
  - unfold handleDocument in Hstep.
    repeat case_match; try discriminate; by injection Hstep as <- <-.
  - unfold handleText in Hstep.
    repeat case_match; try discriminate; injection Hstep as <- <-;
      simpl; by rewrite ?lookup_delete_None; auto.
  - by injection Hstep as <- <-.
  - by injection Hstep as <- <-.
Qed.

Lemma shared_no_session_run pw st tr st' acts c :
  uploadSessions st !! c = None →
  forallb (λ e, negb (is_upload_of c e)) tr = true →
  run pw st tr = Some (st', acts) → uploadSessions st' !! c = None.
Proof.
  revert st acts. induction tr as [|e tr IH]; intros st acts Hc Htr Hrun;
    simpl in *.
  - by injection Hrun as <- <-.
  - apply andb_true_iff in Htr as [He Htr]. apply negb_true_iff in He.
    destruct (step pw st e) as [[st1 acts1]|] eqn:Hstep; [|done].
    destruct (run pw st1 tr) as [[st2 acts2]|] eqn:Hrun1; [|done].
    injection Hrun as <- <-.
    eapply IH; [|done..]. by eapply shared_no_session_step.
Qed.

(** [/start], [/list] and [/quantity] leave the state as it is. *)
Lemma shared_query_step pw st e :
  is_query e = true → ∃ acts, step pw st e = Some (st, acts).
Proof. destruct e; try done; intros _; simpl; by eauto. Qed.

(** A handler sends to the conversation of its update only. *)
Lemma shared_step_replies_other pw st e st' acts c :
  step pw st e = Some (st', acts) → event_chat e ≠ c → replies_to c acts = [].
Proof.
  intros Hstep Hne.
  destruct e as [c'|c' now|c' now|c'|c' name fe ue|c' text|c' res|c' res];
    simpl in Hstep, Hne.
  - injection Hstep as <- <-. unfold replies_to. simpl.
    by rewrite bool_decide_eq_false_2.
  - rewrite handleUpload_eq in Hstep. injection Hstep as <- <-.
    unfold replies_to. simpl. by rewrite bool_decide_eq_false_2.
  - unfold handleDone in Hstep.
    repeat case_match; try discriminate; injection Hstep as <- <-;
      unfold replies_to; simpl; by rewrite bool_decide_eq_false_2.
  - unfold handleCancel in Hstep.
    repeat case_match; try discriminate; injection Hstep as <- <-;
      unfold replies_to; simpl; by rewrite bool_decide_eq_false_2.
  - unfold handleDocument in Hstep.
    repeat case_match; try discriminate; injection Hstep as <- <-;
      unfold replies_to; simpl; by rewrite !bool_decide_eq_false_2.
  - unfold handleText in Hstep.
    repeat case_match; try discriminate; injection Hstep as <- <-;
      unfold replies_to; simpl; by rewrite ?bool_decide_eq_false_2.
  - injection Hstep as <- <-. unfold replies_to, listReply.
    repeat case_match; simpl; by rewrite bool_decide_eq_false_2.
  - injection Hstep as <- <-. unfold replies_to, quantityReply.
    repeat case_match; simpl; by rewrite bool_decide_eq_false_2.
Qed.

Lemma shared_run_log_run pw st tr :
  run pw st tr
  = (λ r, (fst r, concat (snd <$> snd r))) <$> run_log pw st tr.
Proof.
  revert st. induction tr as [|e tr IH]; intros st; simpl; [done|].
  destruct (step pw st e) as [[st1 acts1]|]; [|done].
  rewrite IH. by destruct (run_log pw st1 tr) as [[st2 log]|].
Qed.

Lemma shared_run_log_events pw st tr st' log :
  run_log pw st tr = Some (st', log) → fst <$> log = tr.
Proof.
  revert st st' log. induction tr as [|e tr IH]; intros st st' log; simpl.
  - by intros [= <- <-].
  - destruct (step pw st e) as [[st1 acts1]|]; [|done].
    destruct (run_log pw st1 tr) as [[st2 log2]|] eqn:Hlog; [|done].
    intros [= <- <-]. simpl. f_equal. by eapply IH.
Qed.

(** The handler of an update of another conversation writes neither the
    session objects of [c] nor the entry of [c] in the map. *)
Lemma shared_step_frame pw st e c (p : ptr) s :
  wf st → heap st !! p = Some s → chatID s = c → event_chat e ≠ c →
  ∃ st' acts,
    step pw st e = Some (st', acts) ∧ wf st'
    ∧ heap st' !! p = Some s
    ∧ uploadSessions st' !! c = uploadSessions st !! c.
Proof.
  intros Hwf Hp Hid Hne.
  destruct (shared_wf_step pw st e Hwf) as (st' & acts & Hstep & Hwf').
  exists st', acts. split; [done|]. split; [done|].
  assert (Hq : ∀ q, uploadSessions st !! event_chat e = Some q → q ≠ p).
  { intros q Hq ->. apply Hne.
    destruct (shared_wf_lookup _ _ _ Hwf Hq) as (s0 & Hs0 & Hid0).
    congruence. }
  destruct e as [c'|c' now|c' now|c'|c' name fe ue|c' text|c' res|c' res];
    simpl in Hstep, Hne, Hq.
  - by injection Hstep as <- <-.
  - rewrite handleUpload_eq in Hstep. injection Hstep as <- <-. simpl.
    rewrite lookup_insert_ne by done. by rewrite (lookup_app_l_Some _ _ _ _ Hp).
  - unfold handleDone in Hstep.
    repeat case_match; try discriminate; injection Hstep as <- <-; try done.
    simpl. rewrite lookup_delete_ne by done.
    rewrite list_lookup_insert_ne by (by apply Hq). done.
  - unfold handleCancel in Hstep.
    repeat case_match; try discriminate; injection Hstep as <- <-; try done.
    simpl. rewrite lookup_delete_ne by done.
    rewrite list_lookup_insert_ne by (by apply Hq). done.
  - unfold handleDocument in Hstep.
    repeat case_match; try discriminate; injection Hstep as <- <-; try done.
    simpl. rewrite list_lookup_insert_ne by (by apply Hq). done.
  - unfold handleText in Hstep.
    repeat case_match; try discriminate; injection Hstep as <- <-; try done.
    simpl. rewrite lookup_delete_ne by done.
    rewrite list_lookup_insert_ne by (by apply Hq). done.
  - by injection Hstep as <- <-.
  - by injection Hstep as <- <-.
Qed.

(** One handler, seen from the session object [p] of conversation [c],
    once the password has been entered.  As long as no [/upload] of [c] is
    handled, [p] is the session of [c], active, or [c] has no session; and
    the handler adds one to the counter of [p] exactly when it made a call
    to [uploadFile] for a document of [c] that returned [nil]. *)
Lemma shared_counted_step pw st e c (p : ptr) s :
  wf st → isFirstTimeSetup st = false →
  heap st !! p = Some s → chatID s = c →
  (uploadSessions st !! c = Some p ∧ isActive s = true)
  ∨ uploadSessions st !! c = None →
  is_upload_of c e = false →
  ∃ st' acts s',
    step pw st e = Some (st', acts) ∧ wf st'
    ∧ isFirstTimeSetup st' = false
    ∧ heap st' !! p = Some s' ∧ chatID s' = c
    ∧ ((uploadSessions st' !! c = Some p ∧ isActive s' = true)
       ∨ uploadSessions st' !! c = None)
    ∧ uploadCount s' =
        (if stored_call c (e, acts) then int_incr (uploadCount s)
         else uploadCount s)
    ∧ (stored_call c (e, acts) = true →
       ∃ name, e = OnDocument c name None None
               ∧ HasSuffix name jar = true
               ∧ In (BotFile name None) acts).
Proof.
  intros Hwf Hflag Hp Hid Hinv Hup.
  destruct (decide (event_chat e = c)) as [Heq|Hne].
  2:{ destruct (shared_step_frame pw st e c p s Hwf Hp Hid Hne)
        as (st' & acts & Hstep & Hwf' & Hp' & Hmap).
      exists st', acts, s.
      rewrite Hmap, (stored_call_other _ _ _ Hne).
      do 2 (split; [done|]). split; [by eapply flag_step|].
      by do 4 (split; [done|]). }
  destruct (shared_wf_step pw st e Hwf) as (st' & acts & Hstep & Hwf').
  exists st', acts. rewrite Hstep.
  assert (Hflag' := flag_step _ _ _ _ _ Hflag Hstep).
  assert (Hlt : (p < List.length (heap st))%nat) by (by eapply lookup_lt_Some).
  destruct Hinv as [(Hc & Hact)|Hnone].
  - destruct e as [c'|c' now|c' now|c'|c' name fe ue|c' text|c' res|c' res];
      simpl in Heq, Hup, Hstep; subst c'.
    + injection Hstep as <- <-. exists s. by do 6 (split; [auto|]).
    + by rewrite bool_decide_eq_true_2 in Hup.
    + unfold handleDone in Hstep. rewrite Hc, Hp, Hact in Hstep.
      simpl in Hstep. injection Hstep as <- <-. exists (set_inactive s).
      simpl. rewrite list_lookup_insert_eq by done.
      rewrite lookup_delete_eq. by do 6 (split; [auto|]).
    + unfold handleCancel in Hstep. rewrite Hc, Hp, Hact in Hstep.
      simpl in Hstep. injection Hstep as <- <-. exists (set_inactive s).
      simpl. rewrite list_lookup_insert_eq by done.
      rewrite lookup_delete_eq. by do 6 (split; [auto|]).
    + rewrite (shared_handleDocument_uploading _ _ _ _ _ _ _
                 (conj Hc Hp) Hact Hflag) in Hstep.
      unfold stored_call. simpl. rewrite bool_decide_eq_true_2 by done.
      destruct (HasSuffix name jar) eqn:Hjar; simpl in Hstep.
      * destruct fe as [err|], ue as [err'|]; injection Hstep as <- <-;
          simpl; try (exists s; by do 6 (split; [auto|])).
        exists (incr_uploadCount s). simpl.
        rewrite list_lookup_insert_eq by done. rewrite String.eqb_refl.
        simpl. do 6 (split; [auto|]). split; [done|].
        intros _. exists name. auto.
      * injection Hstep as <- <-. simpl. exists s.
        by do 6 (split; [auto|]).
    + unfold handleText in Hstep. rewrite Hc, Hp, Hact, Hflag in Hstep.
      simpl in Hstep. injection Hstep as <- <-. exists s.
      by do 6 (split; [auto|]).
    + injection Hstep as <- <-. exists s. by do 6 (split; [auto|]).
    + injection Hstep as <- <-. exists s. by do 6 (split; [auto|]).
  - destruct e as [c'|c' now|c' now|c'|c' name fe ue|c' text|c' res|c' res];
      simpl in Heq, Hup, Hstep; subst c'.
    + injection Hstep as <- <-. exists s. by do 6 (split; [auto|]).
    + by rewrite bool_decide_eq_true_2 in Hup.
    + unfold handleDone in Hstep. rewrite Hnone in Hstep.
      injection Hstep as <- <-. exists s. by do 6 (split; [auto|]).
    + unfold handleCancel in Hstep. rewrite Hnone in Hstep.
      injection Hstep as <- <-. exists s. by do 6 (split; [auto|]).
    + unfold handleDocument in Hstep. rewrite Hnone in Hstep.
      injection Hstep as <- <-. exists s. unfold stored_call. simpl.
      rewrite andb_false_r. by do 6 (split; [auto|]).
    + unfold handleText in Hstep. rewrite Hnone in Hstep.
      injection Hstep as <- <-. exists s. by do 6 (split; [auto|]).
    + injection Hstep as <- <-. exists s. by do 6 (split; [auto|]).
    + injection Hstep as <- <-. exists s. by do 6 (split; [auto|]).
Qed.

Lemma shared_counted_run pw st tr c (p : ptr) s k :
  wf st → isFirstTimeSetup st = false →
  heap st !! p = Some s → chatID s = c →
  (uploadSessions st !! c = Some p ∧ isActive s = true)
  ∨ uploadSessions st !! c = None →
  uploadCount s = wrap_int k →
  forallb (λ e, negb (is_upload_of c e)) tr = true →
  ∃ st' log s',
    run_log pw st tr = Some (st', log)
    ∧ heap st' !! p = Some s'
    ∧ (uploadSessions st' !! c = Some p ∨ uploadSessions st' !! c = None)
    ∧ uploadCount s' = wrap_int (k + Z.of_nat (stored_calls c log))
    ∧ Forall (λ entry,
                stored_call c entry = true →
                ∃ name, fst entry = OnDocument c name None None
                        ∧ HasSuffix name jar = true
                        ∧ In (BotFile name None) (snd entry)) log.
Proof.
  revert st s k. induction tr as [|e tr IH];
    intros st s k Hwf Hflag Hp Hid Hinv Hk Htr; simpl in *.
  - exists st, [], s. rewrite Z.add_0_r. do 2 (split; [done|]).
    split; [|done]. destruct Hinv as [(? & _)|?]; auto.
  - apply andb_true_iff in Htr as [He Htr]. apply negb_true_iff in He.
    destruct (shared_counted_step pw st e c p s Hwf Hflag Hp Hid Hinv He)
      as (st1 & acts1 & s1 & -> & Hwf1 & Hflag1 & Hp1 & Hid1 & Hinv1
          & Hcount1 & Hcall1).
    destruct (IH st1 s1 (k + (if stored_call c (e, acts1) then 1 else 0))
                Hwf1 Hflag1 Hp1 Hid1 Hinv1)
      as (st2 & log & s2 & -> & Hp2 & Hmap2 & Hcount2 & Hlog2); [|done|].
    { rewrite Hcount1, Hk. destruct (stored_call c (e, acts1)).
      - unfold int_incr. apply wrap_int_incr.
      - by rewrite Z.add_0_r. }
    exists st2, ((e, acts1) :: log), s2. do 3 (split; [done|]). split.
    + rewrite Hcount2, stored_calls_cons. f_equal.
      destruct (stored_call c (e, acts1)); lia.
    + by constructor.
Qed.

End SharedAuthTraces.

(** ** The counter and the storage calls *)

(** C1, as stated, fails.  "After every trace from a fresh authenticated
    session the session's [uploadCount] is the number of stored documents"
    is false in both variants, whichever object is taken for the session,
    the one the trace started with or the one the conversation has at the
    end.  Conversation 7 has a fresh authenticated session, object 0;
    [a.jar] is stored; [/upload] of conversation 7 puts a new object 1
    under the key (and the password is entered again, in the per-session
    variant); [b.jar] is stored.  Two calls to [uploadFile] returned
    [nil], and both objects end with [uploadCount] 1. *)
Lemma uploadCount_split_by_upload :
  ¬ (∀ tr st (p : ptr) s,
       PerChat.wf st → PerChat.session_of st 7 p s →
       PerChat.isActive s = true → PerChat.authenticated s = true →
       PerChat.uploadCount s = 0 →
       ∃ st' log (p' : ptr) s',
         PerChat.run_log "pw" st tr = Some (st', log)
         ∧ (p' = p ∨ PerChat.uploadSessions st' !! 7 = Some p')
         ∧ PerChat.heap st' !! p' = Some s'
         ∧ PerChat.uploadCount s' = Z.of_nat (stored_calls 7 log))
  ∧ ¬ (∀ tr st (p : ptr) s,
         SharedAuth.wf st → SharedAuth.session_of st 7 p s →
         SharedAuth.isActive s = true →
         SharedAuth.isFirstTimeSetup st = false →
         SharedAuth.uploadCount s = 0 →
         ∃ st' log (p' : ptr) s',
           SharedAuth.run_log "pw" st tr = Some (st', log)
           ∧ (p' = p ∨ SharedAuth.uploadSessions st' !! 7 = Some p')
           ∧ SharedAuth.heap st' !! p' = Some s'
           ∧ SharedAuth.uploadCount s' = Z.of_nat (stored_calls 7 log)).
Proof.
  split.
  - intros Hclaim.
    destruct (Hclaim [OnDocument 7 "a.jar" None None; CmdUpload 7 200;
                      OnText 7 "pw"; OnDocument 7 "b.jar" None None]
                (PerChat.uploading_state 0) 0%nat
                (PerChat.mkSession 7 true 0 100 true)
                (PerChatFacts.wf_uploading_state 0))
      as (st' & log & p' & s' & Hrun & Hp' & Hs' & Hcount);
      [split; reflexivity|reflexivity..|].
    assert (Hrun0 :
      PerChat.run_log "pw" (PerChat.uploading_state 0)
        [OnDocument 7 "a.jar" None None; CmdUpload 7 200;
         OnText 7 "pw"; OnDocument 7 "b.jar" None None]
      = Some (PerChat.mkState
                [PerChat.mkSession 7 true 1 100 true;
                 PerChat.mkSession 7 true 1 200 true]
                (<[7 := 1%nat]> {[ 7 := 0%nat ]}),
              [(OnDocument 7 "a.jar" None None,
                [Send 7 (MsgProgress "a.jar" 0); BotFile "a.jar" None;
                 DriveUpload "a.jar" None; Send 7 (MsgUploaded "a.jar" 1)]);
               (CmdUpload 7 200, [Send 7 MsgPromptPassword]);
               (OnText 7 "pw", [Send 7 MsgPasswordAccepted]);
               (OnDocument 7 "b.jar" None None,
                [Send 7 (MsgProgress "b.jar" 0); BotFile "b.jar" None;
                 DriveUpload "b.jar" None; Send 7 (MsgUploaded "b.jar" 1)])]))
      by reflexivity.
    rewrite Hrun0 in Hrun. injection Hrun as <- <-.
    change (PerChat.uploadCount s' = 2) in Hcount. simpl in Hp', Hs'.
    assert (Hcases : p' = 0%nat ∨ p' = 1%nat).
    { destruct Hp' as [?|Hp']; [by left|right].
      rewrite lookup_insert_eq in Hp'. by injection Hp'. }
    destruct Hcases as [-> | ->]; injection Hs' as <-; discriminate Hcount.
  - intros Hclaim.
    destruct (Hclaim [OnDocument 7 "a.jar" None None; CmdUpload 7 200;
                      OnDocument 7 "b.jar" None None]
                (SharedAuth.uploading_state 0) 0%nat
                (SharedAuth.mkSession 7 true 0 100)
                (SharedAuthFacts.shared_wf_uploading_state 0))
      as (st' & log & p' & s' & Hrun & Hp' & Hs' & Hcount);
      [split; reflexivity|reflexivity..|].
    assert (Hrun0 :
      SharedAuth.run_log "pw" (SharedAuth.uploading_state 0)
        [OnDocument 7 "a.jar" None None; CmdUpload 7 200;
         OnDocument 7 "b.jar" None None]
      = Some (SharedAuth.mkState
                [SharedAuth.mkSession 7 true 1 100;
                 SharedAuth.mkSession 7 true 1 200]
                (<[7 := 1%nat]> {[ 7 := 0%nat ]}) false,
              [(OnDocument 7 "a.jar" None None,
                [Send 7 (MsgProgress "a.jar" 0); BotFile "a.jar" None;
                 DriveUpload "a.jar" None; Send 7 (MsgUploaded "a.jar" 1)]);
               (CmdUpload 7 200, [Send 7 MsgSessionStarted]);
               (OnDocument 7 "b.jar" None None,
                [Send 7 (MsgProgress "b.jar" 0); BotFile "b.jar" None;
                 DriveUpload "b.jar" None; Send 7 (MsgUploaded "b.jar" 1)])]))
      by reflexivity.
    rewrite Hrun0 in Hrun. injection Hrun as <- <-.
    change (SharedAuth.uploadCount s' = 2) in Hcount. simpl in Hp', Hs'.
    assert (Hcases : p' = 0%nat ∨ p' = 1%nat).
    { destruct Hp' as [?|Hp']; [by left|right].
      rewrite lookup_insert_eq in Hp'. by injection Hp'. }
    destruct Hcases as [-> | ->]; injection Hs' as <-; discriminate Hcount.
Qed.

(** C1, amended.  Take a conversation whose session is fresh (active,
    counter 0) and authenticated, and a trace with no [/upload] of that
    conversation, handled serially: each handler returns before the next
    update is dispatched.  ([/done], [/cancel], texts and updates of other
    conversations may occur anywhere.)  After the trace the [uploadCount]
    of that session object is the number of document updates of the
    conversation whose handler called [uploadFile] and got [nil]; each of
    them is named [*.jar] and was fetched with [b.File] first.  On the
    64-bit [int] the number is taken modulo 2^64, which is the number
    itself as long as it fits.  One handler, for the session as it is when
    the handler starts: a document that is not named [*.jar], or whose
    download or storage fails, leaves the whole state, so the counter, as
    it was, and no call of [uploadFile] returned [nil]; a document named
    [*.jar] that downloads and is stored adds one. *)
Theorem uploadCount_counts_storage_calls
    (pw : string) (c : Z) (tr : list Event) :
  forallb (λ e, negb (is_upload_of c e)) tr = true →
  (∀ st (p : ptr) s,
     PerChat.wf st → PerChat.session_of st c p s →
     PerChat.isActive s = true → PerChat.authenticated s = true →
     PerChat.uploadCount s = 0 →
     (∃ st' log s',
        PerChat.run_log pw st tr = Some (st', log)
        ∧ fst <$> log = tr
        ∧ PerChat.heap st' !! p = Some s'
        ∧ (PerChat.uploadSessions st' !! c = Some p
           ∨ PerChat.uploadSessions st' !! c = None)
        ∧ PerChat.uploadCount s' = wrap_int (Z.of_nat (stored_calls c log))
        ∧ (Z.of_nat (stored_calls c log) ≤ int_max →
           PerChat.uploadCount s' = Z.of_nat (stored_calls c log))
        ∧ Forall (λ entry,
                    stored_call c entry = true →
                    ∃ name, fst entry = OnDocument c name None None
                            ∧ HasSuffix name jar = true
                            ∧ In (BotFile name None) (snd entry)) log)
     ∧ (∀ name fe ue,
          HasSuffix name jar = false ∨ fe ≠ None ∨ ue ≠ None →
          ∃ acts,
            PerChat.step pw st (OnDocument c name fe ue) = Some (st, acts)
            ∧ stored_call c (OnDocument c name fe ue, acts) = false)
     ∧ (∀ name,
          HasSuffix name jar = true →
          ∃ st1 acts,
            PerChat.step pw st (OnDocument c name None None)
            = Some (st1, acts)
            ∧ PerChat.session_of st1 c p (PerChat.incr_uploadCount s)
            ∧ stored_call c (OnDocument c name None None, acts) = true))
  ∧ (∀ st (p : ptr) s,
       SharedAuth.wf st → SharedAuth.session_of st c p s →
       SharedAuth.isActive s = true → SharedAuth.isFirstTimeSetup st = false →
       SharedAuth.uploadCount s = 0 →
       (∃ st' log s',
          SharedAuth.run_log pw st tr = Some (st', log)
          ∧ fst <$> log = tr
          ∧ SharedAuth.heap st' !! p = Some s'
          ∧ (SharedAuth.uploadSessions st' !! c = Some p
             ∨ SharedAuth.uploadSessions st' !! c = None)
          ∧ SharedAuth.uploadCount s'
            = wrap_int (Z.of_nat (stored_calls c log))
          ∧ (Z.of_nat (stored_calls c log) ≤ int_max →
             SharedAuth.uploadCount s' = Z.of_nat (stored_calls c log))
          ∧ Forall (λ entry,
                      stored_call c entry = true →
                      ∃ name, fst entry = OnDocument c name None None
                              ∧ HasSuffix name jar = true
                              ∧ In (BotFile name None) (snd entry)) log)
       ∧ (∀ name fe ue,
            HasSuffix name jar = false ∨ fe ≠ None ∨ ue ≠ None →
            ∃ acts,
              SharedAuth.step pw st (OnDocument c name fe ue)
              = Some (st, acts)
              ∧ stored_call c (OnDocument c name fe ue, acts) = false)
       ∧ (∀ name,
            HasSuffix name jar = true →
            ∃ st1 acts,
              SharedAuth.step pw st (OnDocument c name None None)
              = Some (st1, acts)
              ∧ SharedAuth.session_of st1 c p (SharedAuth.incr_uploadCount s)
              ∧ stored_call c (OnDocument c name None None, acts) = true)).
Proof.
  intros Htr. split.
  - intros st p s Hwf Hs Hact Hauth Hzero.
    destruct (PerChatFacts.wf_lookup _ _ _ Hwf (proj1 Hs)) as (s0 & Hs0 & Hid).
    assert (s0 = s) as -> by (destruct Hs as [_ Hp]; congruence).
    split; [|split].
    + destruct (PerChatTraces.counted_run pw st tr c p s 0 Hwf Hs0 Hid)
        as (st' & log & s' & Hrun & Hp' & Hmap & Hcount & Hlog);
        [left; by destruct Hs|by rewrite Hzero|done|].
      exists st', log, s'. rewrite Z.add_0_l in Hcount.
      split; [done|]. split; [by eapply PerChatTraces.run_log_events|].
      do 3 (split; [done|]). split; [|done].
      intros Hfit. rewrite Hcount. apply wrap_int_small.
      unfold int_min. lia.
    + intros name fe ue Hfail. simpl.
      rewrite (PerChatFacts.handleDocument_uploading _ _ _ _ _ _ _
                 Hs Hact Hauth).
      unfold stored_call. simpl. rewrite bool_decide_eq_true_2 by done.
      destruct (HasSuffix name jar); simpl; [|by eauto].
      destruct fe, ue; simpl; eauto. by destruct Hfail as [?|[?|?]].
    + intros name Hjar. simpl.
      rewrite (PerChatFacts.handleDocument_uploading _ _ _ _ _ _ _
                 Hs Hact Hauth), Hjar. simpl.
      do 2 eexists. split; [done|]. split.
      * destruct Hs as [Hc Hp]. split; [done|]. simpl.
        by rewrite list_lookup_insert_eq by (by eapply lookup_lt_Some).
      * unfold stored_call. simpl.
        by rewrite bool_decide_eq_true_2, String.eqb_refl.
  - intros st p s Hwf Hs Hact Hflag Hzero.
    destruct (SharedAuthFacts.shared_wf_lookup _ _ _ Hwf (proj1 Hs))
      as (s0 & Hs0 & Hid).
    assert (s0 = s) as -> by (destruct Hs as [_ Hp]; congruence).
    split; [|split].
    + destruct (SharedAuthTraces.shared_counted_run pw st tr c p s 0
                  Hwf Hflag Hs0 Hid)
        as (st' & log & s' & Hrun & Hp' & Hmap & Hcount & Hlog);
        [left; by destruct Hs|by rewrite Hzero|done|].
      exists st', log, s'. rewrite Z.add_0_l in Hcount.
      split; [done|].
      split; [by eapply SharedAuthTraces.shared_run_log_events|].
      do 3 (split; [done|]). split; [|done].
      intros Hfit. rewrite Hcount. apply wrap_int_small.
      unfold int_min. lia.
    + intros name fe ue Hfail. simpl.
      rewrite (SharedAuthFacts.shared_handleDocument_uploading _ _ _ _ _ _ _
                 Hs Hact Hflag).
      unfold stored_call. simpl. rewrite bool_decide_eq_true_2 by done.
      destruct (HasSuffix name jar); simpl; [|by eauto].
      destruct fe, ue; simpl; eauto. by destruct Hfail as [?|[?|?]].
    + intros name Hjar. simpl.
      rewrite (SharedAuthFacts.shared_handleDocument_uploading _ _ _ _ _ _ _
                 Hs Hact Hflag), Hjar. simpl.
      do 2 eexists. split; [done|]. split.
      * destruct Hs as [Hc Hp]. split; [done|]. simpl.
        by rewrite list_lookup_insert_eq by (by eapply lookup_lt_Some).
      * unfold stored_call. simpl.
        by rewrite bool_decide_eq_true_2, String.eqb_refl.
Qed.

Lemma uploadCount_counts_storage_calls_witness :
  (∃ st' log s',
     PerChat.run_log "pw" (PerChat.uploading_state 0) scenario_late_document
     = Some (st', log)
     ∧ fst <$> log = scenario_late_document
     ∧ PerChat.heap st' !! 0%nat = Some s'
     ∧ PerChat.uploadCount s' = wrap_int (Z.of_nat (stored_calls 7 log)))
  ∧ (∃ st' log s',
       SharedAuth.run_log "pw" (SharedAuth.uploading_state 0)
         scenario_late_document
       = Some (st', log)
       ∧ fst <$> log = scenario_late_document
       ∧ SharedAuth.heap st' !! 0%nat = Some s'
       ∧ SharedAuth.uploadCount s' = wrap_int (Z.of_nat (stored_calls 7 log))).
Proof.
  destruct (uploadCount_counts_storage_calls "pw" 7 scenario_late_document)
    as [HP HS]; [reflexivity|].
  split.
  - destruct (HP (PerChat.uploading_state 0) 0%nat
                 (PerChat.mkSession 7 true 0 100 true))
      as ((st' & log & s' & Hrun & Hev & Hp & _ & Hcount & _) & _);
      [apply PerChatFacts.wf_uploading_state|split; reflexivity
      |reflexivity..|].
    exists st', log, s'. exact (conj Hrun (conj Hev (conj Hp Hcount))).
  - destruct (HS (SharedAuth.uploading_state 0) 0%nat
                 (SharedAuth.mkSession 7 true 0 100))
      as ((st' & log & s' & Hrun & Hev & Hp & _ & Hcount & _) & _);
      [apply SharedAuthFacts.shared_wf_uploading_state|split; reflexivity
      |reflexivity..|].
    exists st', log, s'. exact (conj Hrun (conj Hev (conj Hp Hcount))).
Defined.

(** That run, computed: two documents are stored and
    counted; the text file is refused; the mod sent after [/done] is
    answered with the no-session message, neither fetched nor stored, and
    not counted, though the update says its download and storage would
    succeed. *)
Example late_document_is_not_counted :
  PerChat.run_log "pw" (PerChat.uploading_state 0) scenario_late_document
  = Some (PerChat.mkState [PerChat.mkSession 7 false 2 100 true] ∅,
          [ (OnDocument 7 "mod1.jar" None None,
             [Send 7 (MsgProgress "mod1.jar" 0); BotFile "mod1.jar" None;
              DriveUpload "mod1.jar" None; Send 7 (MsgUploaded "mod1.jar" 1)]);
            (OnDocument 7 "readme.txt" None None, [Send 7 MsgOnlyJar]);
            (OnDocument 7 "mod2.jar" None None,
             [Send 7 (MsgProgress "mod2.jar" 1); BotFile "mod2.jar" None;
              DriveUpload "mod2.jar" None; Send 7 (MsgUploaded "mod2.jar" 2)]);
            (CmdDone 7 160, [Send 7 (MsgCompleted 2 100 160)]);
            (OnDocument 7 "late.jar" None None,
             [Send 7 MsgNoSessionUseUpload]) ])
  ∧ stored_calls 7
      [ (OnDocument 7 "mod1.jar" None None,
         [Send 7 (MsgProgress "mod1.jar" 0); BotFile "mod1.jar" None;
          DriveUpload "mod1.jar" None; Send 7 (MsgUploaded "mod1.jar" 1)]);
        (OnDocument 7 "readme.txt" None None, [Send 7 MsgOnlyJar]);
        (OnDocument 7 "mod2.jar" None None,
         [Send 7 (MsgProgress "mod2.jar" 1); BotFile "mod2.jar" None;
          DriveUpload "mod2.jar" None; Send 7 (MsgUploaded "mod2.jar" 2)]);
        (CmdDone 7 160, [Send 7 (MsgCompleted 2 100 160)]);
        (OnDocument 7 "late.jar" None None,
         [Send 7 MsgNoSessionUseUpload]) ]
    = 2%nat.
Proof. split; reflexivity. Qed.

(** ** Further properties of the handlers *)

(** X1. Nothing is fetched or stored before the password is entered: in a
    run from the initial state (with no flag file found, in the process-wide
    variant) in which no text is the password, no handler calls [b.File] or
    [uploadFile]. *)
Theorem no_file_call_without_password (pw : string) (tr : list Event) :
  forallb (λ e, negb (is_password pw e)) tr = true →
  (∃ st acts,
     PerChat.run pw PerChat.init tr = Some (st, acts)
     ∧ forallb (λ a, negb (is_file_call a)) acts = true)
  ∧ (∃ st acts,
       SharedAuth.run pw (SharedAuth.init false) tr = Some (st, acts)
       ∧ forallb (λ a, negb (is_file_call a)) acts = true).
Proof.
  intros Htr. split.
  - destruct (PerChatTraces.unauthenticated_run pw PerChat.init tr)
      as (st & acts & Hrun & _ & Hacts);
      [apply PerChatFacts.wf_init| |done|by eauto].
    intros p s Hp. simpl in Hp. by rewrite lookup_nil in Hp.
  - destruct (SharedAuthTraces.locked_run pw (SharedAuth.init false) tr)
      as (st & acts & Hrun & _ & Hacts);
      [apply SharedAuthFacts.shared_wf_init|done|done|by eauto].
Qed.

Lemma no_file_call_without_password_witness :
  (∃ st acts,
     PerChat.run "secret" PerChat.init
       [CmdUpload 7 100; OnDocument 7 "mod1.jar" None None;
        OnText 7 "guess"; OnDocument 7 "mod1.jar" None None]
     = Some (st, acts)
     ∧ forallb (λ a, negb (is_file_call a)) acts = true)
  ∧ (∃ st acts,
       SharedAuth.run "secret" (SharedAuth.init false)
         [CmdUpload 7 100; OnDocument 7 "mod1.jar" None None;
          OnText 7 "guess"; OnDocument 7 "mod1.jar" None None]
       = Some (st, acts)
       ∧ forallb (λ a, negb (is_file_call a)) acts = true).
Proof.
  apply (no_file_call_without_password "secret"
           [CmdUpload 7 100; OnDocument 7 "mod1.jar" None None;
            OnText 7 "guess"; OnDocument 7 "mod1.jar" None None]).
  reflexivity.
Defined.

(** X2. From the initial state every trace is handled to the end without a
    handler reading through a pointer that designates no session; in the
    state reached every key of the map designates a session object whose
    [chatID] is that key, and no two keys share an object. *)
Theorem handlers_never_fault (pw : string) (tr : list Event) :
  (∃ st acts,
     PerChat.run pw PerChat.init tr = Some (st, acts)
     ∧ (∀ c p, PerChat.uploadSessions st !! c = Some p →
          ∃ s, PerChat.heap st !! p = Some s ∧ PerChat.chatID s = c)
     ∧ (∀ c c' p, PerChat.uploadSessions st !! c = Some p →
          PerChat.uploadSessions st !! c' = Some p → c = c'))
  ∧ (∀ flagFileFound, ∃ st acts,
       SharedAuth.run pw (SharedAuth.init flagFileFound) tr = Some (st, acts)
       ∧ (∀ c p, SharedAuth.uploadSessions st !! c = Some p →
            ∃ s, SharedAuth.heap st !! p = Some s ∧ SharedAuth.chatID s = c)
       ∧ (∀ c c' p, SharedAuth.uploadSessions st !! c = Some p →
            SharedAuth.uploadSessions st !! c' = Some p → c = c')).
Proof.
  split.
  - destruct (PerChatFacts.wf_run pw PerChat.init tr PerChatFacts.wf_init)
      as (st & acts & Hrun & Hwf).
    exists st, acts. split; [done|]. split.
    + intros c p. by apply PerChatFacts.wf_lookup.
    + intros c c' p. by apply PerChatFacts.wf_no_alias.
  - intros b.
    destruct (SharedAuthFacts.shared_wf_run pw (SharedAuth.init b) tr
                (SharedAuthFacts.shared_wf_init b))
      as (st & acts & Hrun & Hwf).
    exists st, acts. split; [done|]. split.
    + intros c p. by apply SharedAuthFacts.shared_wf_lookup.
    + intros c c' p. by apply SharedAuthFacts.shared_wf_no_alias.
Qed.

(** X3. A session object never changes its [chatID] or its [startTime], and
    once inactive it is never made active again, whatever updates follow. *)
Theorem session_fields_are_stable (pw : string) (tr : list Event) :
  (∀ st (p : ptr) s,
     PerChat.wf st → PerChat.heap st !! p = Some s →
     ∃ st' acts s',
       PerChat.run pw st tr = Some (st', acts)
       ∧ PerChat.heap st' !! p = Some s'
       ∧ PerChat.chatID s' = PerChat.chatID s
       ∧ PerChat.startTime s' = PerChat.startTime s
       ∧ (PerChat.isActive s = false → PerChat.isActive s' = false))
  ∧ (∀ st (p : ptr) s,
       SharedAuth.wf st → SharedAuth.heap st !! p = Some s →
       ∃ st' acts s',
         SharedAuth.run pw st tr = Some (st', acts)
         ∧ SharedAuth.heap st' !! p = Some s'
         ∧ SharedAuth.chatID s' = SharedAuth.chatID s
         ∧ SharedAuth.startTime s' = SharedAuth.startTime s
         ∧ (SharedAuth.isActive s = false → SharedAuth.isActive s' = false)).
Proof.
  split.
  - intros st p s Hwf Hp.
    destruct (PerChatFacts.wf_run pw st tr Hwf) as (st' & acts & Hrun & _).
    destruct (PerChatTraces.object_run _ _ _ _ _ _ _ Hrun Hp)
      as (s' & ?). by exists st', acts, s'.
  - intros st p s Hwf Hp.
    destruct (SharedAuthFacts.shared_wf_run pw st tr Hwf)
      as (st' & acts & Hrun & _).
    destruct (SharedAuthTraces.shared_object_run _ _ _ _ _ _ _ Hrun Hp)
      as (s' & ?). by exists st', acts, s'.
Qed.

Lemma session_fields_are_stable_witness :
  (∃ st' acts s',
     PerChat.run "secret" (PerChat.uploading_state 3)
       [OnDocument 7 "mod1.jar" None None; CmdDone 7 200; CmdUpload 7 300]
     = Some (st', acts)
     ∧ PerChat.heap st' !! 0%nat = Some s'
     ∧ PerChat.chatID s' = 7 ∧ PerChat.startTime s' = 100
     ∧ (true = false → PerChat.isActive s' = false))
  ∧ (∃ st' acts s',
       SharedAuth.run "secret" (SharedAuth.uploading_state 3)
         [OnDocument 7 "mod1.jar" None None; CmdDone 7 200; CmdUpload 7 300]
       = Some (st', acts)
       ∧ SharedAuth.heap st' !! 0%nat = Some s'
       ∧ SharedAuth.chatID s' = 7 ∧ SharedAuth.startTime s' = 100
       ∧ (true = false → SharedAuth.isActive s' = false)).
Proof.
  destruct (session_fields_are_stable "secret"
              [OnDocument 7 "mod1.jar" None None; CmdDone 7 200;
               CmdUpload 7 300]) as [HP HS].
  split.
  - apply (HP (PerChat.uploading_state 3) 0%nat
              (PerChat.mkSession 7 true 3 100 true));
      [apply PerChatFacts.wf_uploading_state|reflexivity].
  - apply (HS (SharedAuth.uploading_state 3) 0%nat
              (SharedAuth.mkSession 7 true 3 100));
      [apply SharedAuthFacts.shared_wf_uploading_state|reflexivity].
Defined.

(** X5. A conversation gets a session through its own [/upload] only.
    While it has none, [/done], [/cancel] and documents are answered with
    the no-session message and change nothing, the document being neither
    fetched nor stored; and through any trace without an [/upload] of the
    conversation it still has none. *)
Theorem no_session_without_upload (pw : string) (c : Z) :
  (∀ st, PerChat.uploadSessions st !! c = None →
     (∀ now, PerChat.step pw st (CmdDone c now)
             = Some (st, [Send c MsgNoSessionUseUpload]))
     ∧ PerChat.step pw st (CmdCancel c) = Some (st, [Send c MsgNoSession])
     ∧ (∀ name fe ue, PerChat.step pw st (OnDocument c name fe ue)
                      = Some (st, [Send c MsgNoSessionUseUpload]))
     ∧ (∀ tr st' acts,
          forallb (λ e, negb (is_upload_of c e)) tr = true →
          PerChat.run pw st tr = Some (st', acts) →
          PerChat.uploadSessions st' !! c = None))
  ∧ (∀ st, SharedAuth.uploadSessions st !! c = None →
       (∀ now, SharedAuth.step pw st (CmdDone c now)
               = Some (st, [Send c MsgNoSessionUseUpload]))
       ∧ SharedAuth.step pw st (CmdCancel c) = Some (st, [Send c MsgNoSession])
       ∧ (∀ name fe ue, SharedAuth.step pw st (OnDocument c name fe ue)
                        = Some (st, [Send c MsgNoSessionUseUpload]))
       ∧ (∀ tr st' acts,
            forallb (λ e, negb (is_upload_of c e)) tr = true →
            SharedAuth.run pw st tr = Some (st', acts) →
            SharedAuth.uploadSessions st' !! c = None)).
Proof.
  split; intros st Hc; simpl.
  - unfold PerChat.handleDone, PerChat.handleCancel, PerChat.handleDocument.
    rewrite Hc. repeat split; try done.
    intros tr st' acts. by apply PerChatTraces.no_session_run.
  - unfold SharedAuth.handleDone, SharedAuth.handleCancel,
      SharedAuth.handleDocument.
    rewrite Hc. repeat split; try done.
    intros tr st' acts. by apply SharedAuthTraces.shared_no_session_run.
Qed.

Lemma no_session_without_upload_witness :
  PerChat.step "secret" PerChat.init (CmdDone 7 200)
  = Some (PerChat.init, [Send 7 MsgNoSessionUseUpload])
  ∧ SharedAuth.step "secret" (SharedAuth.init true)
      (OnDocument 7 "mod1.jar" None None)
    = Some (SharedAuth.init true, [Send 7 MsgNoSessionUseUpload]).
Proof.
  destruct (no_session_without_upload "secret" 7) as [HP HS].
  split.
  - apply (HP PerChat.init). reflexivity.
  - apply (HS (SharedAuth.init true)). reflexivity.
Defined.

(** X6. [/start], [/list] and [/quantity] are transparent: put anywhere in
    a trace, whatever the listing returns and whatever the sessions are,
    they change nothing in the state the trace ends in. *)
Theorem queries_are_transparent
    (pw : string) (e : Event) (tr1 tr2 : list Event) :
  is_query e = true →
  (∀ st, fst <$> PerChat.run pw st (tr1 ++ e :: tr2)
         = fst <$> PerChat.run pw st (tr1 ++ tr2))
  ∧ (∀ st, fst <$> SharedAuth.run pw st (tr1 ++ e :: tr2)
           = fst <$> SharedAuth.run pw st (tr1 ++ tr2)).
Proof.
  intros He. split; intros st.
  - rewrite !PerChatTraces.run_app.
    destruct (PerChat.run pw st tr1) as [[st1 acts1]|]; [|done].
    destruct (PerChatTraces.query_step pw st1 e He) as [acts Hstep].
    simpl. rewrite Hstep.
    by destruct (PerChat.run pw st1 tr2) as [[st2 acts2]|].
  - rewrite !SharedAuthTraces.shared_run_app.
    destruct (SharedAuth.run pw st tr1) as [[st1 acts1]|]; [|done].
    destruct (SharedAuthTraces.shared_query_step pw st1 e He) as [acts Hstep].
    simpl. rewrite Hstep.
    by destruct (SharedAuth.run pw st1 tr2) as [[st2 acts2]|].
Qed.

Lemma queries_are_transparent_witness :
  fst <$> PerChat.run "secret" PerChat.init
            ([CmdUpload 7 100] ++ CmdList 7 (inl "drive down"%string)
             :: [OnText 7 "secret"])
  = fst <$> PerChat.run "secret" PerChat.init
              ([CmdUpload 7 100] ++ [OnText 7 "secret"])
  ∧ fst <$> SharedAuth.run "secret" (SharedAuth.init false)
              ([CmdUpload 7 100] ++ CmdList 7 (inl "drive down"%string)
               :: [OnText 7 "secret"])
    = fst <$> SharedAuth.run "secret" (SharedAuth.init false)
                ([CmdUpload 7 100] ++ [OnText 7 "secret"]).
Proof.
  destruct (queries_are_transparent "secret"
              (CmdList 7 (inl "drive down"%string))
              [CmdUpload 7 100] [OnText 7 "secret"]) as [HP HS];
    [reflexivity|].
  split; [apply HP|apply HS].
Defined.

(** X7. One handler of the per-session variant, run from its first
    statement to its return, is one transition of a state machine on the
    session of its conversation alone: the session the conversation has
    afterwards and the calls made are those [chat_machine] computes from
    the session it had before and the update, whatever the other sessions
    and the rest of the heap are. *)
Theorem handler_is_machine_transition
    (pw : string) (e : Event) (st : PerChat.State) :
  PerChat.wf st →
  ∃ st' acts,
    PerChat.step pw st e = Some (st', acts)
    ∧ chat_machine pw (event_chat e) (chat_view st (event_chat e)) e
      = (chat_view st' (event_chat e), acts).
Proof.
  intros Hwf.
  destruct (PerChatTraces.step_chat_machine pw st e Hwf)
    as (st' & acts & Hstep & _ & Hmachine).
  by exists st', acts.
Qed.

Lemma handler_is_machine_transition_witness :
  ∃ st' acts,
    PerChat.step "secret" (PerChat.uploading_state 3)
      (OnDocument 7 "mod1.jar" None None) = Some (st', acts)
    ∧ chat_machine "secret" 7 (chat_view (PerChat.uploading_state 3) 7)
        (OnDocument 7 "mod1.jar" None None)
      = (chat_view st' 7, acts).
Proof.
  apply (handler_is_machine_transition "secret"
           (OnDocument 7 "mod1.jar" None None) (PerChat.uploading_state 3)).
  apply PerChatFacts.wf_uploading_state.
Defined.

(** X8. One handler touches its own conversation only: the handler of an
    update of another conversation leaves the entry of [c] in the map and
    every session object of [c] as they were, and sends nothing to [c].
    (In the process-wide variant it may still clear [isFirstTimeSetup],
    which every conversation reads.) *)
Theorem handler_leaves_other_conversations
    (pw : string) (e : Event) (c : Z) :
  event_chat e ≠ c →
  (∀ st, PerChat.wf st →
     ∃ st' acts,
       PerChat.step pw st e = Some (st', acts)
       ∧ PerChat.uploadSessions st' !! c = PerChat.uploadSessions st !! c
       ∧ (∀ (p : ptr) s,
            PerChat.heap st !! p = Some s → PerChat.chatID s = c →
            PerChat.heap st' !! p = Some s)
       ∧ chat_view st' c = chat_view st c
       ∧ replies_to c acts = [])
  ∧ (∀ st, SharedAuth.wf st →
       ∃ st' acts,
         SharedAuth.step pw st e = Some (st', acts)
         ∧ SharedAuth.uploadSessions st' !! c
           = SharedAuth.uploadSessions st !! c
         ∧ (∀ (p : ptr) s,
              SharedAuth.heap st !! p = Some s → SharedAuth.chatID s = c →
              SharedAuth.heap st' !! p = Some s)
         ∧ replies_to c acts = []).
Proof.
  intros Hne. split.
  - intros st Hwf.
    destruct (PerChatFacts.wf_step pw st e Hwf) as (st' & acts & Hstep & _).
    destruct (PerChatTraces.step_other_view pw st e c Hwf Hne)
      as (st1 & acts1 & Hstep1 & _ & Hview).
    rewrite Hstep in Hstep1. injection Hstep1 as <- <-.
    assert (Hobj : ∀ (p : ptr) s,
              PerChat.heap st !! p = Some s → PerChat.chatID s = c →
              PerChat.heap st' !! p = Some s
              ∧ PerChat.uploadSessions st' !! c
                = PerChat.uploadSessions st !! c).
    { intros p s Hp Hid.
      destruct (PerChatTraces.step_frame pw st e c p s Hwf Hp Hid Hne)
        as (st2 & acts2 & Hstep2 & _ & Hp2 & Hmap2).
      rewrite Hstep in Hstep2. by injection Hstep2 as <- <-. }
    exists st', acts. split; [done|]. split.
    { destruct (PerChat.uploadSessions st !! c) as [p|] eqn:Hc.
      - destruct (PerChatFacts.wf_lookup _ _ _ Hwf Hc) as (s & Hs & Hid).
        destruct (Hobj p s Hs Hid) as [_ Hmap]. by rewrite Hmap.
      - by eapply PerChatTraces.no_session_step;
          [|apply is_upload_of_other|exact Hstep]. }
    split; [intros p s Hp Hid; by apply Hobj|].
    split; [done|]. by eapply PerChatTraces.step_replies_other.
  - intros st Hwf.
    destruct (SharedAuthFacts.shared_wf_step pw st e Hwf)
      as (st' & acts & Hstep & _).
    assert (Hobj : ∀ (p : ptr) s,
              SharedAuth.heap st !! p = Some s → SharedAuth.chatID s = c →
              SharedAuth.heap st' !! p = Some s
              ∧ SharedAuth.uploadSessions st' !! c
                = SharedAuth.uploadSessions st !! c).
    { intros p s Hp Hid.
      destruct (SharedAuthTraces.shared_step_frame pw st e c p s
                  Hwf Hp Hid Hne)
        as (st2 & acts2 & Hstep2 & _ & Hp2 & Hmap2).
      rewrite Hstep in Hstep2. by injection Hstep2 as <- <-. }
    exists st', acts. split; [done|]. split.
    { destruct (SharedAuth.uploadSessions st !! c) as [p|] eqn:Hc.
      - destruct (SharedAuthFacts.shared_wf_lookup _ _ _ Hwf Hc)
          as (s & Hs & Hid).
        destruct (Hobj p s Hs Hid) as [_ Hmap]. by rewrite Hmap.
      - by eapply SharedAuthTraces.shared_no_session_step;
          [|apply is_upload_of_other|exact Hstep]. }
    split; [intros p s Hp Hid; by apply Hobj|].
    by eapply SharedAuthTraces.shared_step_replies_other.
Qed.

Lemma handler_leaves_other_conversations_witness :
  (∃ st' acts,
     PerChat.step "secret" (PerChat.uploading_state 3) (CmdUpload 8 100)
     = Some (st', acts)
     ∧ PerChat.uploadSessions st' !! 7
       = PerChat.uploadSessions (PerChat.uploading_state 3) !! 7
     ∧ chat_view st' 7 = chat_view (PerChat.uploading_state 3) 7
     ∧ replies_to 7 acts = [])
  ∧ (∃ st' acts,
       SharedAuth.step "secret" SharedAuth.awaiting_state (CmdUpload 8 100)
       = Some (st', acts)
       ∧ SharedAuth.uploadSessions st' !! 7
         = SharedAuth.uploadSessions SharedAuth.awaiting_state !! 7
       ∧ replies_to 7 acts = []).
Proof.
  split.
  - destruct (handler_leaves_other_conversations "secret" (CmdUpload 8 100) 7)
      as [HP _]; [discriminate|].
    destruct (HP (PerChat.uploading_state 3)
                 (PerChatFacts.wf_uploading_state 3))
      as (st' & acts & Hstep & Hmap & _ & Hview & Hreplies).
    exists st', acts. exact (conj Hstep (conj Hmap (conj Hview Hreplies))).
  - destruct (handler_leaves_other_conversations "secret"
                (CmdUpload 8 100) 7) as [_ HS]; [discriminate|].
    destruct (HS SharedAuth.awaiting_state
                 SharedAuthFacts.shared_wf_awaiting_state)
      as (st' & acts & Hstep & Hmap & _ & Hreplies).
    exists st', acts. exact (conj Hstep (conj Hmap Hreplies)).
Defined.

(** X9. The scope of the password.  In the process-wide variant the
    password entered in one conversation unlocks every other one: a
    conversation with an active session that never received the password
    has its next [*.jar] document stored.  In the per-session variant the
    same two updates leave the other conversation locked: its document is
    answered with the request to authenticate and its session is
    unchanged. *)
Theorem password_scope (pw : string) (c c' : Z) (name : string) :
  c ≠ c' → HasSuffix name jar = true →
  (∀ st p s p' s',
     SharedAuth.isFirstTimeSetup st = true →
     SharedAuth.session_of st c p s → SharedAuth.isActive s = true →
     SharedAuth.session_of st c' p' s' → SharedAuth.isActive s' = true →
     ∃ st' acts,
       SharedAuth.run pw st
         [OnText c (uploadPassword pw); OnDocument c' name None None]
       = Some (st', acts)
       ∧ SharedAuth.session_of st' c' p' (SharedAuth.incr_uploadCount s')
       ∧ In (DriveUpload name None) acts)
  ∧ (∀ st p s p' s',
       PerChat.wf st →
       PerChat.session_of st c p s → PerChat.isActive s = true →
       PerChat.authenticated s = false →
       PerChat.session_of st c' p' s' → PerChat.isActive s' = true →
       PerChat.authenticated s' = false →
       ∃ st' acts,
         PerChat.run pw st
           [OnText c (uploadPassword pw); OnDocument c' name None None]
         = Some (st', acts)
         ∧ PerChat.session_of st' c' p' s'
         ∧ acts = [Send c MsgPasswordAccepted; Send c' MsgAuthenticateFirst]).
Proof.
  intros Hne Hjar. split.
  - intros st p s p' s' Hflag [Hc Hp] Hact [Hc' Hp'] Hact'. simpl.
    unfold SharedAuth.handleText.
    rewrite Hc, Hp, Hact, Hflag, String.eqb_refl. simpl.
    unfold SharedAuth.handleDocument. simpl.
    rewrite Hc', Hp', Hact', Hjar. simpl.
    do 2 eexists. split; [done|]. split.
    + split; simpl; [done|].
      by rewrite list_lookup_insert_eq by (by eapply lookup_lt_Some).
    + simpl. tauto.
  - intros st p s p' s' Hwf [Hc Hp] Hact Hauth [Hc' Hp'] Hact' Hauth'. simpl.
    assert (p' ≠ p) as Hpp.
    { intros ->. apply Hne. exact (PerChatFacts.wf_no_alias _ _ _ _ Hwf Hc Hc'). }
    unfold PerChat.handleText.
    rewrite Hc, Hp, Hact, Hauth, String.eqb_refl. simpl.
    unfold PerChat.handleDocument. simpl.
    assert (<[p := PerChat.set_authenticated s]> (PerChat.heap st) !! p'
            = Some s') as Hp''
      by (by rewrite list_lookup_insert_ne).
    rewrite Hc', Hp'', Hact', Hauth'. simpl.
    do 2 eexists. split; [done|]. split; [|done]. by split.
Qed.

Lemma password_scope_witness :
  (∃ st' acts,
     SharedAuth.run "secret"
       (SharedAuth.mkState
          [SharedAuth.mkSession 7 true 0 100; SharedAuth.mkSession 8 true 0 101]
          (<[8 := 1%nat]> {[ 7 := 0%nat ]}) true)
       [OnText 7 (uploadPassword "secret");
        OnDocument 8 "mod1.jar" None None]
     = Some (st', acts)
     ∧ SharedAuth.session_of st' 8 1%nat
         (SharedAuth.incr_uploadCount (SharedAuth.mkSession 8 true 0 101))
     ∧ In (DriveUpload "mod1.jar" None) acts).
Proof.
  destruct (password_scope "secret" 7 8 "mod1.jar") as [HS _];
    [discriminate|reflexivity|].
  apply (HS _ 0%nat (SharedAuth.mkSession 7 true 0 100)
            1%nat (SharedAuth.mkSession 8 true 0 101));
    [reflexivity|split; reflexivity|reflexivity|split; reflexivity
    |reflexivity].
Defined.

Lemma counters_do_not_wrap_witness :
  0 ≤ PerChat.uploadCount (PerChat.mkSession 7 true 2 100 true) < int_max.
Proof.
  destruct (counters_do_not_wrap "secret"
              ([CmdUpload 7 100; OnText 7 "secret"] ++ scenario_documents))
    as [HP _]; [vm_compute; reflexivity|].
  eapply (HP _ _ 0%nat); [vm_compute; reflexivity|reflexivity].
Defined.

(** ** The suffix test of the document handler *)

Lemma string_length_append (p t : string) :
  String.length (p ++ t) = (String.length p + String.length t)%nat.
Proof. induction p as [|a p IH]; simpl; [done|]. by rewrite IH. Qed.

Lemma substring_whole (t : string) : substring 0 (String.length t) t = t.
Proof. induction t as [|a t IH]; simpl; [done|]. by rewrite IH. Qed.

Lemma substring_skip (p t : string) (n : nat) :
  substring (String.length p) n (p ++ t) = substring 0 n t.
Proof. induction p as [|a p IH]; simpl; [done|]. apply IH. Qed.

Lemma substring_split (s : string) (k : nat) :
  (k ≤ String.length s)%nat →
  (substring 0 k s ++ substring k (String.length s - k) s)%string = s.
Proof.
  revert k. induction s as [|a s IH]; intros k Hk; simpl in *.
  - by destruct k.
  - destruct k as [|k]; simpl.
    + by rewrite substring_whole.
    + change (String a (substring 0 k s
                        +:+ substring k (String.length s - k) s)
              = String a s).
      f_equal. apply IH. lia.
Qed.

(** [HasSuffix s suffix] holds exactly when [s] is some string followed by
    [suffix]. *)
Lemma HasSuffix_iff (s suffix : string) :
  HasSuffix s suffix = true ↔ ∃ p : string, s = (p ++ suffix)%string.
Proof.
  unfold HasSuffix. rewrite andb_true_iff, Nat.leb_le, String.eqb_eq. split.
  - intros [Hlen Hsub].
    exists (substring 0 (String.length s - String.length suffix) s).
    rewrite <- (substring_split s (String.length s - String.length suffix))
      at 1 by lia.
    f_equal.
    replace (String.length s - (String.length s - String.length suffix))%nat
      with (String.length suffix) by lia.
    exact Hsub.
  - intros [p ->]. rewrite string_length_append. split; [lia|].
    replace (String.length p + String.length suffix - String.length suffix)%nat
      with (String.length p) by lia.
    by rewrite substring_skip, substring_whole.
Qed.

(** X10. For an active, authenticated session the document handler fetches
    the file, [b.File], exactly when the file name is some string, possibly
    empty, followed by [.jar] in these very bytes; every other name is
    answered with the request for [.jar] files. *)
Theorem jar_names_are_fetched
    (pw : string) (c : Z) (name : string) (fe ue : error) :
  (∀ st p s,
     PerChat.session_of st c p s →
     PerChat.isActive s = true → PerChat.authenticated s = true →
     ∃ st' acts,
       PerChat.step pw st (OnDocument c name fe ue) = Some (st', acts)
       ∧ (In (BotFile name fe) acts ↔ ∃ p : string, name = (p ++ ".jar")%string)
       ∧ (In (Send c MsgOnlyJar) acts
          ↔ ¬ ∃ p : string, name = (p ++ ".jar")%string))
  ∧ (∀ st p s,
       SharedAuth.session_of st c p s →
       SharedAuth.isActive s = true → SharedAuth.isFirstTimeSetup st = false →
       ∃ st' acts,
         SharedAuth.step pw st (OnDocument c name fe ue) = Some (st', acts)
         ∧ (In (BotFile name fe) acts
            ↔ ∃ p : string, name = (p ++ ".jar")%string)
         ∧ (In (Send c MsgOnlyJar) acts
            ↔ ¬ ∃ p : string, name = (p ++ ".jar")%string)).
Proof.
  pose proof (HasSuffix_iff name jar) as Hiff. unfold jar in Hiff at 2.
  assert (Hcases :
    ∀ acts : list Action,
      acts = (if negb (HasSuffix name jar) then [Send c MsgOnlyJar] else acts) →
      (HasSuffix name jar = true → In (BotFile name fe) acts
                                   ∧ ¬ In (Send c MsgOnlyJar) acts) →
      (In (BotFile name fe) acts ↔ ∃ p : string, name = (p ++ ".jar")%string)
      ∧ (In (Send c MsgOnlyJar) acts
         ↔ ¬ ∃ p : string, name = (p ++ ".jar")%string)).
  { intros acts Hacts Hyes. destruct (HasSuffix name jar); simpl in Hacts.
    - destruct (Hyes eq_refl) as [Hin Hout]. split; split; try done.
      + intros _. by apply Hiff.
      + intros Hno. destruct Hno. by apply Hiff.
    - rewrite Hacts. simpl. split; split.
      + intros [[=]|[]].
      + intros Hp%Hiff. done.
      + intros _ Hp%Hiff. done.
      + intros _. by left. }
  split; intros st p s Hs Hact Hauth; simpl.
  - rewrite (PerChatFacts.handleDocument_uploading _ _ _ _ _ _ _
               Hs Hact Hauth).
    destruct (HasSuffix name jar) eqn:Hjar; simpl.
    + destruct fe, ue; (do 2 eexists; split; [done|]);
        (apply Hcases; [done|]); intros _; simpl;
        (split; [tauto|]); intuition discriminate.
    + do 2 eexists. split; [done|]. apply Hcases; [done|done].
  - rewrite (SharedAuthFacts.shared_handleDocument_uploading _ _ _ _ _ _ _
               Hs Hact Hauth).
    destruct (HasSuffix name jar) eqn:Hjar; simpl.
    + destruct fe, ue; (do 2 eexists; split; [done|]);
        (apply Hcases; [done|]); intros _; simpl;
        (split; [tauto|]); intuition discriminate.
    + do 2 eexists. split; [done|]. apply Hcases; [done|done].
Qed.

Lemma jar_names_are_fetched_witness :
  ∃ st' acts,
    PerChat.step "secret" (PerChat.uploading_state 3)
                 (OnDocument 7 ".jar" None None) = Some (st', acts)
    ∧ (In (BotFile ".jar" None) acts
       ↔ ∃ p : string, ".jar"%string = (p ++ ".jar")%string)
    ∧ (In (Send 7 MsgOnlyJar) acts
       ↔ ¬ ∃ p : string, ".jar"%string = (p ++ ".jar")%string).
Proof.
  destruct (jar_names_are_fetched "secret" 7 ".jar" None None) as [HP _].
  apply (HP (PerChat.uploading_state 3) 0%nat
            (PerChat.mkSession 7 true 3 100 true));
    [split; reflexivity|reflexivity..].
Defined.

(** ** Facts on start-up *)

Module GatewayFacts.
Import Gateway.

Section Computations.
Context {Token Service A B : Type}.
Implicit Types (m : list (Sys Token Service) * Outcome A).
Implicit Types (f : A → list (Sys Token Service) * Outcome B).

Lemma bind_returns m f (b : B) :
  snd (bind m f) = Returns b →
  ∃ a, snd m = Returns a ∧ snd (f a) = Returns b.
Proof.
  destruct m as [calls [a|msg]]; simpl; [|done].
  destruct (f a) as [calls' o] eqn:Hf. simpl. intros ->.
  exists a. by rewrite Hf.
Qed.

Lemma bind_calls_returns m f (a : A) :
  snd m = Returns a →
  fst (bind m f) = fst m ++ fst (f a) ∧ snd (bind m f) = snd (f a).
Proof.
  destruct m as [calls o]. simpl. intros ->. simpl.
  by destruct (f a) as [calls' o'].
Qed.

Lemma bind_fatal m f (msg : string) :
  snd m = Fatal msg → bind m f = (fst m, Fatal msg).
Proof. destruct m as [calls o]. simpl. by intros ->. Qed.

Lemma bind_forallb (P : Sys Token Service → bool) m f :
  forallb P (fst m) = true →
  (∀ a, snd m = Returns a → forallb P (fst (f a)) = true) →
  forallb P (fst (bind m f)) = true.
Proof.
  destruct m as [calls [a|msg]]; simpl; intros Hm Hf; [|done].
  specialize (Hf a eq_refl). destruct (f a) as [calls' o]. simpl in *.
  by rewrite forallb_app, Hm, Hf.
Qed.

End Computations.

End GatewayFacts.

(** ** Properties of start-up *)

Section StartUp.
Import Gateway.
Context {Config JWTConfig Token Client Service : Type}.
Variable w : World Config JWTConfig Token Client Service.

(** X11. [createOrGetFolder] asks Drive to create a folder exactly when
    the listing succeeds and is empty.  A listing with entries yields the
    identifier of its first entry; an error of the listing or of the
    creation is returned as it is. *)
Theorem folder_created_only_when_none_found
    (allDrives : bool) (srv : Service) (folderName : string) :
  (existsb is_create_folder
     (fst (createOrGetFolder w allDrives srv folderName)) = true
   ↔ FilesList w srv (folderQuery folderName) allDrives = Ok [])
  ∧ snd (createOrGetFolder w allDrives srv folderName)
    = Returns
        match FilesList w srv (folderQuery folderName) allDrives with
        | Err err => Err err
        | Ok (first :: _) => Ok (Id first)
        | Ok [] =>
            match FilesCreate w srv folderName allDrives with
            | Err err => Err err
            | Ok file => Ok (Id file)
            end
        end.
Proof.
  unfold createOrGetFolder. simpl.
  destruct (FilesList w srv (folderQuery folderName) allDrives)
    as [[|first rest]|err]; simpl.
  - destruct (FilesCreate w srv folderName allDrives); simpl; by split.
  - by split.
  - by split.
Qed.

Lemma getClient_no_drive_call (config : Config) :
  forallb (λ call, negb (is_drive_call call)) (fst (getClient w config))
  = true.
Proof.
  unfold getClient, tokenFromFile, getTokenFromWeb, saveToken.
  repeat case_match; simpl; repeat case_match; done.
Qed.

Lemma chooseReadService_no_drive_call (uploadSrv : Service) :
  forallb (λ call, negb (is_drive_call call))
          (fst (chooseReadService w uploadSrv)) = true.
Proof. unfold chooseReadService. by repeat case_match. Qed.

Lemma resolveFolder_given (allDrives : bool) (srv : Service) :
  Getenv w "folder_id" ≠ EmptyString →
  resolveFolder w allDrives srv
  = ([Printf ("Using specified folder ID: " ++ Getenv w "folder_id" ++ nl)],
     Returns (Ok (Getenv w "folder_id"))).
Proof.
  intros Hid%String.eqb_neq. unfold resolveFolder. by rewrite Hid.
Qed.

(** X12. With [folder_id] set, start-up never calls Drive: no listing, no
    folder is created, and the manager's folder is the value of
    [folder_id], in both variants. *)
Theorem folder_id_skips_drive :
  Getenv w "folder_id" ≠ EmptyString →
  (forallb (λ call, negb (is_drive_call call)) (fst (initGoogleDrive w)) = true
   ∧ ∀ dm, snd (initGoogleDrive w) = Returns (Ok dm) →
           folderID dm = Getenv w "folder_id")
  ∧ (forallb (λ call, negb (is_drive_call call))
             (fst (initGoogleDriveSingle w)) = true
     ∧ ∀ dm, snd (initGoogleDriveSingle w) = Returns (Ok dm) →
             singleFolderID dm = Getenv w "folder_id").
Proof.
  intros Hid. split.
  - unfold initGoogleDrive.
    destruct (ReadFile w _) as [b|err]; [|by split].
    destruct (ConfigFromJSON w b) as [config|err]; [|by split].
    pose proof (getClient_no_drive_call config) as Hclient.
    destruct (getClient w config) as [calls [client|msg]]; simpl in *;
      [|by split].
    destruct (NewService w client) as [uploadSrv|err]; simpl;
      [|by rewrite app_nil_r].
    pose proof (chooseReadService_no_drive_call uploadSrv) as Hread.
    destruct (chooseReadService w uploadSrv) as [calls' [readSrv|msg]];
      simpl in *; [|by rewrite forallb_app, Hclient, Hread].
    rewrite (resolveFolder_given true uploadSrv Hid). simpl. split.
    + by rewrite !forallb_app, Hclient, Hread.
    + by intros dm [= <-].
  - unfold initGoogleDriveSingle.
    destruct (ReadFile w _) as [b|err]; [|by split].
    destruct (ConfigFromJSON w b) as [config|err]; [|by split].
    pose proof (getClient_no_drive_call config) as Hclient.
    destruct (getClient w config) as [calls [client|msg]]; simpl in *;
      [|by split].
    destruct (NewService w client) as [srv|err]; simpl;
      [|by rewrite app_nil_r].
    rewrite (resolveFolder_given false srv Hid). simpl. split.
    + by rewrite !forallb_app, Hclient.
    + by intros dm [= <-].
Qed.

End StartUp.

Section StartUpServices.
Import Gateway.
Context {Config JWTConfig Token Client Service : Type}.
Variable w : World Config JWTConfig Token Client Service.

(** [chooseReadService] always returns, with the service of the service
    account when the four steps that make it succeed, and with the upload
    service when any of them fails. *)
Lemma chooseReadService_returns (uploadSrv : Service) :
  ∃ calls readSrv,
    chooseReadService w uploadSrv = (calls, Returns readSrv)
    ∧ (∀ bytes serviceConfig srv,
         Stat w (orDefault (Getenv w "SERVICE_CREDENTIALS_PATH")
                           "service_credentials.json") = None →
         ReadFile w (orDefault (Getenv w "SERVICE_CREDENTIALS_PATH")
                               "service_credentials.json") = Ok bytes →
         JWTConfigFromJSON w bytes = Ok serviceConfig →
         NewService w (JWTClient w serviceConfig) = Ok srv →
         readSrv = srv)
    ∧ (Stat w (orDefault (Getenv w "SERVICE_CREDENTIALS_PATH")
                         "service_credentials.json") ≠ None
       ∨ (∃ err,
            ReadFile w (orDefault (Getenv w "SERVICE_CREDENTIALS_PATH")
                                  "service_credentials.json") = Err err)
       ∨ (∃ bytes err,
            ReadFile w (orDefault (Getenv w "SERVICE_CREDENTIALS_PATH")
                                  "service_credentials.json") = Ok bytes
            ∧ JWTConfigFromJSON w bytes = Err err)
       ∨ (∃ bytes serviceConfig err,
            ReadFile w (orDefault (Getenv w "SERVICE_CREDENTIALS_PATH")
                                  "service_credentials.json") = Ok bytes
            ∧ JWTConfigFromJSON w bytes = Ok serviceConfig
            ∧ NewService w (JWTClient w serviceConfig) = Err err) →
       readSrv = uploadSrv).
Proof.
  unfold chooseReadService.
  destruct (Stat w _) as [err|] eqn:Hstat.
  { do 2 eexists. split; [done|]. split; [done|]. done. }
  destruct (ReadFile w _) as [bytes|err] eqn:Hread.
  2:{ do 2 eexists. split; [done|]. split; [done|]. done. }
  destruct (JWTConfigFromJSON w bytes) as [serviceConfig|err] eqn:Hparse.
  2:{ do 2 eexists. split; [done|]. split; [|done].
      intros bytes' serviceConfig' srv _ [= <-]. by rewrite Hparse. }
  destruct (NewService w (JWTClient w serviceConfig)) as [readSrv|err]
    eqn:Hnew.
  2:{ do 2 eexists. split; [done|]. split; [|done].
      intros bytes' serviceConfig' srv _ [= <-]. rewrite Hparse.
      intros [= <-]. by rewrite Hnew. }
  do 2 eexists. split; [done|]. split.
  - intros bytes' serviceConfig' srv _ [= <-]. rewrite Hparse.
    intros [= <-]. rewrite Hnew. by intros [= <-].
  - intros [Hno|[[err Hno]|[(bytes' & err & Hb & Hno)
                           |(bytes' & cfg' & err & Hb & Hc & Hno)]]].
    + done.
    + done.
    + injection Hb as <-. by rewrite Hparse in Hno.
    + injection Hb as <-. rewrite Hparse in Hc. injection Hc as <-.
      by rewrite Hnew in Hno.
Qed.

(** X13. In [main.go] the service account is optional.  Whenever
    [initGoogleDrive] succeeds: if the service-account file is found, read
    and parsed and a service is made from it, the manager reads with that
    service; if any of these four steps fails, it reads with the upload
    service; and either way it uploads with the service made from the OAuth
    client.  An error of [initGoogleDrive] never comes from the service
    account: it carries one of the four messages of the OAuth credentials,
    the upload service and the folder. *)
Theorem service_account_is_optional :
  (∀ dm, snd (initGoogleDrive w) = Returns (Ok dm) →
     (∀ bytes serviceConfig srv,
        Stat w (orDefault (Getenv w "SERVICE_CREDENTIALS_PATH")
                          "service_credentials.json") = None →
        ReadFile w (orDefault (Getenv w "SERVICE_CREDENTIALS_PATH")
                              "service_credentials.json") = Ok bytes →
        JWTConfigFromJSON w bytes = Ok serviceConfig →
        NewService w (JWTClient w serviceConfig) = Ok srv →
        readService dm = srv)
     ∧ (Stat w (orDefault (Getenv w "SERVICE_CREDENTIALS_PATH")
                          "service_credentials.json") ≠ None
        ∨ (∃ err,
             ReadFile w (orDefault (Getenv w "SERVICE_CREDENTIALS_PATH")
                                   "service_credentials.json") = Err err)
        ∨ (∃ bytes err,
             ReadFile w (orDefault (Getenv w "SERVICE_CREDENTIALS_PATH")
                                   "service_credentials.json") = Ok bytes
             ∧ JWTConfigFromJSON w bytes = Err err)
        ∨ (∃ bytes serviceConfig err,
             ReadFile w (orDefault (Getenv w "SERVICE_CREDENTIALS_PATH")
                                   "service_credentials.json") = Ok bytes
             ∧ JWTConfigFromJSON w bytes = Ok serviceConfig
             ∧ NewService w (JWTClient w serviceConfig) = Err err) →
        readService dm = uploadService dm)
     ∧ ∃ b config client,
         ReadFile w (orDefault (Getenv w "OAUTH_CREDENTIALS_PATH")
                               "credentials.json") = Ok b
         ∧ ConfigFromJSON w b = Ok config
         ∧ snd (getClient w config) = Returns client
         ∧ NewService w client = Ok (uploadService dm))
  ∧ (∀ msg, snd (initGoogleDrive w) = Returns (Err msg) →
       ∃ err,
         msg = ("unable to read oauth credentials: " ++ err)%string
         ∨ msg = ("unable to parse oauth credentials: " ++ err)%string
         ∨ msg = ("unable to create upload service: " ++ err)%string
         ∨ msg = ("unable to create/get folder: " ++ err)%string).
Proof.
  unfold initGoogleDrive.
  destruct (ReadFile w (orDefault (Getenv w "OAUTH_CREDENTIALS_PATH") _))
    as [b|err] eqn:Hread;
    [|split; [done|]; intros msg [= <-]; by eauto].
  destruct (ConfigFromJSON w b) as [config|err] eqn:Hparse;
    [|split; [done|]; intros msg [= <-]; by eauto].
  destruct (getClient w config) as [calls [client|fmsg]] eqn:Hclient;
    simpl; [|by split].
  destruct (NewService w client) as [uploadSrv|err] eqn:Hnew; simpl;
    [|split; [done|]; intros msg [= <-]; by eauto 6].
  destruct (chooseReadService_returns uploadSrv)
    as (calls' & readSrv & -> & Hacct & Hnone).
  simpl. unfold resolveFolder.
  destruct (negb (String.eqb (Getenv w "folder_id") EmptyString)); simpl.
  - split; [|done]. intros dm [= <-]. simpl. do 2 (split; [done|]).
    exists b, config, client. by rewrite Hclient.
  - destruct (createOrGetFolder w true uploadSrv _) as [calls'' [[id|err]|fmsg]];
      simpl.
    + split; [|done]. intros dm [= <-]. simpl. do 2 (split; [done|]).
      exists b, config, client. by rewrite Hclient.
    + split; [done|]. intros msg [= <-]. by eauto 6.
    + by split.
Qed.

(** X14. [getClient] starts the interactive OAuth flow only when
    [token.json] cannot be used.  If the file opens and decodes, no call
    acts on the outside and the client is made from the token of the file.
    Otherwise, whenever [getClient] returns, the code was read from the
    terminal and exchanged, the client is made from the token received, and
    the last call writes that token to [token.json]. *)
Theorem token_file_skips_oauth_flow (config : Config) :
  (∀ tok,
     Open w "token.json" = None → DecodeToken w "token.json" = (tok, None) →
     getClient w config = ([], Returns (ConfigClient w config (Some tok))))
  ∧ (Open w "token.json" ≠ None ∨ snd (DecodeToken w "token.json") ≠ None →
     ∀ calls client,
       getClient w config = (calls, Returns client) →
       ∃ code tok,
         Scan w = Ok code ∧ Exchange w config code = Ok tok
         ∧ client = ConfigClient w config (Some tok)
         ∧ last calls = Some (EncodeToken "token.json" tok)).
Proof.
  unfold getClient, tokenFromFile. split.
  - intros tok -> ->. done.
  - intros Hbad calls client.
    assert (Hflow :
      bind (getTokenFromWeb w config)
        (λ tok, bind (saveToken w "token.json" tok)
                  (λ _, ret (ConfigClient w config (Some tok))))
      = (calls, Returns client) →
      ∃ code tok,
        Scan w = Ok code ∧ Exchange w config code = Ok tok
        ∧ client = ConfigClient w config (Some tok)
        ∧ last calls = Some (EncodeToken "token.json" tok)).
    { unfold getTokenFromWeb, saveToken. simpl.
      destruct (Scan w) as [code|err] eqn:Hscan; simpl; [|done].
      destruct (Exchange w config code) as [tok|err] eqn:Hex; simpl; [|done].
      destruct (OpenFile w "token.json"); simpl; [done|].
      intros [= <- <-]. by exists code, tok. }
    destruct (Open w "token.json") as [err|]; [done|].
    destruct (DecodeToken w "token.json") as [tok [err|]]; [done|].
    simpl in Hbad. by destruct Hbad.
Qed.

(** X15. [main] does not start the bot without Drive: if [initGoogleDrive]
    returns an error the process dies with that error, having made the
    calls of [initGoogleDrive] and nothing more; and whenever start-up gets
    through, [initGoogleDrive] returned the manager, the bot was created,
    and the last thing printed is that the bot has started. *)
Theorem start_requires_drive :
  (∀ calls msg,
     initGoogleDrive w = (calls, Returns (Err msg)) →
     mainStart w
     = (calls, Fatal ("Failed to initialize Google Drive:" ++ msg)%string))
  ∧ (∀ calls driveManager,
       mainStart w = (calls, Returns driveManager) →
       snd (initGoogleDrive w) = Returns (Ok driveManager)
       ∧ NewBot w = None
       ∧ last calls = Some (Printf ("Bot has started!" ++ nl)%string)).
Proof.
  unfold mainStart. split.
  - intros calls msg ->. simpl. by rewrite app_nil_r.
  - intros calls driveManager.
    destruct (initGoogleDrive w) as [calls0 [[dm|err]|fmsg]]; simpl;
      [|done..].
    destruct (NewBot w) as [err|]; simpl; [done|].
    intros [= <- <-]. by rewrite last_snoc.
Qed.

End StartUpServices.

Lemma handlers_never_fault_witness :
  ∃ st acts,
    PerChat.run "secret" PerChat.init
      [CmdUpload 7 100; CmdUpload 8 101; OnText 7 "guess"; CmdUpload 7 102]
    = Some (st, acts)
    ∧ (∀ c p, PerChat.uploadSessions st !! c = Some p →
         ∃ s, PerChat.heap st !! p = Some s ∧ PerChat.chatID s = c)
    ∧ (∀ c c' p, PerChat.uploadSessions st !! c = Some p →
         PerChat.uploadSessions st !! c' = Some p → c = c').
Proof.
  apply (handlers_never_fault "secret"
           [CmdUpload 7 100; CmdUpload 8 101; OnText 7 "guess";
            CmdUpload 7 102]).
Defined.

Lemma folder_created_only_when_none_found_witness :
  existsb Gateway.is_create_folder
    (fst (Gateway.createOrGetFolder (Gateway.example_world EmptyString true)
            true "drive" "MinecraftMods")) = true
  ↔ Gateway.FilesList (Gateway.example_world EmptyString true) "drive"
      (Gateway.folderQuery "MinecraftMods") true = Gateway.Ok [].
Proof.
  apply (folder_created_only_when_none_found
           (Gateway.example_world EmptyString true) true "drive"
           "MinecraftMods").
Defined.

Lemma folder_id_skips_drive_witness :
  forallb (λ call, negb (Gateway.is_drive_call call))
    (fst (Gateway.initGoogleDrive (Gateway.example_world "folder-1" false)))
  = true
  ∧ Gateway.folderID
      (Gateway.mkDriveManager "service of client of token for code"
         "service of client of token for code" "folder-1")
    = "folder-1"%string.
Proof.
  destruct (folder_id_skips_drive (Gateway.example_world "folder-1" false))
    as [[Hcalls Hfolder] _]; [discriminate|].
  split; [exact Hcalls|].
  apply (Hfolder (Gateway.mkDriveManager "service of client of token for code"
                    "service of client of token for code" "folder-1")).
  reflexivity.
Defined.

Lemma service_account_is_optional_witness :
  (∃ dm,
     snd (Gateway.initGoogleDrive Gateway.service_account_world)
     = Gateway.Returns (Gateway.Ok dm)
     ∧ Gateway.readService dm
       = "service of contents of service_credentials.json"%string
     ∧ Gateway.uploadService dm = "service of client of saved token"%string)
  ∧ (∃ dm,
       snd (Gateway.initGoogleDrive (Gateway.example_world "folder-1" true))
       = Gateway.Returns (Gateway.Ok dm)
       ∧ Gateway.readService dm = Gateway.uploadService dm).
Proof.
  split.
  - exists (Gateway.mkDriveManager
              "service of contents of service_credentials.json"
              "service of client of saved token" "folder-1").
    split; [reflexivity|]. split; [|reflexivity].
    destruct (service_account_is_optional Gateway.service_account_world)
      as [Hok _].
    destruct (Hok (Gateway.mkDriveManager
                     "service of contents of service_credentials.json"
                     "service of client of saved token" "folder-1"))
      as (Hacct & _); [reflexivity|].
    apply (Hacct "contents of service_credentials.json"%string
                 "contents of service_credentials.json"%string);
      reflexivity.
  - exists (Gateway.mkDriveManager
              "service of client of saved token"
              "service of client of saved token" "folder-1").
    split; [reflexivity|].
    destruct (service_account_is_optional
                (Gateway.example_world "folder-1" true)) as [Hok _].
    destruct (Hok (Gateway.mkDriveManager
                     "service of client of saved token"
                     "service of client of saved token" "folder-1"))
      as (_ & Hnone & _); [reflexivity|].
    apply Hnone. left. discriminate.
Defined.

Lemma token_file_skips_oauth_flow_witness :
  Gateway.getClient (Gateway.example_world EmptyString true) "config"
  = ([], Gateway.Returns "client of saved token"%string).
Proof.
  apply (token_file_skips_oauth_flow (Gateway.example_world EmptyString true)
           "config"); reflexivity.
Defined.

Lemma start_requires_drive_witness :
  snd (Gateway.initGoogleDrive (Gateway.example_world "folder-1" true))
  = Gateway.Returns
      (Gateway.Ok (Gateway.mkDriveManager "service of client of saved token"
                     "service of client of saved token" "folder-1"))
  ∧ Gateway.NewBot (Gateway.example_world "folder-1" true) = None.
Proof.
  destruct (start_requires_drive (Gateway.example_world "folder-1" true))
    as [_ Hstart].
  destruct (Hstart
    [Gateway.Printf
       ("Service Account not configured, using OAuth2 for all operations"
        ++ Gateway.nl)%string;
     Gateway.Printf ("Using specified folder ID: folder-1" ++ Gateway.nl)%string;
     Gateway.Printf ("Bot has started!" ++ Gateway.nl)%string]
    (Gateway.mkDriveManager "service of client of saved token"
       "service of client of saved token" "folder-1"))
    as (Hinit & Hbot & _); [reflexivity|].
  exact (conj Hinit Hbot).
Defined.

(** ** Handlers that overlap: the serial schedules *)

Module SharedOverlapFacts.
Import SharedAuth SharedOverlap.

Lemma shared_exec_at pw st (pre post : list Pending) h k sched :
  List.length pre = k →
  exec pw st (pre ++ h :: post) (k :: sched)
  = match resume pw st h with
    | None => None
    | Some (st1, acts1, h1) =>
      match exec pw st1 (pre ++ h1 :: post) sched with
      | None => None
      | Some (st2, acts2, pool2) => Some (st2, acts1 ++ acts2, pool2)
      end
    end.
Proof.
  intros <-. simpl. rewrite list_lookup_middle by done.
  destruct (resume pw st h) as [[[st1 acts1] h1]|]; [|done].
  rewrite insert_app_r_alt by done. by rewrite Nat.sub_diag.
Qed.

Lemma shared_exec_app pw st pool sched1 sched2 :
  exec pw st pool (sched1 ++ sched2)
  = match exec pw st pool sched1 with
    | None => None
    | Some (st1, acts1, pool1) =>
      match exec pw st1 pool1 sched2 with
      | None => None
      | Some (st2, acts2, pool2) => Some (st2, acts1 ++ acts2, pool2)
      end
    end.
Proof.
  revert st pool. induction sched1 as [|i sched1 IH]; intros st pool; simpl.
  - by destruct (exec pw st pool sched2) as [[[st2 acts2] pool2]|].
  - destruct (pool !! i) as [h|]; [|apply IH].
    destruct (resume pw st h) as [[[st1 acts1] h1]|]; [|done].
    rewrite IH.
    destruct (exec pw st1 (<[i:=h1]> pool) sched1) as [[[st2 acts2] pool2]|];
      [|done].
    destruct (exec pw st2 pool2 sched2) as [[[st3 acts3] pool3]|]; [|done].
    by rewrite app_assoc.
Qed.

Lemma shared_exec_nil pw st pool :
  exec pw st pool [] = Some (st, [], pool).
Proof. done. Qed.

#[local] Arguments exec : simpl never.

Ltac shared_go k :=
  repeat first [ rewrite shared_exec_nil
               | rewrite (shared_exec_at _ _ _ _ _ k) by done
               | rewrite app_nil_r
               | progress simpl ];
  try done.

(** One handler resumed to its return with no other in between is the
    handler of [step]. *)
Lemma shared_exec_alone pw st (pre post : list Pending) e k :
  List.length pre = k →
  exec pw st (pre ++ Dispatched e :: post) [k; k; k]
  = (λ r, (fst r, snd r, pre ++ Returned :: post)) <$> step pw st e.
Proof.
  intros Hk. rewrite (shared_exec_at _ _ _ _ _ k) by done.
  destruct e as [c|c now|c now|c|c name fe ue|c text|c res|c res]; simpl.
  - shared_go k.
  - rewrite SharedAuthFacts.handleUpload_eq. shared_go k.
  - destruct (handleDone c now st) as [[st' acts]|]; [|done]. shared_go k.
  - destruct (handleCancel c st) as [[st' acts]|]; [|done]. shared_go k.
  - unfold beginDocument, handleDocument.
    destruct (uploadSessions st !! c) as [p|]; simpl; [|shared_go k].
    destruct (heap st !! p) as [s|] eqn:Hp; simpl; [|done].
    destruct (negb (isActive s)); simpl; [shared_go k|].
    destruct (isFirstTimeSetup st) eqn:Hflag; simpl; [shared_go k|].
    destruct (negb (HasSuffix name jar)); simpl; [shared_go k|].
    rewrite (shared_exec_at _ _ _ _ _ k) by done. simpl. unfold endTransfer.
    destruct fe as [err|]; simpl; [shared_go k|].
    destruct ue as [err|]; simpl; [shared_go k|].
    rewrite Hp. simpl. rewrite (shared_exec_at _ _ _ _ _ k) by done. simpl.
    unfold endIncrement. rewrite Hp, Hflag. shared_go k.
  - unfold beginText, handleText.
    destruct (uploadSessions st !! c) as [p|]; simpl; [|shared_go k].
    destruct (heap st !! p) as [s|] eqn:Hp; simpl; [|done].
    destruct (negb (isActive s) || negb (isFirstTimeSetup st)); simpl;
      [shared_go k|].
    destruct (String.eqb text (uploadPassword pw)); simpl; shared_go k.
  - shared_go k.
  - shared_go k.
Qed.

Lemma shared_exec_serial pw tr st k :
  exec pw st (replicate k Returned ++ (Dispatched <$> tr))
       (serial k (List.length tr))
  = (λ r, (fst r, snd r, replicate (k + List.length tr) Returned))
    <$> run pw st tr.
Proof.
  revert st k. induction tr as [|e tr IH]; intros st k.
  - simpl. by rewrite app_nil_r, Nat.add_0_r.
  - change (serial k (List.length (e :: tr)))
      with ([k; k; k] ++ serial (S k) (List.length tr)).
    rewrite shared_exec_app. rewrite fmap_cons.
    rewrite (shared_exec_alone _ _ _ _ _ k) by apply length_replicate.
    simpl. destruct (step pw st e) as [[st1 acts1]|]; [|done]. simpl.
    rewrite cons_middle, app_assoc, <- replicate_S_end, IH.
    destruct (run pw st1 tr) as [[st2 acts2]|]; [|done]. simpl.
    by rewrite Nat.add_succ_r.
Qed.

End SharedOverlapFacts.

Module PerChatOverlapFacts.
Import PerChat PerChatOverlap.

Lemma exec_at pw st (pre post : list Pending) h k sched :
  List.length pre = k →
  exec pw st (pre ++ h :: post) (k :: sched)
  = match resume pw st h with
    | None => None
    | Some (st1, acts1, h1) =>
      match exec pw st1 (pre ++ h1 :: post) sched with
      | None => None
      | Some (st2, acts2, pool2) => Some (st2, acts1 ++ acts2, pool2)
      end
    end.
Proof.
  intros <-. simpl. rewrite list_lookup_middle by done.
  destruct (resume pw st h) as [[[st1 acts1] h1]|]; [|done].
  rewrite insert_app_r_alt by done. by rewrite Nat.sub_diag.
Qed.

Lemma exec_app pw st pool sched1 sched2 :
  exec pw st pool (sched1 ++ sched2)
  = match exec pw st pool sched1 with
    | None => None
    | Some (st1, acts1, pool1) =>
      match exec pw st1 pool1 sched2 with
      | None => None
      | Some (st2, acts2, pool2) => Some (st2, acts1 ++ acts2, pool2)
      end
    end.
Proof.
  revert st pool. induction sched1 as [|i sched1 IH]; intros st pool; simpl.
  - by destruct (exec pw st pool sched2) as [[[st2 acts2] pool2]|].
  - destruct (pool !! i) as [h|]; [|apply IH].
    destruct (resume pw st h) as [[[st1 acts1] h1]|]; [|done].
    rewrite IH.
    destruct (exec pw st1 (<[i:=h1]> pool) sched1) as [[[st2 acts2] pool2]|];
      [|done].
    destruct (exec pw st2 pool2 sched2) as [[[st3 acts3] pool3]|]; [|done].
    by rewrite app_assoc.
Qed.

Lemma exec_nil pw st pool :
  exec pw st pool [] = Some (st, [], pool).
Proof. done. Qed.

#[local] Arguments exec : simpl never.

Ltac go k :=
  repeat first [ rewrite exec_nil
               | rewrite (exec_at _ _ _ _ _ k) by done
               | rewrite app_nil_r
               | progress simpl ];
  try done.

Lemma exec_alone pw st (pre post : list Pending) e k :
  List.length pre = k →
  exec pw st (pre ++ Dispatched e :: post) [k; k; k]
  = (λ r, (fst r, snd r, pre ++ Returned :: post)) <$> step pw st e.
Proof.
  intros Hk. rewrite (exec_at _ _ _ _ _ k) by done.
  destruct e as [c|c now|c now|c|c name fe ue|c text|c res|c res]; simpl.
  - go k.
  - go k.
  - destruct (handleDone c now st) as [[st' acts]|]; [|done]. go k.
  - destruct (handleCancel c st) as [[st' acts]|]; [|done]. go k.
  - unfold beginDocument, handleDocument.
    destruct (uploadSessions st !! c) as [p|]; simpl; [|go k].
    destruct (heap st !! p) as [s|] eqn:Hp; simpl; [|done].
    destruct (negb (isActive s)); simpl; [go k|].
    destruct (negb (authenticated s)); simpl; [go k|].
    destruct (negb (HasSuffix name jar)); simpl; [go k|].
    rewrite (exec_at _ _ _ _ _ k) by done. simpl. unfold endTransfer.
    destruct fe as [err|]; simpl; [go k|].
    destruct ue as [err|]; simpl; [go k|].
    rewrite Hp. simpl. rewrite (exec_at _ _ _ _ _ k) by done. simpl.
    unfold endIncrement. rewrite Hp. go k.
  - destruct (handleText pw c text st) as [[st' acts]|]; [|done]. go k.
  - go k.
  - go k.
Qed.

Lemma exec_serial pw tr st k :
  exec pw st (replicate k Returned ++ (Dispatched <$> tr))
       (serial k (List.length tr))
  = (λ r, (fst r, snd r, replicate (k + List.length tr) Returned))
    <$> run pw st tr.
Proof.
  revert st k. induction tr as [|e tr IH]; intros st k.
  - simpl. by rewrite app_nil_r, Nat.add_0_r.
  - change (serial k (List.length (e :: tr)))
      with ([k; k; k] ++ serial (S k) (List.length tr)).
    rewrite exec_app. rewrite fmap_cons.
    rewrite (exec_alone _ _ _ _ _ k) by apply length_replicate.
    simpl. destruct (step pw st e) as [[st1 acts1]|]; [|done]. simpl.
    rewrite cons_middle, app_assoc, <- replicate_S_end, IH.
    destruct (run pw st1 tr) as [[st2 acts2]|]; [|done]. simpl.
    by rewrite Nat.add_succ_r.
Qed.

End PerChatOverlapFacts.

(** ** Handlers that overlap: what every schedule preserves *)

Module SharedOverlapInv.
Import SharedAuth SharedOverlap SharedAuthFacts.

Lemma shared_designates_write st c (p q : ptr) t s' m b :
  designates st c p → heap st !! q = Some t → chatID s' = chatID t →
  designates (mkState (<[q := s']> (heap st)) m b) c p.
Proof.
  intros (s & Hp & Hid) Hq Hsame. unfold designates. simpl.
  destruct (decide (p = q)) as [->|Hne].
  - exists s'. rewrite list_lookup_insert_eq by (by eapply lookup_lt_Some).
    split; [done|]. congruence.
  - exists s. by rewrite list_lookup_insert_ne.
Qed.

Lemma shared_designates_step pw st e st' acts c (p : ptr) :
  step pw st e = Some (st', acts) → designates st c p → designates st' c p.
Proof.
  intros Hstep (s & Hp & Hid).
  destruct (shared_step_object _ _ _ _ _ _ _ Hstep Hp) as (s' & Hp' & Hobj).
  exists s'. split; [done|]. destruct Hobj as (Hc & _). congruence.
Qed.

(** A handler in flight whose [session] designates an object resumes
    without a fault, and what the others hold stays sound. *)
Lemma shared_resume_wf pw st h :
  wf st → holds_session st h →
  ∃ st' acts h',
    resume pw st h = Some (st', acts, h') ∧ wf st'
    ∧ (∀ c (p : ptr), designates st c p → designates st' c p)
    ∧ holds_session st' h'.
Proof.
  intros Hwf Hh.
  assert (Hstep : ∀ e,
    ∃ st' acts,
      step pw st e = Some (st', acts) ∧ wf st'
      ∧ (∀ c (p : ptr), designates st c p → designates st' c p)).
  { intros e. destruct (shared_wf_step pw st e Hwf) as (st' & acts & He & Hwf').
    exists st', acts. split; [done|]. split; [done|].
    intros c p. by eapply shared_designates_step. }
  destruct h as [e|c name fe ue p|c name p count|c|]; simpl.
  - destruct e as [c|c now|c now|c|c name fe ue|c text|c res|c res].
    + destruct (Hstep (CmdStart c)) as (st' & acts & -> & ? & ?).
      by exists st', acts, Returned.
    + destruct (Hstep (CmdUpload c now)) as (st' & acts & -> & ? & ?).
      by exists st', acts, Returned.
    + destruct (Hstep (CmdDone c now)) as (st' & acts & -> & ? & ?).
      by exists st', acts, Returned.
    + destruct (Hstep (CmdCancel c)) as (st' & acts & -> & ? & ?).
      by exists st', acts, Returned.
    + unfold beginDocument. read_session Hwf c; [|by (do 3 eexists; repeat split)].
      destruct (negb (isActive s)); [by (do 3 eexists; repeat split)|].
      destruct (isFirstTimeSetup st); [by (do 3 eexists; repeat split)|].
      destruct (negb (HasSuffix name jar)); [by (do 3 eexists; repeat split)|].
      do 3 eexists. split; [done|]. split; [done|]. split; [done|].
      by exists s.
    + unfold beginText. read_session Hwf c; [|by (do 3 eexists; repeat split)].
      destruct (negb (isActive s) || negb (isFirstTimeSetup st));
        [by (do 3 eexists; repeat split)|].
      destruct (String.eqb text (uploadPassword pw)); [by (do 3 eexists; repeat split)|].
      do 3 eexists. split; [done|]. split.
      { eapply shared_wf_write; [done..|apply delete_subseteq]. }
      split; [|done]. intros c' p'. intros Hd.
      by eapply shared_designates_write.
    + destruct (Hstep (CmdList c res)) as (st' & acts & -> & ? & ?).
      by exists st', acts, Returned.
    + destruct (Hstep (CmdQuantity c res)) as (st' & acts & -> & ? & ?).
      by exists st', acts, Returned.
  - unfold endTransfer. destruct Hh as (s & Hp & Hid).
    destruct fe as [err|]; [by (do 3 eexists; repeat split)|].
    destruct ue as [err|]; [by (do 3 eexists; repeat split)|].
    rewrite Hp. do 3 eexists. split; [done|]. split; [done|].
    split; [done|]. by exists s.
  - unfold endIncrement. destruct Hh as (s & Hp & Hid). rewrite Hp.
    do 3 eexists. split; [done|]. split.
    { by eapply shared_wf_write. }
    split; [|done]. intros c' p' Hd. by eapply shared_designates_write.
  - unfold endCreate. do 3 eexists. split; [done|]. by split.
  - by (do 3 eexists; repeat split).
Qed.

Lemma shared_transfers_ok_app c log1 log2 :
  transfers_ok c (log1 ++ log2)
  = (transfers_ok c log1 + transfers_ok c log2)%nat.
Proof. unfold transfers_ok. by rewrite List.filter_app, length_app. Qed.

Lemma shared_transfers_ok_le c log :
  (transfers_ok c log ≤ List.length log)%nat.
Proof. unfold transfers_ok. apply List.filter_length_le. Qed.

Lemma shared_counted_mono st log1 log2 :
  counted st log1 → counted st (log1 ++ log2).
Proof.
  intros Hc p s Hp. specialize (Hc p s Hp).
  rewrite shared_transfers_ok_app. lia.
Qed.

Lemma shared_loaded_ok_mono log1 log2 h :
  loaded_ok log1 h → loaded_ok (log1 ++ log2) h.
Proof.
  destruct h; simpl; try done. rewrite shared_transfers_ok_app. lia.
Qed.

Lemma shared_counted_write st log (q : ptr) t s' m b :
  counted st log → heap st !! q = Some t → chatID s' = chatID t →
  0 ≤ uploadCount s' ≤ Z.of_nat (transfers_ok (chatID t) log) →
  counted (mkState (<[q := s']> (heap st)) m b) log.
Proof.
  intros Hc Hq Hid Hb p s. simpl. destruct (decide (p = q)) as [->|Hne].
  - rewrite list_lookup_insert_eq by (by eapply lookup_lt_Some).
    intros [= <-]. by rewrite Hid.
  - rewrite list_lookup_insert_ne by done. apply (Hc p).
Qed.

Lemma shared_counted_alloc st log c now m b :
  counted st log →
  counted (mkState (heap st ++ [newSession c now]) m b) log.
Proof.
  intros Hc p s. simpl. intros Hp.
  apply lookup_app_Some in Hp as [Hp|[_ Hp]]; [by apply (Hc p)|].
  destruct (p - List.length (heap st))%nat; [|done].
  injection Hp as <-. simpl. lia.
Qed.

(** A handler other than the document handler writes no counter. *)
Lemma shared_counted_step_plain pw st e st' acts log :
  counted st log → (∀ c name fe ue, e ≠ OnDocument c name fe ue) →
  step pw st e = Some (st', acts) → counted st' log.
Proof.
  intros Hc Hdoc Hstep.
  destruct e as [c|c now|c now|c|c name fe ue|c text|c res|c res];
    simpl in Hstep.
  - by injection Hstep as <- <-.
  - rewrite handleUpload_eq in Hstep. injection Hstep as <- <-.
    by apply shared_counted_alloc.
  - unfold handleDone in Hstep.
    repeat case_match; try discriminate; injection Hstep as <- <-; try done.
    eapply shared_counted_write; [done..|]. simpl. by apply (Hc p).
  - unfold handleCancel in Hstep.
    repeat case_match; try discriminate; injection Hstep as <- <-; try done.
    eapply shared_counted_write; [done..|]. simpl. by apply (Hc p).
  - by destruct (Hdoc c name fe ue).
  - unfold handleText in Hstep.
    repeat case_match; try discriminate; injection Hstep as <- <-; try done.
    eapply shared_counted_write; [done..|]. simpl. by apply (Hc p).
  - by injection Hstep as <- <-.
  - by injection Hstep as <- <-.
Qed.

(** Resuming a handler keeps every counter within the number of documents
    of its conversation stored so far. *)
Lemma shared_resume_counted pw st log h st' acts h' :
  wf st → holds_session st h → counted st log → loaded_ok log h →
  Z.of_nat (List.length log) < int_max →
  resume pw st h = Some (st', acts, h') →
  counted st' (log ++ [(h, acts)]) ∧ loaded_ok (log ++ [(h, acts)]) h'.
Proof.
  intros Hwf Hh Hc Hl Hfit Hres.
  assert (Hplain : ∀ e,
    (∀ c name fe ue, e ≠ OnDocument c name fe ue) →
    match step pw st e with
    | Some (st1, acts1) => Some (st1, acts1, Returned)
    | None => None
    end = Some (st', acts, h') →
    counted st' (log ++ [(Dispatched e, acts)])
    ∧ loaded_ok (log ++ [(Dispatched e, acts)]) h').
  { intros e Hdoc He.
    destruct (step pw st e) as [[st1 acts1]|] eqn:Hstep; [|done].
    injection He as <- <- <-. split; [|done]. apply shared_counted_mono.
    by eapply shared_counted_step_plain. }
  destruct h as [e|c name fe ue p|c name p count|c|]; simpl in Hres.
  - destruct e as [c|c now|c now|c|c name fe ue|c text|c res|c res];
      try (by apply Hplain).
    + unfold beginDocument in Hres.
      repeat case_match; try discriminate; injection Hres as <- <- <-;
        (split; [|done]); by apply shared_counted_mono.
    + unfold beginText in Hres.
      repeat case_match; try discriminate; injection Hres as <- <- <-;
        (split; [|done]); apply shared_counted_mono; try done.
      eapply shared_counted_write; [done..|]. simpl. by apply (Hc p).
  - destruct Hh as (s & Hp & Hid). unfold endTransfer in Hres.
    destruct fe as [err|];
      [injection Hres as <- <- <-; split; [by apply shared_counted_mono|done]|].
    destruct ue as [err|];
      [injection Hres as <- <- <-; split; [by apply shared_counted_mono|done]|].
    rewrite Hp in Hres. injection Hres as <- <- <-.
    split; [by apply shared_counted_mono|]. simpl.
    rewrite shared_transfers_ok_app. unfold transfers_ok at 2. simpl.
    unfold transfer_ok. simpl.
    rewrite bool_decide_eq_true_2, String.eqb_refl by done. simpl.
    specialize (Hc p s Hp). rewrite Hid in Hc. lia.
  - destruct Hh as (s & Hp & Hid). unfold endIncrement in Hres.
    rewrite Hp in Hres. injection Hres as <- <- <-. split; [|done].
    apply shared_counted_mono. simpl in Hl.
    pose proof (shared_transfers_ok_le c log) as Hle.
    eapply shared_counted_write; [done..|]. simpl.
    rewrite Hid, int_incr_below by (unfold int_min; lia). lia.
  - unfold endCreate in Hres. injection Hres as <- <- <-.
    split; [|done]. by apply shared_counted_mono.
  - injection Hres as <- <- <-. split; [by apply shared_counted_mono|done].
Qed.


Lemma shared_holds_session_ext st st' h :
  (∀ c (p : ptr), designates st c p → designates st' c p) →
  holds_session st h → holds_session st' h.
Proof. intros Hext. destruct h; simpl; auto. Qed.


(** Under every schedule the handlers run to the end of the schedule
    without a fault, in well-formed states. *)
Lemma shared_exec_log_wf pw schedule st pool :
  wf st → Forall (holds_session st) pool →
  ∃ st' log pool',
    exec_log pw st pool schedule = Some (st', log, pool')
    ∧ wf st' ∧ Forall (holds_session st') pool'.
Proof.
  revert st pool. induction schedule as [|i schedule IH];
    intros st pool Hwf Hpool; simpl.
  - by exists st, [], pool.
  - destruct (pool !! i) as [h|] eqn:Hi; [|by apply IH].
    assert (Hh : holds_session st h) by (by eapply Forall_lookup_1).
    destruct (shared_resume_wf pw st h Hwf Hh)
      as (st1 & acts1 & h1 & -> & Hwf1 & Hext & Hh1).
    destruct (IH st1 (<[i:=h1]> pool) Hwf1)
      as (st2 & log & pool2 & -> & Hwf2 & Hpool2).
    { apply Forall_insert; [|done]. eapply Forall_impl; [done|].
      intros h0. by apply shared_holds_session_ext. }
    by exists st2, ((h, acts1) :: log), pool2.
Qed.

Lemma shared_exec_log_counted pw schedule st pool done st' log pool' :
  wf st → Forall (holds_session st) pool →
  counted st done → Forall (loaded_ok done) pool →
  Z.of_nat (List.length done + List.length schedule) ≤ int_max →
  exec_log pw st pool schedule = Some (st', log, pool') →
  counted st' (done ++ log).
Proof.
  revert st pool done log. induction schedule as [|i schedule IH];
    intros st pool done log Hwf Hpool Hc Hl Hfit Hexec; simpl in Hexec.
  - injection Hexec as <- <- <-. by rewrite app_nil_r.
  - simpl in Hfit.
    destruct (pool !! i) as [h|] eqn:Hi;
      [|eapply IH; [done..| |exact Hexec]; lia].
    assert (Hh : holds_session st h) by (by eapply Forall_lookup_1).
    assert (Hlh : loaded_ok done h) by (by eapply Forall_lookup_1).
    destruct (shared_resume_wf pw st h Hwf Hh)
      as (st1 & acts1 & h1 & Hres & Hwf1 & Hext & Hh1).
    rewrite Hres in Hexec.
    destruct (shared_resume_counted pw st done h st1 acts1 h1)
      as [Hc1 Hl1]; [done..|lia|done|].
    destruct (exec_log pw st1 (<[i:=h1]> pool) schedule)
      as [[[st2 log2] pool2]|] eqn:Hrest; [|done].
    injection Hexec as <- <- <-.
    rewrite cons_middle, app_assoc.
    eapply (IH st1 (<[i:=h1]> pool)); [done| |done| | |exact Hrest].
    + apply Forall_insert; [|done]. eapply Forall_impl; [exact Hpool|].
      intros h0. by apply shared_holds_session_ext.
    + apply Forall_insert; [|done]. eapply Forall_impl; [exact Hl|].
      intros h0. by apply shared_loaded_ok_mono.
    + rewrite length_app. simpl. lia.
Qed.

End SharedOverlapInv.

Module PerChatOverlapInv.
Import PerChat PerChatOverlap PerChatFacts.

Lemma designates_write st c (p q : ptr) t s' m :
  designates st c p → heap st !! q = Some t → chatID s' = chatID t →
  designates (mkState (<[q := s']> (heap st)) m) c p.
Proof.
  intros (s & Hp & Hid) Hq Hsame. unfold designates. simpl.
  destruct (decide (p = q)) as [->|Hne].
  - exists s'. rewrite list_lookup_insert_eq by (by eapply lookup_lt_Some).
    split; [done|]. congruence.
  - exists s. by rewrite list_lookup_insert_ne.
Qed.

Lemma designates_step pw st e st' acts c (p : ptr) :
  step pw st e = Some (st', acts) → designates st c p → designates st' c p.
Proof.
  intros Hstep (s & Hp & Hid).
  destruct (step_object _ _ _ _ _ _ _ Hstep Hp) as (s' & Hp' & Hobj).
  exists s'. split; [done|]. destruct Hobj as (Hc & _). congruence.
Qed.

(** A handler in flight whose [session] designates an object resumes
    without a fault, and what the others hold stays sound. *)
Lemma resume_wf pw st h :
  wf st → holds_session st h →
  ∃ st' acts h',
    resume pw st h = Some (st', acts, h') ∧ wf st'
    ∧ (∀ c (p : ptr), designates st c p → designates st' c p)
    ∧ holds_session st' h'.
Proof.
  intros Hwf Hh.
  assert (Hstep : ∀ e,
    ∃ st' acts,
      step pw st e = Some (st', acts) ∧ wf st'
      ∧ (∀ c (p : ptr), designates st c p → designates st' c p)).
  { intros e. destruct (wf_step pw st e Hwf) as (st' & acts & He & Hwf').
    exists st', acts. split; [done|]. split; [done|].
    intros c p. by eapply designates_step. }
  destruct h as [e|c name fe ue p|c name p count|]; simpl.
  - destruct e as [c|c now|c now|c|c name fe ue|c text|c res|c res].
    + destruct (Hstep (CmdStart c)) as (st' & acts & -> & ? & ?).
      by exists st', acts, Returned.
    + destruct (Hstep (CmdUpload c now)) as (st' & acts & -> & ? & ?).
      by exists st', acts, Returned.
    + destruct (Hstep (CmdDone c now)) as (st' & acts & -> & ? & ?).
      by exists st', acts, Returned.
    + destruct (Hstep (CmdCancel c)) as (st' & acts & -> & ? & ?).
      by exists st', acts, Returned.
    + unfold beginDocument. read_session Hwf c; [|by (do 3 eexists; repeat split)].
      destruct (negb (isActive s)); [by (do 3 eexists; repeat split)|].
      destruct (negb (authenticated s)); [by (do 3 eexists; repeat split)|].
      destruct (negb (HasSuffix name jar)); [by (do 3 eexists; repeat split)|].
      do 3 eexists. split; [done|]. split; [done|]. split; [done|].
      by exists s.
    + destruct (Hstep (OnText c text)) as (st' & acts & -> & ? & ?).
      by exists st', acts, Returned.
    + destruct (Hstep (CmdList c res)) as (st' & acts & -> & ? & ?).
      by exists st', acts, Returned.
    + destruct (Hstep (CmdQuantity c res)) as (st' & acts & -> & ? & ?).
      by exists st', acts, Returned.
  - unfold endTransfer. destruct Hh as (s & Hp & Hid).
    destruct fe as [err|]; [by (do 3 eexists; repeat split)|].
    destruct ue as [err|]; [by (do 3 eexists; repeat split)|].
    rewrite Hp. do 3 eexists. split; [done|]. split; [done|].
    split; [done|]. by exists s.
  - unfold endIncrement. destruct Hh as (s & Hp & Hid). rewrite Hp.
    do 3 eexists. split; [done|]. split.
    { by eapply wf_write. }
    split; [|done]. intros c' p' Hd. by eapply designates_write.
  - by (do 3 eexists; repeat split).
Qed.

Lemma transfers_ok_app c log1 log2 :
  transfers_ok c (log1 ++ log2)
  = (transfers_ok c log1 + transfers_ok c log2)%nat.
Proof. unfold transfers_ok. by rewrite List.filter_app, length_app. Qed.

Lemma transfers_ok_le c log :
  (transfers_ok c log ≤ List.length log)%nat.
Proof. unfold transfers_ok. apply List.filter_length_le. Qed.

Lemma counted_mono st log1 log2 :
  counted st log1 → counted st (log1 ++ log2).
Proof.
  intros Hc p s Hp. specialize (Hc p s Hp).
  rewrite transfers_ok_app. lia.
Qed.

Lemma loaded_ok_mono log1 log2 h :
  loaded_ok log1 h → loaded_ok (log1 ++ log2) h.
Proof.
  destruct h; simpl; try done. rewrite transfers_ok_app. lia.
Qed.

Lemma counted_write st log (q : ptr) t s' m :
  counted st log → heap st !! q = Some t → chatID s' = chatID t →
  0 ≤ uploadCount s' ≤ Z.of_nat (transfers_ok (chatID t) log) →
  counted (mkState (<[q := s']> (heap st)) m) log.
Proof.
  intros Hc Hq Hid Hb p s. simpl. destruct (decide (p = q)) as [->|Hne].
  - rewrite list_lookup_insert_eq by (by eapply lookup_lt_Some).
    intros [= <-]. by rewrite Hid.
  - rewrite list_lookup_insert_ne by done. apply (Hc p).
Qed.

Lemma counted_alloc st log c now m :
  counted st log →
  counted (mkState (heap st ++ [newSession c now]) m) log.
Proof.
  intros Hc p s. simpl. intros Hp.
  apply lookup_app_Some in Hp as [Hp|[_ Hp]]; [by apply (Hc p)|].
  destruct (p - List.length (heap st))%nat; [|done].
  injection Hp as <-. simpl. lia.
Qed.

(** A handler other than the document handler writes no counter. *)
Lemma counted_step_plain pw st e st' acts log :
  counted st log → (∀ c name fe ue, e ≠ OnDocument c name fe ue) →
  step pw st e = Some (st', acts) → counted st' log.
Proof.
  intros Hc Hdoc Hstep.
  destruct e as [c|c now|c now|c|c name fe ue|c text|c res|c res];
    simpl in Hstep.
  - by injection Hstep as <- <-.
  - injection Hstep as <- <-. by apply counted_alloc.
  - unfold handleDone in Hstep.
    repeat case_match; try discriminate; injection Hstep as <- <-; try done.
    eapply counted_write; [done..|]. simpl. by apply (Hc p).
  - unfold handleCancel in Hstep.
    repeat case_match; try discriminate; injection Hstep as <- <-; try done.
    eapply counted_write; [done..|]. simpl. by apply (Hc p).
  - by destruct (Hdoc c name fe ue).
  - unfold handleText in Hstep.
    repeat case_match; try discriminate; injection Hstep as <- <-; try done.
    all: eapply counted_write; [done..|]; simpl; by apply (Hc p).
  - by injection Hstep as <- <-.
  - by injection Hstep as <- <-.
Qed.

(** Resuming a handler keeps every counter within the number of documents
    of its conversation stored so far. *)
Lemma resume_counted pw st log h st' acts h' :
  wf st → holds_session st h → counted st log → loaded_ok log h →
  Z.of_nat (List.length log) < int_max →
  resume pw st h = Some (st', acts, h') →
  counted st' (log ++ [(h, acts)]) ∧ loaded_ok (log ++ [(h, acts)]) h'.
Proof.
  intros Hwf Hh Hc Hl Hfit Hres.
  assert (Hplain : ∀ e,
    (∀ c name fe ue, e ≠ OnDocument c name fe ue) →
    match step pw st e with
    | Some (st1, acts1) => Some (st1, acts1, Returned)
    | None => None
    end = Some (st', acts, h') →
    counted st' (log ++ [(Dispatched e, acts)])
    ∧ loaded_ok (log ++ [(Dispatched e, acts)]) h').
  { intros e Hdoc He.
    destruct (step pw st e) as [[st1 acts1]|] eqn:Hstep; [|done].
    injection He as <- <- <-. split; [|done]. apply counted_mono.
    by eapply counted_step_plain. }
  destruct h as [e|c name fe ue p|c name p count|]; simpl in Hres.
  - destruct e as [c|c now|c now|c|c name fe ue|c text|c res|c res];
      try (by apply Hplain).
    + unfold beginDocument in Hres.
      repeat case_match; try discriminate; injection Hres as <- <- <-;
        (split; [|done]); by apply counted_mono.
  - destruct Hh as (s & Hp & Hid). unfold endTransfer in Hres.
    destruct fe as [err|];
      [injection Hres as <- <- <-; split; [by apply counted_mono|done]|].
    destruct ue as [err|];
      [injection Hres as <- <- <-; split; [by apply counted_mono|done]|].
    rewrite Hp in Hres. injection Hres as <- <- <-.
    split; [by apply counted_mono|]. simpl.
    rewrite transfers_ok_app. unfold transfers_ok at 2. simpl.
    unfold transfer_ok. simpl.
    rewrite bool_decide_eq_true_2, String.eqb_refl by done. simpl.
    specialize (Hc p s Hp). rewrite Hid in Hc. lia.
  - destruct Hh as (s & Hp & Hid). unfold endIncrement in Hres.
    rewrite Hp in Hres. injection Hres as <- <- <-. split; [|done].
    apply counted_mono. simpl in Hl.
    pose proof (transfers_ok_le c log) as Hle.
    eapply counted_write; [done..|]. simpl.
    rewrite Hid, int_incr_below by (unfold int_min; lia). lia.
  - injection Hres as <- <- <-. split; [by apply counted_mono|done].
Qed.


Lemma holds_session_ext st st' h :
  (∀ c (p : ptr), designates st c p → designates st' c p) →
  holds_session st h → holds_session st' h.
Proof. intros Hext. destruct h; simpl; auto. Qed.


(** Under every schedule the handlers run to the end of the schedule
    without a fault, in well-formed states. *)
Lemma exec_log_wf pw schedule st pool :
  wf st → Forall (holds_session st) pool →
  ∃ st' log pool',
    exec_log pw st pool schedule = Some (st', log, pool')
    ∧ wf st' ∧ Forall (holds_session st') pool'.
Proof.
  revert st pool. induction schedule as [|i schedule IH];
    intros st pool Hwf Hpool; simpl.
  - by exists st, [], pool.
  - destruct (pool !! i) as [h|] eqn:Hi; [|by apply IH].
    assert (Hh : holds_session st h) by (by eapply Forall_lookup_1).
    destruct (resume_wf pw st h Hwf Hh)
      as (st1 & acts1 & h1 & -> & Hwf1 & Hext & Hh1).
    destruct (IH st1 (<[i:=h1]> pool) Hwf1)
      as (st2 & log & pool2 & -> & Hwf2 & Hpool2).
    { apply Forall_insert; [|done]. eapply Forall_impl; [done|].
      intros h0. by apply holds_session_ext. }
    by exists st2, ((h, acts1) :: log), pool2.
Qed.

Lemma exec_log_counted pw schedule st pool done st' log pool' :
  wf st → Forall (holds_session st) pool →
  counted st done → Forall (loaded_ok done) pool →
  Z.of_nat (List.length done + List.length schedule) ≤ int_max →
  exec_log pw st pool schedule = Some (st', log, pool') →
  counted st' (done ++ log).
Proof.
  revert st pool done log. induction schedule as [|i schedule IH];
    intros st pool done log Hwf Hpool Hc Hl Hfit Hexec; simpl in Hexec.
  - injection Hexec as <- <- <-. by rewrite app_nil_r.
  - simpl in Hfit.
    destruct (pool !! i) as [h|] eqn:Hi;
      [|eapply IH; [done..| |exact Hexec]; lia].
    assert (Hh : holds_session st h) by (by eapply Forall_lookup_1).
    assert (Hlh : loaded_ok done h) by (by eapply Forall_lookup_1).
    destruct (resume_wf pw st h Hwf Hh)
      as (st1 & acts1 & h1 & Hres & Hwf1 & Hext & Hh1).
    rewrite Hres in Hexec.
    destruct (resume_counted pw st done h st1 acts1 h1)
      as [Hc1 Hl1]; [done..|lia|done|].
    destruct (exec_log pw st1 (<[i:=h1]> pool) schedule)
      as [[[st2 log2] pool2]|] eqn:Hrest; [|done].
    injection Hexec as <- <- <-.
    rewrite cons_middle, app_assoc.
    eapply (IH st1 (<[i:=h1]> pool)); [done| |done| | |exact Hrest].
    + apply Forall_insert; [|done]. eapply Forall_impl; [exact Hpool|].
      intros h0. by apply holds_session_ext.
    + apply Forall_insert; [|done]. eapply Forall_impl; [exact Hl|].
      intros h0. by apply loaded_ok_mono.
    + rewrite length_app. simpl. lia.
Qed.

End PerChatOverlapInv.

(** ** Handlers that overlap: what the program can show *)

(** X4. [/done] does not wait for a document that is being stored.  Take a
    conversation with an active, authenticated session and a document
    named [*.jar] that downloads and is stored.  If [/done] is handled
    while the document handler is in [b.File] or [uploadFile], the summary
    reports the counter without that document and the conversation has no
    session any more; the document handler then adds one to the counter of
    the session object it holds, which is inactive and out of the map, and
    its message, sent after the summary, reports one more file than the
    summary did.  Handled one after the other, the same two updates give a
    summary that counts the document. *)
Theorem done_during_upload_misses_the_document
    (pw : string) (c now : Z) (name : string) :
  HasSuffix name jar = true →
  (∀ st (p : ptr) s,
     PerChat.session_of st c p s →
     PerChat.isActive s = true → PerChat.authenticated s = true →
     (∃ st',
        PerChatOverlap.exec pw st
          [PerChatOverlap.Dispatched (OnDocument c name None None);
           PerChatOverlap.Dispatched (CmdDone c now)]
          [0; 1; 0; 0]%nat
        = Some (st',
                [Send c (MsgProgress name (PerChat.uploadCount s));
                 Send c (MsgCompleted (PerChat.uploadCount s)
                                      (PerChat.startTime s) now);
                 BotFile name None; DriveUpload name None;
                 Send c (MsgUploaded name (int_incr (PerChat.uploadCount s)))],
                [PerChatOverlap.Returned; PerChatOverlap.Returned])
        ∧ PerChat.uploadSessions st' !! c = None
        ∧ PerChat.heap st' !! p
          = Some (PerChat.set_inactive (PerChat.incr_uploadCount s)))
     ∧ (∃ st' acts,
          PerChat.run pw st [OnDocument c name None None; CmdDone c now]
          = Some (st', acts)
          ∧ last acts
            = Some (Send c (MsgCompleted (int_incr (PerChat.uploadCount s))
                                         (PerChat.startTime s) now))))
  ∧ (∀ st (p : ptr) s,
       SharedAuth.session_of st c p s →
       SharedAuth.isActive s = true → SharedAuth.isFirstTimeSetup st = false →
       (∃ st',
          SharedOverlap.exec pw st
            [SharedOverlap.Dispatched (OnDocument c name None None);
             SharedOverlap.Dispatched (CmdDone c now)]
            [0; 1; 0; 0]%nat
          = Some (st',
                  [Send c (MsgProgress name (SharedAuth.uploadCount s));
                   Send c (MsgCompleted (SharedAuth.uploadCount s)
                                        (SharedAuth.startTime s) now);
                   BotFile name None; DriveUpload name None;
                   Send c (MsgUploaded name
                             (int_incr (SharedAuth.uploadCount s)))],
                  [SharedOverlap.Returned; SharedOverlap.Returned])
          ∧ SharedAuth.uploadSessions st' !! c = None
          ∧ SharedAuth.heap st' !! p
            = Some (SharedAuth.set_inactive (SharedAuth.incr_uploadCount s)))
       ∧ (∃ st' acts,
            SharedAuth.run pw st [OnDocument c name None None; CmdDone c now]
            = Some (st', acts)
            ∧ last acts
              = Some (Send c (MsgCompleted
                                (int_incr (SharedAuth.uploadCount s))
                                (SharedAuth.startTime s) now)))).
Proof.
  intros Hjar. split.
  - intros st p s [Hc Hp] Hact Hauth.
    assert (Hlt : (p < List.length (PerChat.heap st))%nat)
      by (by eapply lookup_lt_Some).
    split.
    + simpl. unfold PerChatOverlap.beginDocument.
      rewrite Hc, Hp, Hact, Hauth, Hjar. simpl.
      unfold PerChat.handleDone. rewrite Hc, Hp, Hact. simpl.
      unfold PerChatOverlap.endTransfer. simpl.
      rewrite list_lookup_insert_eq by done. simpl.
      unfold PerChatOverlap.endIncrement. simpl.
      rewrite list_lookup_insert_eq by done. simpl.
      eexists. split; [done|]. simpl. split; [by rewrite lookup_delete_eq|].
      rewrite list_lookup_insert_eq; [done|]. by rewrite length_insert.
    + simpl.
      rewrite (PerChatFacts.handleDocument_uploading _ _ _ _ _ _ _
                 (conj Hc Hp) Hact Hauth), Hjar. simpl.
      unfold PerChat.handleDone. simpl.
      rewrite Hc, list_lookup_insert_eq by done. simpl. rewrite Hact. simpl.
      by do 2 eexists.
  - intros st p s [Hc Hp] Hact Hflag.
    assert (Hlt : (p < List.length (SharedAuth.heap st))%nat)
      by (by eapply lookup_lt_Some).
    split.
    + simpl. unfold SharedOverlap.beginDocument.
      rewrite Hc, Hp, Hact, Hflag, Hjar. simpl.
      unfold SharedAuth.handleDone. rewrite Hc, Hp, Hact. simpl.
      unfold SharedOverlap.endTransfer. simpl.
      rewrite list_lookup_insert_eq by done. simpl.
      unfold SharedOverlap.endIncrement. simpl.
      rewrite list_lookup_insert_eq by done. simpl.
      eexists. split; [done|]. simpl. split; [by rewrite lookup_delete_eq|].
      rewrite list_lookup_insert_eq; [done|]. by rewrite length_insert.
    + simpl.
      rewrite (SharedAuthFacts.shared_handleDocument_uploading _ _ _ _ _ _ _
                 (conj Hc Hp) Hact Hflag), Hjar. simpl.
      unfold SharedAuth.handleDone. simpl.
      rewrite Hc, list_lookup_insert_eq by done. simpl. rewrite Hact. simpl.
      by do 2 eexists.
Qed.

Lemma done_during_upload_misses_the_document_witness :
  (∃ st',
     PerChatOverlap.exec "secret" (PerChat.uploading_state 0)
       [PerChatOverlap.Dispatched (OnDocument 7 "mod1.jar" None None);
        PerChatOverlap.Dispatched (CmdDone 7 160)]
       [0; 1; 0; 0]%nat
     = Some (st',
             [Send 7 (MsgProgress "mod1.jar" 0); Send 7 (MsgCompleted 0 100 160);
              BotFile "mod1.jar" None; DriveUpload "mod1.jar" None;
              Send 7 (MsgUploaded "mod1.jar" 1)],
             [PerChatOverlap.Returned; PerChatOverlap.Returned])
     ∧ PerChat.uploadSessions st' !! 7 = None
     ∧ PerChat.heap st' !! 0%nat = Some (PerChat.mkSession 7 false 1 100 true))
  ∧ (∃ st',
       SharedOverlap.exec "secret" (SharedAuth.uploading_state 0)
         [SharedOverlap.Dispatched (OnDocument 7 "mod1.jar" None None);
          SharedOverlap.Dispatched (CmdDone 7 160)]
         [0; 1; 0; 0]%nat
       = Some (st',
               [Send 7 (MsgProgress "mod1.jar" 0);
                Send 7 (MsgCompleted 0 100 160);
                BotFile "mod1.jar" None; DriveUpload "mod1.jar" None;
                Send 7 (MsgUploaded "mod1.jar" 1)],
               [SharedOverlap.Returned; SharedOverlap.Returned])
       ∧ SharedAuth.uploadSessions st' !! 7 = None
       ∧ SharedAuth.heap st' !! 0%nat = Some (SharedAuth.mkSession 7 false 1 100)).
Proof.
  destruct (done_during_upload_misses_the_document "secret" 7 160 "mod1.jar")
    as [HP HS]; [reflexivity|].
  split.
  - apply (HP (PerChat.uploading_state 0) 0%nat
              (PerChat.mkSession 7 true 0 100 true));
      [split; reflexivity|reflexivity..].
  - apply (HS (SharedAuth.uploading_state 0) 0%nat
              (SharedAuth.mkSession 7 true 0 100));
      [split; reflexivity|reflexivity..].
Defined.

(** X16. The flag file can be created more than once.  In [main.go] the
    text handler tests [isFirstTimeSetup], calls [os.Create], and only then
    clears the variable.  When two texts that are the configured password
    arrive for active sessions (of one conversation or two) before the
    password was ever entered, and the second handler makes its test while
    the first is in [os.Create], both create the file and both answer with
    the success message.  Handled one after the other, the first creates
    the file and the second is ignored without a reply. *)
Theorem flag_file_can_be_created_twice
    (pw text : string) (c1 c2 : Z) :
  (pw ≠ EmptyString ∧ text = pw)
  ∨ (pw = EmptyString ∧ text = "password"%string) →
  ∀ st (p1 p2 : ptr) s1 s2,
    SharedAuth.session_of st c1 p1 s1 → SharedAuth.isActive s1 = true →
    SharedAuth.session_of st c2 p2 s2 → SharedAuth.isActive s2 = true →
    SharedAuth.isFirstTimeSetup st = true →
    SharedOverlap.exec pw st
      [SharedOverlap.Dispatched (OnText c1 text);
       SharedOverlap.Dispatched (OnText c2 text)]
      [0; 1; 0; 1]%nat
    = Some (SharedAuth.mkState (SharedAuth.heap st)
              (SharedAuth.uploadSessions st) false,
            [CreateFlagFile; CreateFlagFile;
             Send c1 MsgPasswordAccepted; Send c2 MsgPasswordAccepted],
            [SharedOverlap.Returned; SharedOverlap.Returned])
    ∧ SharedAuth.run pw st [OnText c1 text; OnText c2 text]
      = Some (SharedAuth.mkState (SharedAuth.heap st)
                (SharedAuth.uploadSessions st) false,
              [CreateFlagFile; Send c1 MsgPasswordAccepted]).
Proof.
  intros Hconf st p1 p2 s1 s2 [Hc1 Hp1] Hact1 [Hc2 Hp2] Hact2 Hflag.
  assert (Hpw : uploadPassword pw = text).
  { destruct Hconf as [[Hset ->]|[-> ->]]; [|done].
    by apply uploadPassword_set. }
  split.
  - simpl. unfold SharedOverlap.beginText.
    rewrite Hc1, Hp1, Hact1, Hflag, Hpw, String.eqb_refl. simpl.
    rewrite Hc2, Hp2, Hact2, ?Hflag. simpl.
    done.
  - simpl. unfold SharedAuth.handleText.
    rewrite Hc1, Hp1, Hact1, Hflag, Hpw, String.eqb_refl. simpl.
    rewrite Hc2, Hp2, Hact2. done.
Qed.

Lemma flag_file_can_be_created_twice_witness :
  SharedOverlap.exec "secret"
    (SharedAuth.mkState
       [SharedAuth.mkSession 7 true 0 100; SharedAuth.mkSession 8 true 0 101]
       (<[8 := 1%nat]> {[ 7 := 0%nat ]}) true)
    [SharedOverlap.Dispatched (OnText 7 "secret");
     SharedOverlap.Dispatched (OnText 8 "secret")]
    [0; 1; 0; 1]%nat
  = Some (SharedAuth.mkState
            [SharedAuth.mkSession 7 true 0 100;
             SharedAuth.mkSession 8 true 0 101]
            (<[8 := 1%nat]> {[ 7 := 0%nat ]}) false,
          [CreateFlagFile; CreateFlagFile;
           Send 7 MsgPasswordAccepted; Send 8 MsgPasswordAccepted],
          [SharedOverlap.Returned; SharedOverlap.Returned]).
Proof.
  assert (Hconf : ("secret"%string ≠ EmptyString
                   ∧ "secret"%string = "secret"%string)
                  ∨ ("secret"%string = EmptyString
                     ∧ "secret"%string = "password"%string))
    by (left; split; [discriminate|reflexivity]).
  destruct (flag_file_can_be_created_twice "secret" "secret" 7 8 Hconf
              (SharedAuth.mkState
                 [SharedAuth.mkSession 7 true 0 100;
                  SharedAuth.mkSession 8 true 0 101]
                 (<[8 := 1%nat]> {[ 7 := 0%nat ]}) true)
              0%nat 1%nat
              (SharedAuth.mkSession 7 true 0 100)
              (SharedAuth.mkSession 8 true 0 101)) as [Hexec _];
    [split; reflexivity|reflexivity|split; reflexivity|reflexivity..|].
  exact Hexec.
Defined.

(** X18. [session.uploadCount++] can lose a count.  Take a conversation
    with an active, authenticated session and two documents named [*.jar]
    that download and are stored.  If their handlers overlap and both load
    the counter before either stores it, both store the same number: two
    calls of [uploadFile] returned [nil], the counter has advanced by one,
    and both success messages report the same total. *)
Theorem overlapping_uploads_lose_a_count
    (pw : string) (c : Z) (name1 name2 : string) :
  HasSuffix name1 jar = true → HasSuffix name2 jar = true →
  (∀ st (p : ptr) s,
     PerChat.session_of st c p s →
     PerChat.isActive s = true → PerChat.authenticated s = true →
     ∃ st',
       PerChatOverlap.exec pw st
         [PerChatOverlap.Dispatched (OnDocument c name1 None None);
          PerChatOverlap.Dispatched (OnDocument c name2 None None)]
         [0; 1; 0; 1; 0; 1]%nat
       = Some (st',
               [Send c (MsgProgress name1 (PerChat.uploadCount s));
                Send c (MsgProgress name2 (PerChat.uploadCount s));
                BotFile name1 None; DriveUpload name1 None;
                BotFile name2 None; DriveUpload name2 None;
                Send c (MsgUploaded name1 (int_incr (PerChat.uploadCount s)));
                Send c (MsgUploaded name2 (int_incr (PerChat.uploadCount s)))],
               [PerChatOverlap.Returned; PerChatOverlap.Returned])
       ∧ PerChat.session_of st' c p (PerChat.incr_uploadCount s))
  ∧ (∀ st (p : ptr) s,
       SharedAuth.session_of st c p s →
       SharedAuth.isActive s = true → SharedAuth.isFirstTimeSetup st = false →
       ∃ st',
         SharedOverlap.exec pw st
           [SharedOverlap.Dispatched (OnDocument c name1 None None);
            SharedOverlap.Dispatched (OnDocument c name2 None None)]
           [0; 1; 0; 1; 0; 1]%nat
         = Some (st',
                 [Send c (MsgProgress name1 (SharedAuth.uploadCount s));
                  Send c (MsgProgress name2 (SharedAuth.uploadCount s));
                  BotFile name1 None; DriveUpload name1 None;
                  BotFile name2 None; DriveUpload name2 None;
                  Send c (MsgUploaded name1
                            (int_incr (SharedAuth.uploadCount s)));
                  Send c (MsgUploaded name2
                            (int_incr (SharedAuth.uploadCount s)))],
                 [SharedOverlap.Returned; SharedOverlap.Returned])
         ∧ SharedAuth.session_of st' c p (SharedAuth.incr_uploadCount s)).
Proof.
  intros Hjar1 Hjar2. split.
  - intros st p s [Hc Hp] Hact Hauth.
    assert (Hlt : (p < List.length (PerChat.heap st))%nat)
      by (by eapply lookup_lt_Some).
    repeat (simpl;
            unfold PerChatOverlap.beginDocument, PerChatOverlap.endTransfer,
                   PerChatOverlap.endIncrement;
            rewrite ?Hc, ?Hp, ?Hact, ?Hauth, ?Hjar1, ?Hjar2,
                    ?list_lookup_insert_eq by done).
    eexists. split; [done|]. split; [done|]. simpl.
    rewrite list_lookup_insert_eq by (by rewrite length_insert).
    unfold PerChat.incr_uploadCount. by rewrite Hact, Hauth.
  - intros st p s [Hc Hp] Hact Hflag.
    assert (Hlt : (p < List.length (SharedAuth.heap st))%nat)
      by (by eapply lookup_lt_Some).
    repeat (simpl;
            unfold SharedOverlap.beginDocument, SharedOverlap.endTransfer,
                   SharedOverlap.endIncrement;
            rewrite ?Hc, ?Hp, ?Hact, ?Hflag, ?Hjar1, ?Hjar2,
                    ?list_lookup_insert_eq by done).
    eexists. split; [done|]. split; [done|]. simpl.
    rewrite list_lookup_insert_eq by (by rewrite length_insert).
    unfold SharedAuth.incr_uploadCount. by rewrite Hact.
Qed.

Lemma overlapping_uploads_lose_a_count_witness :
  (∃ st',
     PerChatOverlap.exec "secret" (PerChat.uploading_state 0)
       [PerChatOverlap.Dispatched (OnDocument 7 "mod1.jar" None None);
        PerChatOverlap.Dispatched (OnDocument 7 "mod2.jar" None None)]
       [0; 1; 0; 1; 0; 1]%nat
     = Some (st',
             [Send 7 (MsgProgress "mod1.jar" 0);
              Send 7 (MsgProgress "mod2.jar" 0);
              BotFile "mod1.jar" None; DriveUpload "mod1.jar" None;
              BotFile "mod2.jar" None; DriveUpload "mod2.jar" None;
              Send 7 (MsgUploaded "mod1.jar" 1);
              Send 7 (MsgUploaded "mod2.jar" 1)],
             [PerChatOverlap.Returned; PerChatOverlap.Returned])
     ∧ PerChat.session_of st' 7 0%nat (PerChat.mkSession 7 true 1 100 true))
  ∧ (∃ st',
       SharedOverlap.exec "secret" (SharedAuth.uploading_state 0)
         [SharedOverlap.Dispatched (OnDocument 7 "mod1.jar" None None);
          SharedOverlap.Dispatched (OnDocument 7 "mod2.jar" None None)]
         [0; 1; 0; 1; 0; 1]%nat
       = Some (st',
               [Send 7 (MsgProgress "mod1.jar" 0);
                Send 7 (MsgProgress "mod2.jar" 0);
                BotFile "mod1.jar" None; DriveUpload "mod1.jar" None;
                BotFile "mod2.jar" None; DriveUpload "mod2.jar" None;
                Send 7 (MsgUploaded "mod1.jar" 1);
                Send 7 (MsgUploaded "mod2.jar" 1)],
               [SharedOverlap.Returned; SharedOverlap.Returned])
       ∧ SharedAuth.session_of st' 7 0%nat (SharedAuth.mkSession 7 true 1 100)).
Proof.
  destruct (overlapping_uploads_lose_a_count "secret" 7 "mod1.jar" "mod2.jar")
    as [HP HS]; [reflexivity..|].
  split.
  - apply (HP (PerChat.uploading_state 0) 0%nat
              (PerChat.mkSession 7 true 0 100 true));
      [split; reflexivity|reflexivity..].
  - apply (HS (SharedAuth.uploading_state 0) 0%nat
              (SharedAuth.mkSession 7 true 0 100));
      [split; reflexivity|reflexivity..].
Defined.

(** X19. The serial executions are among the schedules: resuming each
    handler of a trace until it returns before the next one is started ends
    in the state and with the calls of [run], every handler returned. *)
Theorem serial_schedule_is_run (pw : string) (tr : list Event) :
  (∀ st,
     PerChatOverlap.exec pw st (PerChatOverlap.Dispatched <$> tr)
       (serial 0 (List.length tr))
     = (λ r, (fst r, snd r,
              replicate (List.length tr) PerChatOverlap.Returned))
       <$> PerChat.run pw st tr)
  ∧ (∀ st,
       SharedOverlap.exec pw st (SharedOverlap.Dispatched <$> tr)
         (serial 0 (List.length tr))
       = (λ r, (fst r, snd r,
                replicate (List.length tr) SharedOverlap.Returned))
         <$> SharedAuth.run pw st tr).
Proof.
  split; intros st.
  - apply (PerChatOverlapFacts.exec_serial pw tr st 0).
  - apply (SharedOverlapFacts.shared_exec_serial pw tr st 0).
Qed.


(** X21. However the handlers overlap, no counter counts a document that
    was not stored: from the initial state, for every trace and every
    schedule (of fewer than 2^63 resumptions), the [uploadCount] of every
    session object is at least 0 and at most the number of document
    handlers of its conversation that came back from an [uploadFile] that
    returned [nil].  (It can be less: two overlapping handlers may count
    once.) *)
Theorem counters_never_exceed_stored_documents
    (pw : string) (tr : list Event) (schedule : list nat) :
  Z.of_nat (List.length schedule) ≤ int_max →
  (∃ st log pool,
     PerChatOverlap.exec_log pw PerChat.init
       (PerChatOverlap.Dispatched <$> tr) schedule
     = Some (st, log, pool)
     ∧ ∀ (p : ptr) s,
         PerChat.heap st !! p = Some s →
         0 ≤ PerChat.uploadCount s
           ≤ Z.of_nat (PerChatOverlap.transfers_ok (PerChat.chatID s) log))
  ∧ (∀ flagFileFound,
       ∃ st log pool,
         SharedOverlap.exec_log pw (SharedAuth.init flagFileFound)
           (SharedOverlap.Dispatched <$> tr) schedule
         = Some (st, log, pool)
         ∧ ∀ (p : ptr) s,
             SharedAuth.heap st !! p = Some s →
             0 ≤ SharedAuth.uploadCount s
               ≤ Z.of_nat (SharedOverlap.transfers_ok
                             (SharedAuth.chatID s) log)).
Proof.
  intros Hfit. split.
  - destruct (PerChatOverlapInv.exec_log_wf pw schedule PerChat.init
                (PerChatOverlap.Dispatched <$> tr) PerChatFacts.wf_init)
      as (st & log & pool & Hexec & _).
    { apply Forall_fmap, Forall_true. by intros e. }
    exists st, log, pool. split; [done|].
    apply (PerChatOverlapInv.exec_log_counted pw schedule PerChat.init
             (PerChatOverlap.Dispatched <$> tr) [] st log pool);
      [apply PerChatFacts.wf_init| | | |done|done].
    + apply Forall_fmap, Forall_true. by intros e.
    + by intros p s.
    + apply Forall_fmap, Forall_true. by intros e.
  - intros flagFileFound.
    destruct (SharedOverlapInv.shared_exec_log_wf pw schedule
                (SharedAuth.init flagFileFound)
                (SharedOverlap.Dispatched <$> tr)
                (SharedAuthFacts.shared_wf_init flagFileFound))
      as (st & log & pool & Hexec & _).
    { apply Forall_fmap, Forall_true. by intros e. }
    exists st, log, pool. split; [done|].
    apply (SharedOverlapInv.shared_exec_log_counted pw schedule
             (SharedAuth.init flagFileFound)
             (SharedOverlap.Dispatched <$> tr) [] st log pool);
      [apply SharedAuthFacts.shared_wf_init| | | |done|done].
    + apply Forall_fmap, Forall_true. by intros e.
    + by intros p s.
    + apply Forall_fmap, Forall_true. by intros e.
Qed.

Lemma counters_never_exceed_stored_documents_witness :
  ∃ st log pool,
    PerChatOverlap.exec_log "secret" PerChat.init
      (PerChatOverlap.Dispatched
         <$> [CmdUpload 7 100; OnText 7 "secret";
              OnDocument 7 "mod1.jar" None None;
              OnDocument 7 "mod2.jar" None None])
      [0; 1; 2; 3; 2; 3; 2; 3]%nat
    = Some (st, log, pool)
    ∧ ∀ (p : ptr) s,
        PerChat.heap st !! p = Some s →
        0 ≤ PerChat.uploadCount s
          ≤ Z.of_nat (PerChatOverlap.transfers_ok (PerChat.chatID s) log).
Proof.
  destruct (counters_never_exceed_stored_documents "secret"
              [CmdUpload 7 100; OnText 7 "secret";
               OnDocument 7 "mod1.jar" None None;
               OnDocument 7 "mod2.jar" None None]
              [0; 1; 2; 3; 2; 3; 2; 3]%nat) as [HP _];
    [unfold int_max; simpl; lia|].
  exact HP.
Defined.

(** That run, computed: both documents are stored, the
    counter ends at 1. *)
Example two_stored_one_counted :
  ∃ log,
    PerChatOverlap.exec_log "secret" PerChat.init
      (PerChatOverlap.Dispatched
         <$> [CmdUpload 7 100; OnText 7 "secret";
              OnDocument 7 "mod1.jar" None None;
              OnDocument 7 "mod2.jar" None None])
      [0; 1; 2; 3; 2; 3; 2; 3]%nat
    = Some (PerChat.mkState [PerChat.mkSession 7 true 1 100 true]
                            {[ 7 := 0%nat ]},
            log,
            [PerChatOverlap.Returned; PerChatOverlap.Returned;
             PerChatOverlap.Returned; PerChatOverlap.Returned])
    ∧ PerChatOverlap.transfers_ok 7 log = 2%nat.
Proof. eexists. split; [vm_compute; reflexivity|reflexivity]. Qed.

(** X22. A late store can lower the counter.  Take a conversation with an
    active, authenticated session and three documents named [*.jar] that
    download and are stored.  The first handler loads the counter and is
    overtaken by the other two, which run to their return and leave the
    counter two higher; when the first then stores what it had loaded plus
    one, the counter goes down by one.  (The counter is taken far enough
    from the top of [int] for the additions not to wrap.) *)
Theorem late_store_lowers_the_counter
    (pw : string) (c : Z) (name1 name2 name3 : string) :
  HasSuffix name1 jar = true → HasSuffix name2 jar = true →
  HasSuffix name3 jar = true →
  (∀ st (p : ptr) s,
     PerChat.session_of st c p s →
     PerChat.isActive s = true → PerChat.authenticated s = true →
     int_min ≤ PerChat.uploadCount s → PerChat.uploadCount s + 2 ≤ int_max →
     ∃ st1 acts1 pool1 s1 st2 acts2 pool2 s2,
       PerChatOverlap.exec pw st
         [PerChatOverlap.Dispatched (OnDocument c name1 None None);
          PerChatOverlap.Dispatched (OnDocument c name2 None None);
          PerChatOverlap.Dispatched (OnDocument c name3 None None)]
         [0; 0; 1; 1; 1; 2; 2; 2]%nat
       = Some (st1, acts1, pool1)
       ∧ PerChat.session_of st1 c p s1
       ∧ PerChat.uploadCount s1 = PerChat.uploadCount s + 2
       ∧ PerChatOverlap.exec pw st1 pool1 [0]%nat = Some (st2, acts2, pool2)
       ∧ PerChat.session_of st2 c p s2
       ∧ PerChat.uploadCount s2 = PerChat.uploadCount s + 1)
  ∧ (∀ st (p : ptr) s,
       SharedAuth.session_of st c p s →
       SharedAuth.isActive s = true → SharedAuth.isFirstTimeSetup st = false →
       int_min ≤ SharedAuth.uploadCount s →
       SharedAuth.uploadCount s + 2 ≤ int_max →
       ∃ st1 acts1 pool1 s1 st2 acts2 pool2 s2,
         SharedOverlap.exec pw st
           [SharedOverlap.Dispatched (OnDocument c name1 None None);
            SharedOverlap.Dispatched (OnDocument c name2 None None);
            SharedOverlap.Dispatched (OnDocument c name3 None None)]
           [0; 0; 1; 1; 1; 2; 2; 2]%nat
         = Some (st1, acts1, pool1)
         ∧ SharedAuth.session_of st1 c p s1
         ∧ SharedAuth.uploadCount s1 = SharedAuth.uploadCount s + 2
         ∧ SharedOverlap.exec pw st1 pool1 [0]%nat = Some (st2, acts2, pool2)
         ∧ SharedAuth.session_of st2 c p s2
         ∧ SharedAuth.uploadCount s2 = SharedAuth.uploadCount s + 1).
Proof.
  intros Hjar1 Hjar2 Hjar3. split.
  - intros st p s [Hc Hp] Hact Hauth Hlow Hhigh.
    assert (Hlt : (p < List.length (PerChat.heap st))%nat)
      by (by eapply lookup_lt_Some).
    repeat (simpl;
            unfold PerChatOverlap.beginDocument, PerChatOverlap.endTransfer,
                   PerChatOverlap.endIncrement;
            rewrite ?Hc, ?Hp, ?Hact, ?Hauth, ?Hjar1, ?Hjar2, ?Hjar3,
                    ?list_lookup_insert_eq by (rewrite ?length_insert; done)).
    do 3 eexists. eexists. do 3 eexists. eexists.
    split; [done|]. split.
    { split; [done|]. simpl.
      by rewrite list_lookup_insert_eq by (by rewrite ?length_insert). }
    split.
    { simpl. rewrite !int_incr_below by (rewrite ?int_incr_below; lia). lia. }
    repeat (simpl;
            unfold PerChatOverlap.endIncrement;
            rewrite ?list_lookup_insert_eq by (rewrite ?length_insert; done)).
    split; [done|]. split.
    { split; [done|]. simpl.
      by rewrite list_lookup_insert_eq by (by rewrite ?length_insert). }
    simpl. by rewrite int_incr_below by lia.
  - intros st p s [Hc Hp] Hact Hflag Hlow Hhigh.
    assert (Hlt : (p < List.length (SharedAuth.heap st))%nat)
      by (by eapply lookup_lt_Some).
    repeat (simpl;
            unfold SharedOverlap.beginDocument, SharedOverlap.endTransfer,
                   SharedOverlap.endIncrement;
            rewrite ?Hc, ?Hp, ?Hact, ?Hflag, ?Hjar1, ?Hjar2, ?Hjar3,
                    ?list_lookup_insert_eq by (rewrite ?length_insert; done)).
    do 3 eexists. eexists. do 3 eexists. eexists.
    split; [done|]. split.
    { split; [done|]. simpl.
      by rewrite list_lookup_insert_eq by (by rewrite ?length_insert). }
    split.
    { simpl. rewrite !int_incr_below by (rewrite ?int_incr_below; lia). lia. }
    repeat (simpl;
            unfold SharedOverlap.endIncrement;
            rewrite ?list_lookup_insert_eq by (rewrite ?length_insert; done)).
    split; [done|]. split.
    { split; [done|]. simpl.
      by rewrite list_lookup_insert_eq by (by rewrite ?length_insert). }
    simpl. by rewrite int_incr_below by lia.
Qed.

Lemma late_store_lowers_the_counter_witness :
  ∃ st1 acts1 pool1 s1 st2 acts2 pool2 s2,
    SharedOverlap.exec "secret" (SharedAuth.uploading_state 0)
      [SharedOverlap.Dispatched (OnDocument 7 "mod1.jar" None None);
       SharedOverlap.Dispatched (OnDocument 7 "mod2.jar" None None);
       SharedOverlap.Dispatched (OnDocument 7 "mod3.jar" None None)]
      [0; 0; 1; 1; 1; 2; 2; 2]%nat
    = Some (st1, acts1, pool1)
    ∧ SharedAuth.session_of st1 7 0%nat s1
    ∧ SharedAuth.uploadCount s1 = 0 + 2
    ∧ SharedOverlap.exec "secret" st1 pool1 [0]%nat = Some (st2, acts2, pool2)
    ∧ SharedAuth.session_of st2 7 0%nat s2
    ∧ SharedAuth.uploadCount s2 = 0 + 1.
Proof.
  destruct (late_store_lowers_the_counter "secret" 7
              "mod1.jar" "mod2.jar" "mod3.jar") as [_ HS];
    [reflexivity..|].
  apply (HS (SharedAuth.uploading_state 0) 0%nat
            (SharedAuth.mkSession 7 true 0 100));
    [split; reflexivity|reflexivity|reflexivity
    |unfold int_min; simpl; lia|unfold int_max; simpl; lia].
Defined.
